(** * mcsr-bot: the polling-and-reconciliation engine of [src/index.js]

    A shallow embedding of the match validator, the two best-time resolvers,
    the PB updater tick and the finished-match notifier tick, with the
    properties of the specification proved (or refuted) over it.

    Conventions of the embedding.
    - A JavaScript number is [NaN], one of the two infinities, or a finite
      value kept exactly as a canonical rational ([Qc]): every finite double
      is such a rational, and the source only tests finiteness, compares and
      subtracts-to-compare, all of which agree with the exact order.
    - A payload is a JSON value ([value]).  Object properties are kept in
      enumeration order, since [Object.entries] followed by a stable sort
      observes it.
    - The coercions of the runtime that the source calls but does not define
      ([Number] on a string, [String] on a number or an object) are
      parameters of the development: every theorem holds for whatever they
      compute.
    - [axios.get] either delivers a response body or rejects; an [async]
      function is a computation in [outcome].
    - The notification sink and the state file accept every write; what is
      sent and saved, and in which order, is recorded as a list of effects.
    - The two timer callbacks share the variable [state] and are suspended
      at their [await]s.  The steps of their loops are functions on the
      state they find ([pbStep], [watchStep]).  The callbacks themselves
      are modelled twice: as they run on the shared variable, interleaved
      in any order ([resume], [react], [run]); and as one of them runs when
      no other callback runs during its [await]s ([pbTick], [watchTick]),
      which is the former run alone ([pbCallbackOver_alone],
      [watchCallbackOver_alone]). *)

From stdpp Require Import gmap strings list fin_maps numbers pretty.
From Stdlib Require Import Ascii QArith Qcanon Qround Sorted.

Set Warnings "-register-all".

Open Scope string_scope.
Open Scope list_scope.
Open Scope Z_scope.

(** ** JavaScript numbers *)

Inductive number : Type :=
| NaN
| PosInf
| NegInf
| Fin (q : Qc).

(** An integer count of milliseconds as a number. *)
Definition ms (z : Z) : number := Fin (Q2Qc (inject_Z z)).

Definition Qc_ltb (a b : Qc) : bool :=
  match (a ?= b)%Qc with Lt => true | _ => false end.

Definition Qc_eqb (a b : Qc) : bool :=
  match (a ?= b)%Qc with Eq => true | _ => false end.

(** [Number.isFinite] *)
Definition isFinite (n : number) : bool :=
  match n with Fin _ => true | _ => false end.

(** [a < b] *)
Definition num_ltb (a b : number) : bool :=
  match a, b with
  | NaN, _ | _, NaN => false
  | Fin x, Fin y => Qc_ltb x y
  | NegInf, NegInf => false
  | NegInf, _ => true
  | _, NegInf => false
  | PosInf, _ => false
  | Fin _, PosInf => true
  end.

(** [a === b] on numbers *)
Definition num_eqb (a b : number) : bool :=
  match a, b with
  | Fin x, Fin y => Qc_eqb x y
  | PosInf, PosInf | NegInf, NegInf => true
  | _, _ => false
  end.

(** [a <= b] *)
Definition num_leb (a b : number) : bool := num_ltb a b || num_eqb a b.

(** [a > b] *)
Definition num_gtb (a b : number) : bool := num_ltb b a.

(** ** JSON values *)

Inductive value : Type :=
| VUndefined
| VNull
| VBool (b : bool)
| VNum (n : number)
| VStr (s : string)
| VArr (items : list value)
| VObj (props : list (string * value)).

(** An object: its own properties in enumeration order. *)
Abbreviation object := (list (string * value)).

(** [o[k]] on an object: the property, or [undefined]. *)
Fixpoint obj_get (k : string) (o : object) : value :=
  match o with
  | [] => VUndefined
  | (k', v) :: o' => if decide (k = k') then v else obj_get k o'
  end.

(** [o[k] = v]: an existing property keeps its place, a new one goes last
    (the keys the source assigns are roster names, never array indices). *)
Fixpoint obj_set (k : string) (v : value) (o : object) : object :=
  match o with
  | [] => [(k, v)]
  | (k', v') :: o' =>
      if decide (k = k') then (k, v) :: o' else (k', v') :: obj_set k v o'
  end.

(** [x?.k]: [undefined] on [null], [undefined] and on values that have no
    such property (the keys read by the source are [data], [result], [time],
    [uuid], [forfeited], [id] and [type]; no primitive and no array has them). *)
Definition opt_get (x : value) (k : string) : value :=
  match x with
  | VObj o => obj_get k o
  | _ => VUndefined
  end.

Notation "x ?.[ k ]" := (opt_get x k) (at level 1, left associativity, format "x ?.[ k ]").

(** [!!x] *)
Definition truthy (x : value) : bool :=
  match x with
  | VUndefined | VNull => false
  | VBool b => b
  | VNum NaN => false
  | VNum (Fin q) => negb (Qc_eqb q (Q2Qc 0))
  | VNum _ => true
  | VStr s => negb (bool_decide (s = ""))
  | VArr _ | VObj _ => true
  end.

(** [x == null] *)
Definition nullish (x : value) : bool :=
  match x with VUndefined | VNull => true | _ => false end.

(** [typeof x === "number"] and [typeof x === "string"] *)
Definition is_number (x : value) : bool :=
  match x with VNum _ => true | _ => false end.

Definition is_string (x : value) : bool :=
  match x with VStr _ => true | _ => false end.

(** [a === b].  Two arrays or two objects are equal only when they are the
    same allocation; the operands compared by the source come from different
    payloads (or one of them is a string), so they never are. *)
Definition strict_eq (a b : value) : bool :=
  match a, b with
  | VUndefined, VUndefined | VNull, VNull => true
  | VBool x, VBool y => bool_decide (x = y)
  | VNum x, VNum y => num_eqb x y
  | VStr x, VStr y => bool_decide (x = y)
  | _, _ => false
  end.

(** ** Outcome of an asynchronous call *)

Inductive outcome (A : Type) : Type :=
| Resolved (a : A)
| Rejected.
Arguments Resolved {A} a.
Arguments Rejected {A}.

#[global] Instance outcome_ret : MRet outcome := @Resolved.
#[global] Instance outcome_bind : MBind outcome := fun A B f c =>
  match c with Resolved a => f a | Rejected => Rejected end.
#[global] Instance outcome_fmap : FMap outcome := fun A B f c =>
  match c with Resolved a => Resolved (f a) | Rejected => Rejected end.

(** [promise.catch(() => null)] *)
Definition catch_null (c : outcome value) : value :=
  match c with Resolved v => v | Rejected => VNull end.

(** [x.k]: a [TypeError] on [null] and [undefined]. *)
Definition strict_get (x : value) (k : string) : outcome value :=
  if nullish x then Rejected else Resolved (x?.[k]).

(** ** Persisted state, announcements, effects *)

(** [state.json]: [pbByType[type][player]] is a stored time,
    [lastMatchId[player]] a watermark, [top3ByType[type]] the cached ranking.
    The two map levels are the objects [saveState] wrote; what is stored at
    the leaves is any JSON value, since both ticks re-validate it. *)
Record State : Type := {
  pbByType : gmap Z object;
  boardMessageId : value;
  lastMatchId : gmap string value;
  top3ByType : gmap Z value;
}.

(** The texts handed to [channel.send], by template and template arguments. *)
Inductive announcement : Type :=
| TakesFirst (player type : string)
| MovesIntoSecond (player type : string)
| BreaksIntoThird (player type : string)
| NewPB (typeName player : string) (latest prev : number)
| NoCompletionTime (player typeName : string)
| FinishedIn (player : string) (time : number) (typeName : string)
| RankedResult (trackedName : string) (trackedUuid match_ : value).

Inductive effect : Type :=
| Saved (state : State)
| Sent (msg : announcement)
| BoardEdited (state : State).

(** ** A sample runtime and sample data, used to evaluate the definitions

    The sample runtime reads unsigned decimal integers and prints integers in
    decimal, as the runtime does (below 10^21); other strings read as [NaN],
    and an object prints as a fixed token. *)

Definition digit_of (c : Ascii.ascii) : option Z :=
  let n := Z.of_N (Ascii.N_of_ascii c) in
  if Z.leb 48 n && Z.leb n 57 then Some (n - 48) else None.

Fixpoint digits_value (acc : Z) (s : string) : option Z :=
  match s with
  | EmptyString => Some acc
  | String c s' =>
      match digit_of c with
      | Some d => digits_value (10 * acc + d) s'
      | None => None
      end
  end.

Definition sampleStringToNumber (s : string) : number :=
  match digits_value 0 s with
  | Some z => ms z
  | None => NaN
  end.

Definition sampleNumberToString (n : number) : string :=
  match n with
  | NaN => "NaN"
  | PosInf => "Infinity"
  | NegInf => "-Infinity"
  | Fin q => if decide (Qden q = 1%positive) then pretty (Qnum q) else "<fraction>"
  end.

Definition sampleObjectToString (v : value) : string := "[object Object]".

(** Two players whose identity was resolved at startup. *)
Definition sampleUuids : gmap string value :=
  <["JerryBox" := VStr "uuid-jerry"]> (<["jeefq" := VStr "uuid-jeefq"]> ∅).

(** A finished match: identifier, category, completion time, winner. *)
Definition sampleMatch (id type time : Z) (winner : string) : value :=
  VObj [("id", VNum (ms id)); ("type", VNum (ms type)); ("forfeited", VBool false);
        ("result", VObj [("uuid", VStr winner); ("time", VNum (ms time))])].

(** The same, without an identifier. *)
Definition sampleMatchNoId (type time : Z) (winner : string) : value :=
  VObj [("type", VNum (ms type)); ("forfeited", VBool false);
        ("result", VObj [("uuid", VStr winner); ("time", VNum (ms time))])].

(** A response body carrying a page of matches. *)
Definition samplePage (l : list value) : value :=
  VObj [("status", VStr "success"); ("data", VArr l)].

(** A state in which jeefq leads the Ranked board before JerryBox. *)
Definition sampleState : State :=
  {| pbByType :=
       <[2 := [("JerryBox", VNum (ms 620000)); ("jeefq", VNum (ms 600000))]]> ∅;
     boardMessageId := VStr "board";
     lastMatchId := <["JerryBox" := VStr "101"]> ∅;
     top3ByType := <[2 := VArr [VStr "jeefq"; VStr "JerryBox"]]> ∅ |}.

(** A state in which the stored Ranked entry of JerryBox is not a time. *)
Definition sampleBrokenState : State :=
  {| pbByType := <[2 := [("JerryBox", VNum (ms (-5)))]]> ∅;
     boardMessageId := VStr "board";
     lastMatchId := ∅;
     top3ByType := ∅ |}.

(** A Casual board with a tie and an entry that is not a time. *)
Definition sampleTiedState : State :=
  {| pbByType :=
       <[1 := [("tumblintim", VNum (ms 500000)); ("JerryBox", VNum (ms 500000));
               ("jeefq", VStr "n/a"); ("LegitNG", VNum (ms 450000))]]> ∅;
     boardMessageId := VStr "board";
     lastMatchId := ∅;
     top3ByType := ∅ |}.

(** A state with nothing recorded yet in the Ranked category. *)
Definition sampleEmptyState : State :=
  {| pbByType := <[2 := []]> ∅;
     boardMessageId := VNull;
     lastMatchId := ∅;
     top3ByType := ∅ |}.

(** A fastest-first Ranked page of JerryBox: the fastest match was won by
    the opponent. *)
Definition sampleRankedPage : value :=
  samplePage [sampleMatch 7 2 560000 "uuid-jeefq";
              sampleMatch 9 2 580000 "uuid-jerry";
              sampleMatch 4 2 610000 "uuid-jerry"].

(** A network on which only the Ranked page of JerryBox is delivered. *)
Definition sampleNet (p : string) (t : Z) (i : nat) : outcome value :=
  if bool_decide (p = "JerryBox") && bool_decide (t = 2) then Resolved sampleRankedPage
  else Rejected.

(** Pages of a newest-first scan: the only match of the first page has no
    identifier, the second page holds a faster win, the third is empty. *)
Definition samplePagesNoId (i : nat) : value :=
  match i with
  | O => samplePage [sampleMatchNoId 1 500000 "uuid-jerry"]
  | S O => samplePage [sampleMatch 3 1 300000 "uuid-jerry"]
  | _ => samplePage []
  end.

(** A match whose winner identity is the empty token. *)
Definition sampleMatchEmptyWinner : value := sampleMatch 5 2 650000 "".

(** ** Arithmetic and strings used by the renderers

    [formatTime] divides, takes a remainder and floors.  On a whole number of
    milliseconds below 2^53 the exact operations below give what the double
    operations give: the remainder and the floor are exact, and the floor of
    a rounded quotient of whole numbers in that range is the floor of the
    exact one. *)

(** [Math.floor] *)
Definition num_floor (n : number) : number :=
  match n with
  | Fin q => Fin (Q2Qc (inject_Z (Qfloor q)))
  | _ => n
  end.

(** [n / c] for a finite, strictly positive [c] *)
Definition num_div (n : number) (c : Qc) : number :=
  match n with
  | Fin q => Fin (q / c)%Qc
  | _ => n
  end.

(** The quotient rounded towards zero. *)
Definition Qc_trunc (q : Qc) : Z :=
  if Qc_ltb q (Q2Qc 0) then Qceiling q else Qfloor q.

(** [n % c] for a finite, strictly positive [c]: the remainder has the sign
    of [n], and is [NaN] when [n] is not finite. *)
Definition num_rem (n : number) (c : Qc) : number :=
  match n with
  | Fin q => Fin (q - c * Q2Qc (inject_Z (Qc_trunc (q / c))))%Qc
  | _ => NaN
  end.

(** [s.padStart(n, c)] for a one-character pad *)
Definition padStart (n : nat) (c : Ascii.ascii) (s : string) : string :=
  String.string_of_list_ascii (repeat c (n - String.length s)) +:+ s.

(** [parts.join(sep)] on strings *)
Fixpoint joinWith (sep : string) (parts : list string) : string :=
  match parts with
  | [] => ""
  | [x] => x
  | x :: rest => x +:+ sep +:+ joinWith sep rest
  end.

(** The texts [buildRankedResultMessage] returns, by template and template
    arguments; [elo] is the rating printed after the text, if any. *)
Inductive resultText : Type :=
| BeatNoTime (trackedName oppName typeName : string) (elo : option number)
| LostNoTime (trackedName oppName typeName : string) (elo : option number)
| FinishedNoTime (trackedName typeName : string) (elo : option number)
| BeatIn (trackedName oppName timeText typeName : string) (elo : option number)
| LostIn (trackedName oppName timeText typeName : string) (elo : option number)
| FinishedInText (trackedName timeText typeName : string) (elo : option number).

(** The medal put before a row of the board. *)
Inductive medal : Type := Gold | Silver | Bronze | NoMedal.

(** The lines [buildBoardContent] pushes, by template and template arguments. *)
Inductive boardLine : Type :=
| BoardTitle
| BoardLastUpdate (seconds : string)
| BoardBlank
| BoardHeader (label : string)
| BoardNoCompletions
| BoardRow (m : medal) (player timeText : string).

(** A 1v1 Ranked match with its participants and rating changes. *)
Definition sampleDuel : value :=
  VObj [("id", VNum (ms 102)); ("type", VNum (ms 2)); ("forfeited", VBool false);
        ("result", VObj [("uuid", VStr "uuid-jerry"); ("time", VNum (ms 650000))]);
        ("players",
         VArr [VObj [("uuid", VStr "uuid-jerry"); ("nickname", VStr "JerryBox");
                     ("eloRate", VNum (ms 1480))];
               VObj [("uuid", VStr "uuid-b"); ("nickname", VStr "B");
                     ("eloRate", VNum (ms 1510))]]);
        ("changes",
         VArr [VObj [("uuid", VStr "uuid-jerry"); ("change", VNum (ms 20));
                     ("eloRate", VNum (ms 1500))];
               VObj [("uuid", VStr "uuid-b"); ("change", VNum (ms (-20)));
                     ("eloRate", VNum (ms 1490))]])].

(** The responses to the identity requests at startup: one player is known,
    one response carries an empty identity, the others fail. *)
Definition sampleIdentityNet (p : string) : outcome value :=
  if bool_decide (p = "JerryBox")
  then Resolved (VObj [("data", VObj [("uuid", VStr "uuid-jerry")])])
  else if bool_decide (p = "jeefq")
       then Resolved (VObj [("data", VObj [("uuid", VStr "")])])
       else Rejected.

(** A state in which the stored Ranked entry of JerryBox is below what the
    sample network resolves. *)
Definition sampleFastState : State :=
  {| pbByType := <[2 := [("JerryBox", VNum (ms 500000))]]> ∅;
     boardMessageId := VStr "board";
     lastMatchId := ∅;
     top3ByType := ∅ |}.

(** A source that always has one more page, and the same source failing
    from the 21st request on. *)
Definition samplePagesEndless (i : nat) : outcome value :=
  Resolved (samplePage [sampleMatch (Z.of_nat i) 1 (700000 - Z.of_nat i) "uuid-jerry"]).

Definition samplePagesCut (i : nat) : outcome value :=
  if (i <? 20)%nat then samplePagesEndless i else Rejected.

(** A source whose second request fails. *)
Definition samplePagesBroken (i : nat) : outcome value :=
  match i with
  | O => samplePagesEndless O
  | _ => Rejected
  end.

(** A response body without the array of matches. *)
Definition sampleBodyNoData : value := VObj [("status", VStr "error")].

(** A state in which the stored Ranked entry of JerryBox is [true]. *)
Definition sampleCoercedState : State :=
  {| pbByType := <[2 := [("JerryBox", VBool true)]]> ∅;
     boardMessageId := VStr "board";
     lastMatchId := ∅;
     top3ByType := ∅ |}.

(** A Casual board with its cached ranking, JerryBox third. *)
Definition sampleCasualState : State :=
  {| pbByType :=
       <[1 := [("LegitNG", VNum (ms 450000)); ("tumblintim", VNum (ms 500000));
               ("JerryBox", VNum (ms 520000))]]> ∅;
     boardMessageId := VStr "board";
     lastMatchId := ∅;
     top3ByType := <[1 := VArr [VStr "LegitNG"; VStr "tumblintim"; VStr "JerryBox"]]> ∅ |}.

(** The pages of a newest-first scan that holds one Casual win of JerryBox. *)
Definition sampleCasualPages (i : nat) : outcome value :=
  match i with
  | O => Resolved (samplePage [sampleMatch 3 1 480000 "uuid-jerry"])
  | _ => Resolved (samplePage [])
  end.

(** The response that carries the sample duel as newest match. *)
Definition sampleNewest : outcome value := Resolved (samplePage [sampleDuel]).

(** ** Configuration constants of the source *)

Definition players : list string :=
  [ "JerryBox"; "tumblintim"; "ilovehuntercr"; "jeefq";
    "LegitNG"; "superboy80"; "SDxSHOcK"; "MyKicksInBay" ].

(** 1 = Casual, 2 = Ranked, 3 = Private *)
Definition TRACK_TYPES : list Z := [1; 2; 3].

Definition MAX_PAGES : nat := 20.

Section Bot.

Set Default Proof Using "Type".

(** The runtime's coercions. *)
Variable StringToNumber : string → number.
Variable NumberToString : number → string.
Variable ObjectToString : value → string.

(** The identity map built once at startup: nickname -> uuid. *)
Variable uuidByName : gmap string value.

(** [String(x)] *)
Definition ToString (x : value) : string :=
  match x with
  | VUndefined => "undefined"
  | VNull => "null"
  | VBool true => "true"
  | VBool false => "false"
  | VNum n => NumberToString n
  | VStr s => s
  | VArr _ | VObj _ => ObjectToString x
  end.

(** [Number(x)] *)
Definition ToNumber (x : value) : number :=
  match x with
  | VUndefined => NaN
  | VNull => ms 0
  | VBool true => ms 1
  | VBool false => ms 0
  | VNum n => n
  | VStr s => StringToNumber s
  | VArr _ | VObj _ => StringToNumber (ObjectToString x)
  end.

(** [uuidByName[player]] *)
Definition uuid_of (player : string) : value :=
  default VUndefined (uuidByName !! player).

(** *** MatchValidator *)

Definition isValidWinForPlayer (m playerUuid : value) : bool :=
  let time := ToNumber (m?.["result"]?.["time"]) in
  let forfeited := truthy (m?.["forfeited"]) in
  let winnerUuid := m?.["result"]?.["uuid"] in
  if negb (isFinite time) || num_leb time (ms 0) then false
  else if forfeited then false
  else if negb (truthy winnerUuid) then false
  else if negb (truthy playerUuid) then false
  else strict_eq winnerUuid playerUuid.

(** *** BestTimeResolver *)

(** [Number(m.result.time)], with the two unguarded member accesses. *)
Definition result_time (m : value) : outcome number :=
  r ← strict_get m "result";
  t ← strict_get r "time";
  mret (ToNumber t).

(** The [for (const m of matches)] loop of [fetchRankedPB]. *)
Fixpoint rankedLoop (puid : value) (matches : list value) : outcome value :=
  match matches with
  | [] => mret VNull
  | m :: rest =>
      if isValidWinForPlayer m puid
      then t ← result_time m; mret (VNum t)
      else rankedLoop puid rest
  end.

(** [res] is what [axios.get] gives for the single fastest-first page. *)
Definition fetchRankedPB (res : outcome value) (player : string) : outcome value :=
  body ← res;
  match body?.["data"] with
  | VArr (m :: rest) => rankedLoop (uuid_of player) (m :: rest)
  | _ => mret VNull
  end.

(** The inner [for (const m of matches)] loop of [fetchCasualPrivatePB]. *)
Fixpoint scanMatches (puid : value) (matches : list value) (best : number)
  : outcome number :=
  match matches with
  | [] => mret best
  | m :: rest =>
      if negb (isValidWinForPlayer m puid) then scanMatches puid rest best
      else
        t ← result_time m;
        if isFinite t && num_gtb t (ms 0) && num_ltb t best
        then scanMatches puid rest t
        else scanMatches puid rest best
  end.

(** The [for (let page = 0; page < MAX_PAGES; page++)] loop; [fuel] is
    [MAX_PAGES - page].  [pages i] is what the [i]-th request delivers.  The
    result carries the running minimum and the number of requests issued. *)
Fixpoint scanPages (pages : nat → outcome value) (puid : value)
    (fuel page : nat) (best : number) : outcome (number * nat) :=
  match fuel with
  | O => mret (best, page)
  | S fuel' =>
      body ← pages page;
      match body?.["data"] with
      | VArr (m :: rest) =>
          best' ← scanMatches puid (m :: rest) best;
          let lastId := (List.last (m :: rest) VUndefined)?.["id"] in
          if nullish lastId then mret (best', S page)
          else scanPages pages puid fuel' (S page) best'
      | _ => mret (best, S page)
      end
  end.

(** [fetchCasualPrivatePB], paired with the number of requests it issued. *)
Definition fetchCasualPrivatePB_run (pages : nat → outcome value) (player : string)
  : outcome (value * nat) :=
  let puid := uuid_of player in
  if negb (truthy puid) then mret (VNull, O)
  else
    r ← scanPages pages puid MAX_PAGES O PosInf;
    mret (if num_eqb r.1 PosInf then VNull else VNum r.1, r.2).

Definition fetchCasualPrivatePB (pages : nat → outcome value) (player : string)
  : outcome value :=
  fst <$> fetchCasualPrivatePB_run pages player.

Definition fetchPBTime (pages : nat → outcome value) (player : string)
    (matchType : Z) : outcome value :=
  if decide (matchType = 2) then fetchRankedPB (pages O) player
  else if decide (matchType = 1 ∨ matchType = 3)
       then fetchCasualPrivatePB pages player
       else mret VNull.

(** [res] is what [axios.get] gives for the newest match of the player. *)
Definition fetchLatestMatch (res : outcome value) : outcome value :=
  body ← res;
  match body?.["data"] with
  | VArr (m :: _) => mret m
  | _ => mret VNull
  end.

(** *** Labels, texts and state updates *)

(** [typeLabel] *)
Definition typeLabel (t : value) : string :=
  if strict_eq t (VNum (ms 1)) then "Casual"
  else if strict_eq t (VNum (ms 2)) then "Ranked"
  else if strict_eq t (VNum (ms 3)) then "Private"
  else if strict_eq t (VNum (ms 4)) then "Event"
  else "Match".

(** [getPlacementMessage]: the text, or [null]. *)
Definition getPlacementMessage (place : Z) (player type : string)
  : option announcement :=
  if decide (place = 1) then Some (TakesFirst player type)
  else if decide (place = 2) then Some (MovesIntoSecond player type)
  else if decide (place = 3) then Some (BreaksIntoThird player type)
  else None.

(** [state.pbByType[t]], an object once the category loop has ensured it. *)
Definition pb_of (state : State) (t : Z) : object :=
  default [] (pbByType state !! t).

(** [state.pbByType[t][p] = v] *)
Definition set_pb (state : State) (t : Z) (p : string) (v : value) : State :=
  {| pbByType := <[t := obj_set p v (pb_of state t)]> (pbByType state);
     boardMessageId := boardMessageId state;
     lastMatchId := lastMatchId state;
     top3ByType := top3ByType state |}.

(** [state.pbByType[t] = state.pbByType[t] || {}] *)
Definition ensure_pb (state : State) (t : Z) : State :=
  {| pbByType := <[t := pb_of state t]> (pbByType state);
     boardMessageId := boardMessageId state;
     lastMatchId := lastMatchId state;
     top3ByType := top3ByType state |}.

(** [state.top3ByType[t] = v] *)
Definition set_top3 (state : State) (t : Z) (v : value) : State :=
  {| pbByType := pbByType state;
     boardMessageId := boardMessageId state;
     lastMatchId := lastMatchId state;
     top3ByType := <[t := v]> (top3ByType state) |}.

(** [state.lastMatchId[p] = idStr] *)
Definition set_lastMatchId (state : State) (p idStr : string) : State :=
  {| pbByType := pbByType state;
     boardMessageId := boardMessageId state;
     lastMatchId := <[p := VStr idStr]> (lastMatchId state);
     top3ByType := top3ByType state |}.

(** *** Ranking *)

(** [.sort((a, b) => a[1] - b[1])] on rows whose times are finite: the
    sort of the runtime is stable, and so is this insertion sort. *)
Fixpoint insert_row (x : string * number) (l : list (string * number))
  : list (string * number) :=
  match l with
  | [] => [x]
  | y :: l' => if num_ltb y.2 x.2 then y :: insert_row x l' else x :: y :: l'
  end.

Definition sort_rows (l : list (string * number)) : list (string * number) :=
  foldr insert_row [] l.

(** [Object.entries(o).map(([name, val]) => [name, Number(val)])
      .filter(([, v]) => Number.isFinite(v) && v > 0)]: the rows of a category
    that hold a time, in the order of the entries. *)
Definition timedRows (o : object) : list (string * number) :=
  List.filter (λ r, isFinite r.2 && num_gtb r.2 (ms 0))
    (map (λ e, (e.1, ToNumber e.2)) o).

(** The same, followed by [.sort((a, b) => a[1] - b[1])]. *)
Definition ranked_rows (o : object) : list (string * number) :=
  sort_rows (timedRows o).

(** [rows.findIndex(([name]) => name === p)] *)
Fixpoint findIndex (p : string) (rows : list (string * number)) : Z :=
  match rows with
  | [] => -1
  | r :: rows' =>
      if decide (r.1 = p) then 0
      else let i := findIndex p rows' in if decide (i = -1) then -1 else i + 1
  end.

Definition computeTop3 (state : State) (t : Z) : value :=
  VArr (map (λ r, VStr r.1) (take 3 (ranked_rows (pb_of state t)))).

(** *** ReconciliationEngine: the PB updater *)

(** The body of the loop that runs a sequence of steps over the state and
    collects their effects in order. *)
Fixpoint forEach {A : Type} (f : A → State → State * list effect)
    (l : list A) (state : State) : State * list effect :=
  match l with
  | [] => (state, [])
  | x :: l' =>
      let r1 := f x state in
      let r2 := forEach f l' r1.1 in
      (r2.1, r1.2 ++ r2.2)
  end.

(** The announcements of an accepted improvement, after the save. *)
Definition placementAnnouncement (oldTop3 : list value) (place : Z)
    (p typeName : string) : list effect :=
  if decide (1 ≤ place ∧ place ≤ 3) then
    match getPlacementMessage place p typeName with
    | Some msg =>
        if negb (strict_eq (nth (Z.to_nat (place - 1)) oldTop3 VUndefined) (VStr p))
        then [Sent msg] else []
    | None => []
    end
  else [].

(** One iteration of [for (const p of players)] in the PB updater, given
    what [fetchPBTime(p, t).catch(() => null)] produced. *)
Definition pbStep (t : Z) (oldTop3 : list value) (p : string) (latest : value)
    (state : State) : State * list effect :=
  match latest with
  | VNum l =>
      let prev := ToNumber (obj_get p (pb_of state t)) in
      if negb (isFinite prev) || num_leb prev (ms 0) then
        (set_pb state t p latest, [])
      else if num_ltb l prev then
        let state' := set_pb state t p latest in
        let sorted := ranked_rows (pb_of state' t) in
        let place := findIndex p sorted + 1 in
        let typeName := typeLabel (VNum (ms t)) in
        (state',
         Saved state'
           :: placementAnnouncement oldTop3 place p typeName
           ++ [Sent (NewPB typeName p l prev)])
      else (state, [])
  | _ => (state, [])
  end.

(** One iteration of [for (const t of TRACK_TYPES)], over a roster, when no
    other callback assigns [state] during the [await]s of the iteration:
    each step then finds the state the step before left. *)
Definition pbCategory (roster : list string)
    (net : string → Z → nat → outcome value) (t : Z)
    (state : State) : State * list effect :=
  let state1 := ensure_pb state t in
  let oldTop3 :=
    match top3ByType state1 !! t with Some (VArr l) => l | _ => [] end in
  let r :=
    forEach (λ p, pbStep t oldTop3 p (catch_null (fetchPBTime (net p t) p t)))
      roster state1 in
  (set_top3 r.1 t (computeTop3 r.1 t), r.2).

(** The body of the PB updater over a list of categories and a roster, when
    no other callback runs during its [await]s.  (What the callback does on
    the shared variable when others do run is [pbCallbackOver] with
    [resumeOver], below; run alone, that is this function:
    [pbCallbackOver_alone].) *)
Definition pbTickOver (types : list Z) (roster : list string)
    (net : string → Z → nat → outcome value) (boardFound : bool)
    (loaded : State) : State * list effect :=
  let r := forEach (pbCategory roster net) types loaded in
  (r.1, r.2 ++ Saved r.1 :: (if boardFound then [BoardEdited r.1] else [])).

(** One tick of the PB updater on the state it loaded (whose [pbByType] and
    [top3ByType] are objects, so the two [|| {}] defaults at the top of the
    tick change nothing), when no other callback runs during its [await]s;
    [net p t i] is what the [i]-th request for player [p] and category [t]
    delivers, and [boardFound] tells whether the standing board message
    could be fetched. *)
Definition pbTick (net : string → Z → nat → outcome value) (boardFound : bool)
    (loaded : State) : State * list effect :=
  pbTickOver TRACK_TYPES players net boardFound loaded.

(** *** MatchWatcher: the finished-match notifier *)

(** One iteration of [for (const p of players)] in the notifier, given what
    the request for the newest match delivered. *)
Definition watchStep (res : outcome value) (p : string) (state : State)
  : State * list effect :=
  let m := catch_null (fetchLatestMatch res) in
  if negb (truthy m) then (state, [])
  else
    let id := m?.["id"] in
    if nullish id then (state, [])
    else
      let idStr := ToString id in
      match default VUndefined (lastMatchId state !! p) with
      | VStr prevIdStr =>
          if negb (bool_decide (idStr = prevIdStr)) then
            let state' := set_lastMatchId state p idStr in
            let trackedUuid := uuid_of p in
            if negb (truthy trackedUuid) then
              let t := m?.["type"] in
              let time := ToNumber (m?.["result"]?.["time"]) in
              let forfeited := truthy (m?.["forfeited"]) in
              (state',
               [Saved state';
                Sent (if forfeited || negb (isFinite time)
                      then NoCompletionTime p (typeLabel t)
                      else FinishedIn p time (typeLabel t))])
            else
              (state', [Saved state'; Sent (RankedResult p trackedUuid m)])
          else (state, [])
      | _ => (set_lastMatchId state p idStr, [])
      end.

(** The body of the notifier over a roster, when no other callback runs
    during its [await]s.  (What the callback does on the shared variable
    when others do run is [watchCallbackOver] with [resumeOver], below; run
    alone, that is this function: [watchCallbackOver_alone].) *)
Definition watchTickOver (roster : list string) (net : string → outcome value)
    (loaded : State) : State * list effect :=
  let r := forEach (λ p, watchStep (net p) p) roster loaded in
  (r.1, r.2 ++ [Saved r.1]).

(** One tick of the notifier on the state it loaded, when no other callback
    runs during its [await]s; [net p] is what the request for the newest
    match of [p] delivers. *)
Definition watchTick (net : string → outcome value) (loaded : State)
  : State * list effect :=
  watchTickOver players net loaded.

(** *** Identity resolution at startup *)

(** [res] is what [axios.get] gives for the user; [res.data?.data?.uuid ?? null]. *)
Definition fetchUserUUID (res : outcome value) : outcome value :=
  body ← res;
  let uuid := body?.["data"]?.["uuid"] in
  mret (if nullish uuid then VNull else uuid).

(** The loop that fills the identity map, over a roster; [net p] is what the
    request for [p] delivers. *)
Fixpoint buildUuidMapOver (roster : list string) (net : string → outcome value)
    (acc : gmap string value) : gmap string value :=
  match roster with
  | [] => acc
  | p :: rest =>
      let uuid := catch_null (fetchUserUUID (net p)) in
      buildUuidMapOver rest net (if truthy uuid then <[p := uuid]> acc else acc)
  end.

Definition buildUuidMap (net : string → outcome value) : gmap string value :=
  buildUuidMapOver players net ∅.

(** *** Rendering *)

Definition formatTime (t : number) : string :=
  let minutes := num_floor (num_div t (Q2Qc (inject_Z 60000))) in
  let seconds :=
    num_floor (num_div (num_rem t (Q2Qc (inject_Z 60000))) (Q2Qc (inject_Z 1000))) in
  let millis := num_rem t (Q2Qc (inject_Z 1000)) in
  NumberToString minutes +:+ ":" +:+ padStart 2 "0"%char (NumberToString seconds)
  +:+ "." +:+ padStart 3 "0"%char (NumberToString millis).

(** [Array.isArray(m?.players) ? m.players : []] *)
Definition participants (m : value) : list value :=
  match m?.["players"] with VArr l => l | _ => [] end.

Definition RANKED_BOT : string := "[Ranked Bot]".

(** [typeof name === "string" && name.length > 0] *)
Definition nonEmptyString (name : value) : bool :=
  match name with VStr s => negb (bool_decide (s = "")) | _ => false end.

(** What [join] makes of an element. *)
Definition joinElement (x : value) : string :=
  match x with VUndefined | VNull => "" | _ => ToString x end.

Definition getOpponentNamesFromMatch (m playerUuid : value) : string :=
  let arr := participants m in
  let opps :=
    List.filter (λ name, negb (strict_eq name (VStr RANKED_BOT)))
      (List.filter nonEmptyString
         (map (λ pl, pl?.["nickname"])
            (List.filter
               (λ pl, truthy pl?.["uuid"] && negb (strict_eq pl?.["uuid"] playerUuid))
               arr))) in
  match opps with
  | [] =>
      match List.find (λ n, strict_eq n (VStr RANKED_BOT))
              (map (λ pl, pl?.["nickname"]) arr) with
      | Some _ => RANKED_BOT
      | None => "Unknown"
      end
  | _ => joinWith " & " (map joinElement opps)
  end.

Definition getEloForPlayerFromMatch (m playerUuid : value) : value :=
  let fromChanges :=
    match m?.["changes"] with
    | VArr l =>
        match List.find
                (λ x, strict_eq x?.["uuid"] playerUuid && is_number x?.["eloRate"]) l with
        | Some c => if truthy c && is_number c?.["eloRate"] then Some c?.["eloRate"] else None
        | None => None
        end
    | _ => None
    end in
  match fromChanges with
  | Some elo => elo
  | None =>
      match m?.["players"] with
      | VArr l =>
          match List.find (λ x, strict_eq x?.["uuid"] playerUuid) l with
          | Some pl => if truthy pl && is_number pl?.["eloRate"] then pl?.["eloRate"] else VNull
          | None => VNull
          end
      | _ => VNull
      end
  end.

Definition buildRankedResultMessage (trackedName : string)
    (trackedUuid match_ : value) : resultText :=
  let typeName := typeLabel match_?.["type"] in
  let time := ToNumber match_?.["result"]?.["time"] in
  let forfeited := truthy match_?.["forfeited"] in
  let winnerUuid :=
    if truthy match_?.["result"]?.["uuid"] then match_?.["result"]?.["uuid"] else VNull in
  let oppName := getOpponentNamesFromMatch match_ trackedUuid in
  let elo := getEloForPlayerFromMatch match_ trackedUuid in
  let eloText := match elo with VNum n => Some n | _ => None end in
  if forfeited || negb (isFinite time) then
    if truthy winnerUuid && strict_eq winnerUuid trackedUuid
    then BeatNoTime trackedName oppName typeName eloText
    else if truthy winnerUuid && negb (strict_eq winnerUuid trackedUuid)
         then LostNoTime trackedName oppName typeName eloText
         else FinishedNoTime trackedName typeName eloText
  else
    let timeText := formatTime time in
    if truthy winnerUuid && strict_eq winnerUuid trackedUuid
    then BeatIn trackedName oppName timeText typeName eloText
    else if truthy winnerUuid && negb (strict_eq winnerUuid trackedUuid)
         then LostIn trackedName oppName timeText typeName eloText
         else FinishedInText trackedName timeText typeName eloText.

(** *** The board *)

(** The [entries] of one category in [buildBoardContent]: the roster players
    whose stored value reads as a finite number, sorted by it. *)
Definition boardEntries (roster : list string) (state : State) (t : Z)
  : list (string * number) :=
  sort_rows
    (List.filter (λ r, isFinite r.2)
       (map (λ p, (p, ToNumber (obj_get p (pb_of state t)))) roster)).

Definition medalAt (i : nat) : medal :=
  match i with
  | O => Gold
  | S O => Silver
  | S (S O) => Bronze
  | _ => NoMedal
  end.

(** [entries.forEach(([p, ms], i) => ...)], from index [i] on. *)
Fixpoint boardRowsFrom (i : nat) (entries : list (string * number)) : list boardLine :=
  match entries with
  | [] => []
  | r :: rest => BoardRow (medalAt i) r.1 (formatTime r.2) :: boardRowsFrom (S i) rest
  end.

(** The lines pushed for one category. *)
Definition boardCategoryLines (roster : list string) (state : State) (t : Z)
  : list boardLine :=
  BoardHeader (typeLabel (VNum (ms t)))
    :: (match boardEntries roster state t with
        | [] => [BoardNoCompletions]
        | r :: rest => boardRowsFrom O (r :: rest)
        end)
    ++ [BoardBlank].

(** The array [lines] of [buildBoardContent], before it is joined and cut to
    1900 characters; [now] is [Date.now()]. *)
Definition boardLinesOver (types : list Z) (roster : list string) (now : number)
    (state : State) : list boardLine :=
  [BoardTitle;
   BoardLastUpdate (NumberToString (num_floor (num_div now (Q2Qc (inject_Z 1000)))));
   BoardBlank]
  ++ concat (map (boardCategoryLines roster state) types).

Definition boardLines (now : number) (state : State) : list boardLine :=
  boardLinesOver TRACK_TYPES players now state.

(** *** The initial PB build at startup *)

(** One iteration of [for (const p of players)] in the initial build, given
    what [fetchPBTime(p, t).catch(() => null)] produced. *)
Definition initStep (t : Z) (p : string) (time : value) (state : State)
  : State * list effect :=
  if is_number time then (set_pb state t p time, []) else (state, []).

Definition initCategory (roster : list string)
    (net : string → Z → nat → outcome value) (t : Z) (state : State)
  : State * list effect :=
  let state1 := ensure_pb state t in
  let r :=
    forEach (λ p, initStep t p (catch_null (fetchPBTime (net p t) p t)))
      roster state1 in
  (set_top3 r.1 t (computeTop3 r.1 t), r.2).

Definition initialBuildOver (types : list Z) (roster : list string)
    (net : string → Z → nat → outcome value) (state : State)
  : State * list effect :=
  let r := forEach (initCategory roster net) types state in
  (r.1, r.2 ++ [Saved r.1; BoardEdited r.1]).

(** The initial build on the state loaded at startup, followed by the save
    and the first edit of the board. *)
Definition initialBuild (net : string → Z → nat → outcome value) (state : State)
  : State * list effect :=
  initialBuildOver TRACK_TYPES players net state.

(** *** The two timer callbacks on the shared variable [state]

    [let state] (line 328) is one variable of the [ClientReady] handler, and
    both timer callbacks assign it: each starts with [state = loadState()],
    and every [state.…] it evaluates afterwards reads or writes the object
    the variable refers to at that moment, which another callback may have
    replaced in the meantime.  A callback is suspended at each [await];
    while it is, a timer may fire and other callbacks may resume.  Every
    [await] is taken as such a point; this allows every schedule of the
    runtime (and more: a promise that is already settled resumes at once).

    What [saveState] writes is what the next [loadState] reads: the state
    file holds JSON, and what the callbacks store (finite times, strings,
    arrays of names) is JSON. *)

(** The object the variable [state] refers to, and the content of the state
    file. *)
Record Memory : Type := {
  current : State;
  stateFile : State;
}.

(** [state = loadState()] *)
Definition loadState (σ : Memory) : Memory :=
  {| current := stateFile σ; stateFile := stateFile σ |}.

(** [saveState(state)] *)
Definition saveState (σ : Memory) : Memory :=
  {| current := current σ; stateFile := current σ |}.

(** An assignment to a property of [state]. *)
Definition assign (f : State → State) (σ : Memory) : Memory :=
  {| current := f (current σ); stateFile := stateFile σ |}.

(** Where a callback goes on once its pending sends are acknowledged: with
    the next player of the PB updater (category [t], the snapshot [oldTop3],
    the players and categories still to come), with the next player of the
    notifier, or nowhere. *)
Inductive continuation : Type :=
| NextPlayerPB (t : Z) (oldTop3 : list value) (rest : list string) (types : list Z)
| NextPlayerWatch (rest : list string)
| Return.

(** A callback suspended at one of its [await]s, with the locals it uses
    when it resumes: at [await fetchPBTime(p, t)] of the PB updater, at
    [await fetchLatestMatch(p)] of the notifier, at an [await channel.send]
    or [await msg.edit] with the sends still to come, and at
    [await channel.messages.fetch] of the PB updater. *)
Inductive callback : Type :=
| Finished
| AwaitPBTime (t : Z) (oldTop3 : list value) (p : string) (rest : list string)
    (types : list Z)
| AwaitLatestMatch (p : string) (rest : list string)
| AwaitSend (pending : list effect) (k : continuation)
| AwaitBoardMessage.

(** What a callback does between two suspensions: the memory it leaves, the
    effects it had, and where it is suspended next. *)
Record Turn : Type := {
  after : Memory;
  emitted : list effect;
  next : callback;
}.

(** [Array.isArray(state.top3ByType[t]) ? state.top3ByType[t] : []] *)
Definition oldTop3Of (state : State) (t : Z) : list value :=
  match top3ByType state !! t with Some (VArr l) => l | _ => [] end.

(** The head of [for (const p of players)] in the PB updater: the request
    for the next player, or, after the last one,
    [state.top3ByType[t] = computeTop3(state, t)] and what follows the
    category. *)
Definition pbPlayers (afterCategory : Memory → Turn) (t : Z) (oldTop3 : list value)
    (rest : list string) (types : list Z) (σ : Memory) : Turn :=
  match rest with
  | p :: rest' =>
      {| after := σ; emitted := []; next := AwaitPBTime t oldTop3 p rest' types |}
  | [] => afterCategory (assign (λ state, set_top3 state t (computeTop3 state t)) σ)
  end.

(** The end of the PB updater: [saveState(state)], then the request for the
    board message. *)
Definition pbFinish (σ : Memory) : Turn :=
  {| after := saveState σ; emitted := [Saved (current σ)]; next := AwaitBoardMessage |}.

(** The head of [for (const t of TRACK_TYPES)]. *)
Fixpoint pbTypes (roster : list string) (types : list Z) (σ : Memory) : Turn :=
  match types with
  | [] => pbFinish σ
  | t :: types' =>
      let σ1 := assign (λ state, ensure_pb state t) σ in
      pbPlayers (pbTypes roster types') t (oldTop3Of (current σ1) t) roster types' σ1
  end.

(** The head of [for (const p of players)] in the notifier: the request for
    the next player, or, after the last one, [saveState(state)]. *)
Definition watchPlayers (rest : list string) (σ : Memory) : Turn :=
  match rest with
  | p :: rest' => {| after := σ; emitted := []; next := AwaitLatestMatch p rest' |}
  | [] => {| after := saveState σ; emitted := [Saved (current σ)]; next := Finished |}
  end.

Definition proceed (roster : list string) (k : continuation) (σ : Memory) : Turn :=
  match k with
  | NextPlayerPB t oldTop3 rest types =>
      pbPlayers (pbTypes roster types) t oldTop3 rest types σ
  | NextPlayerWatch rest => watchPlayers rest σ
  | Return => {| after := σ; emitted := []; next := Finished |}
  end.

(** The effects of a step, carried out in order: [saveState(state)] writes
    the file at once; [channel.send] and [msg.edit] start the request and
    suspend the callback, which takes up the remaining effects when the
    request is acknowledged. *)
Fixpoint emit (roster : list string) (effs : list effect) (k : continuation)
    (σ : Memory) : Turn :=
  match effs with
  | [] => proceed roster k σ
  | Saved _ :: rest =>
      let turn := emit roster rest k (saveState σ) in
      {| after := after turn;
         emitted := Saved (current σ) :: emitted turn;
         next := next turn |}
  | Sent msg :: rest =>
      {| after := σ; emitted := [Sent msg]; next := AwaitSend rest k |}
  | BoardEdited _ :: rest =>
      {| after := σ; emitted := [BoardEdited (current σ)]; next := AwaitSend rest k |}
  end.

(** What a suspended callback is handed when it resumes: the responses to
    the requests of [fetchPBTime], the response to the request of
    [fetchLatestMatch], the acknowledgement of a send or of the edit, and
    whether the board message was found. *)
Inductive response : Type :=
| Pages (pages : nat → outcome value)
| Newest (res : outcome value)
| Acknowledged
| BoardMessage (found : bool).

(** A callback resumes on the memory as it is by then.  In the PB updater
    [state.pbByType[t][p]] is evaluated on the object [state] refers to now:
    when that object has no category [t], the access throws and the callback
    ends.  A response the callback does not wait for leaves it suspended. *)
Definition resumeOver (roster : list string) (c : callback) (r : response)
    (σ : Memory) : Turn :=
  match c, r with
  | AwaitPBTime t oldTop3 p rest types, Pages pages =>
      let latest := catch_null (fetchPBTime pages p t) in
      let k := NextPlayerPB t oldTop3 rest types in
      if negb (is_number latest) then proceed roster k σ
      else
        match pbByType (current σ) !! t with
        | None => {| after := σ; emitted := []; next := Finished |}
        | Some _ =>
            let step := pbStep t oldTop3 p latest (current σ) in
            emit roster step.2 k (assign (λ _, step.1) σ)
        end
  | AwaitLatestMatch p rest, Newest res =>
      let step := watchStep res p (current σ) in
      emit roster step.2 (NextPlayerWatch rest) (assign (λ _, step.1) σ)
  | AwaitSend pending k, Acknowledged => emit roster pending k σ
  | AwaitBoardMessage, BoardMessage found =>
      if found
      then {| after := σ; emitted := [BoardEdited (current σ)];
              next := AwaitSend [] Return |}
      else {| after := σ; emitted := []; next := Finished |}
  | _, _ => {| after := σ; emitted := []; next := c |}
  end.

Definition resume (c : callback) (r : response) (σ : Memory) : Turn :=
  resumeOver players c r σ.

(** The callback of the PB updater and the callback of the notifier, from
    the timer to their first [await]. *)
Definition pbCallbackOver (types : list Z) (roster : list string) (σ : Memory) : Turn :=
  pbTypes roster types (loadState σ).

Definition watchCallbackOver (roster : list string) (σ : Memory) : Turn :=
  watchPlayers roster (loadState σ).

Definition pbCallback (σ : Memory) : Turn := pbCallbackOver TRACK_TYPES players σ.

Definition watchCallback (σ : Memory) : Turn := watchCallbackOver players σ.

(** The process after startup: the memory, the callbacks started so far
    (the finished ones included) and the effects so far, each with the index
    of the callback that had it. *)
Record System : Type := {
  memory : Memory;
  callbacks : list callback;
  log : list (nat * effect);
}.

(** What the event loop runs next: a timer fires, or callback [i] resumes
    with a response. *)
Inductive event : Type :=
| PBTimer
| WatchTimer
| Response (i : nat) (r : response).

Definition start (turn : Turn) (s : System) : System :=
  {| memory := after turn;
     callbacks := callbacks s ++ [next turn];
     log := log s ++ map (pair (length (callbacks s))) (emitted turn) |}.

Definition reactOver (types : list Z) (roster : list string) (s : System) (e : event)
  : System :=
  match e with
  | PBTimer => start (pbCallbackOver types roster (memory s)) s
  | WatchTimer => start (watchCallbackOver roster (memory s)) s
  | Response i r =>
      match callbacks s !! i with
      | Some c =>
          let turn := resumeOver roster c r (memory s) in
          {| memory := after turn;
             callbacks := <[i := next turn]> (callbacks s);
             log := log s ++ map (pair i) (emitted turn) |}
      | None => s
      end
  end.

Definition runOver (types : list Z) (roster : list string) (s : System)
    (events : list event) : System :=
  foldl (reactOver types roster) s events.

Definition react (s : System) (e : event) : System :=
  reactOver TRACK_TYPES players s e.

Definition run (s : System) (events : list event) : System :=
  runOver TRACK_TYPES players s events.

(** The process when the timers are set: startup has just saved the state
    (line 346), and no callback has started. *)
Definition boot (state : State) : System :=
  {| memory := {| current := state; stateFile := state |};
     callbacks := [];
     log := [] |}.

(** A turn that follows effects already had. *)
Definition withPrefix (effs : list effect) (turn : Turn) : Turn :=
  {| after := after turn; emitted := effs ++ emitted turn; next := next turn |}.

(** A callback run to its end with nothing else running in between: each
    time it is suspended it is handed the response [answer] gives, on the
    memory it left; the effects of its turns add up. *)
Fixpoint runAlone (roster : list string) (answer : callback → response)
    (fuel : nat) (turn : Turn) : Turn :=
  match fuel with
  | O => turn
  | S fuel' =>
      match next turn with
      | Finished => turn
      | c =>
          runAlone roster answer fuel'
            (withPrefix (emitted turn) (resumeOver roster c (answer c) (after turn)))
      end
  end.

(** The responses of a network on which every send is acknowledged. *)
Definition answerPB (net : string → Z → nat → outcome value) (boardFound : bool)
    (c : callback) : response :=
  match c with
  | AwaitPBTime t _ p _ _ => Pages (net p t)
  | AwaitBoardMessage => BoardMessage boardFound
  | _ => Acknowledged
  end.

Definition answerWatch (net : string → outcome value) (c : callback) : response :=
  match c with
  | AwaitLatestMatch p _ => Newest (net p)
  | _ => Acknowledged
  end.

(** Sample runs of the process.  All requests of callback [i] for the eight
    players of a category fail. *)
Definition sampleFailures (i : nat) : list event :=
  replicate 8 (Response i (Pages (λ _, Rejected))).

(** A PB callback starts while a notifier callback waits for the
    acknowledgement of its send; then a second notifier callback starts. *)
Definition sampleReplay : list event :=
  [PBTimer; Response 0 Acknowledged; WatchTimer].

(** A PB callback gets nothing for Casual, then the Ranked page of JerryBox. *)
Definition sampleImprovementRun : list event :=
  PBTimer :: sampleFailures 0 ++ [Response 0 (Pages (sampleNet "JerryBox" 2))].

(** The same callback sends its two announcements and ends the Ranked
    category; a notifier callback starts while it waits in the Private
    category; then it runs to its end. *)
Definition sampleStaleRun : list event :=
  sampleImprovementRun
  ++ [Response 0 Acknowledged; Response 0 Acknowledged]
  ++ replicate 7 (Response 0 (Pages (λ _, Rejected)))
  ++ [WatchTimer]
  ++ sampleFailures 0
  ++ [Response 0 (BoardMessage false)].

(** A notifier callback records a first watermark, and a PB callback starts
    before the notifier callback has saved. *)
Definition sampleLostRun : list event :=
  [WatchTimer; Response 0 (Newest sampleNewest); PBTimer].

(** ** Properties stated by the specification *)

(** A number is a completion time when it is finite and strictly positive. *)
Definition isTime (n : number) : Prop := ∃ q : Qc, n = Fin q ∧ (0 < q)%Qc.

(** [m] carries a finite, strictly-positive completion time (the field is
    read as the source reads it, through [Number]). *)
Definition carriesTime (m : value) : Prop :=
  isTime (ToNumber (m?.["result"]?.["time"])).

(** [m] is marked forfeited. *)
Definition markedForfeited (m : value) : Prop :=
  truthy (m?.["forfeited"]) = true.

(** The winner identity of [m]. *)
Definition winnerOf (m : value) : value := m?.["result"]?.["uuid"].

(** The validator's verdict as the specification words it: the winner
    identity is non-null and equals the queried identity exactly. *)
Definition countableAsSpecified (m u : value) : Prop :=
  carriesTime m ∧ ¬ markedForfeited m
  ∧ nullish (winnerOf m) = false ∧ strict_eq (winnerOf m) u = true.

(** The verdict with a winner identity that is present in the sense of the
    source: not [null], not [undefined], and not an empty (falsy) token. *)
Definition countable (m u : value) : Prop :=
  carriesTime m ∧ ¬ markedForfeited m
  ∧ truthy (winnerOf m) = true ∧ strict_eq (winnerOf m) u = true.

(** The matches a response body carries: [res.data?.data] when it is an
    array, none otherwise. *)
Definition matchesOf (body : value) : list value :=
  match body?.["data"] with VArr l => l | _ => [] end.

(** The completion time of [m] when the validator accepts it for [puid]. *)
Definition validatedTime (puid m : value) : option Qc :=
  if isValidWinForPlayer m puid then
    match ToNumber (m?.["result"]?.["time"]) with
    | Fin q => Some q
    | _ => None
    end
  else None.

Definition validatedTimes (puid : value) (l : list value) : list Qc :=
  omap (validatedTime puid) l.

(** The least element of a list of times, none for the empty list. *)
Definition lower (acc : option Qc) (x : Qc) : option Qc :=
  match acc with
  | None => Some x
  | Some a => Some (if Qc_ltb x a then x else a)
  end.

Definition minimumFrom (acc : option Qc) (l : list Qc) : option Qc :=
  fold_left lower l acc.

Definition minimum (l : list Qc) : option Qc := minimumFrom None l.

(** What a resolver returns for a best time: the number, or [null]. *)
Definition timeResult (o : option Qc) : value :=
  match o with Some q => VNum (Fin q) | None => VNull end.

(** The time of the first match, in page order, that the validator accepts. *)
Definition firstValidated (puid : value) (l : list value) : value :=
  match List.find (λ m, isValidWinForPlayer m puid) l with
  | Some m => VNum (ToNumber (m?.["result"]?.["time"]))
  | None => VNull
  end.

(** A page is ordered fastest-first: of two matches that both carry a
    finite time, the earlier one is not slower. *)
Fixpoint fastestFirst (l : list value) : bool :=
  match l with
  | [] => true
  | m :: rest =>
      forallb
        (λ m', let t := ToNumber (m?.["result"]?.["time"]) in
               let t' := ToNumber (m'?.["result"]?.["time"]) in
               negb (isFinite t && isFinite t') || num_leb t t')
        rest
      && fastestFirst rest
  end.

(** A page returns no matches. *)
Definition noMatches (body : value) : bool :=
  match matchesOf body with [] => true | _ => false end.

(** The last match of a page carries no identifier to page from. *)
Definition lastIdMissing (body : value) : bool :=
  nullish ((List.last (matchesOf body) VUndefined)?.["id"]).

(** The first page from [page] on, among [fuel] pages, at which [stop]
    holds; [page + fuel] when there is none. *)
Fixpoint firstStopFrom (stop : nat → bool) (page fuel : nat) : nat :=
  match fuel with
  | O => page
  | S fuel' => if stop page then page else firstStopFrom stop (S page) fuel'
  end.

(** The number of pages requested when the scan ends at the first page
    satisfying [stop], or at the ceiling, whichever comes first. *)
Definition pagesRequested (stop : nat → bool) : nat :=
  Nat.min MAX_PAGES (S (firstStopFrom stop O MAX_PAGES)).

(** All matches of the first [n] pages. *)
Definition matchesUpTo (bodies : nat → value) (n : nat) : list value :=
  concat (map (λ i, matchesOf (bodies i)) (seq O n)).

(** The bounded scan as the specification words it: it ends at the first
    page without matches or at the ceiling, and returns the least
    validated time of the pages before that. *)
Definition scanAsSpecified (bodies : nat → value) (player : string) : Prop :=
  let n := pagesRequested (λ i, noMatches (bodies i)) in
  fetchCasualPrivatePB_run (λ i, Resolved (bodies i)) player
  = Resolved
      (timeResult (minimum (validatedTimes (uuid_of player) (matchesUpTo bodies n))),
       n).

(** The running minimum of the scan: [Infinity] until a time is found. *)
Definition bestOf (o : option Qc) : number :=
  match o with Some q => Fin q | None => PosInf end.

(** The scan leaves a page and goes no further: the page has no matches,
    or its last match has no identifier to continue from. *)
Definition scanEndsAt (bodies : nat → value) (i : nat) : bool :=
  noMatches (bodies i) || lastIdMissing (bodies i).

(** The stored best-time entry of a (category, player) pair:
    [state.pbByType[t][p]], [undefined] when there is none. *)
Definition stored (state : State) (t : Z) (p : string) : value :=
  obj_get p (pb_of state t).

(** The resolver produced no numeric result: it rejected (source error,
    timeout), or it resolved to something that is not a number. *)
Definition resolverFailed (r : outcome value) : Prop :=
  is_number (catch_null r) = false.

(** The announcements among a list of effects, in order. *)
Definition announcements (effs : list effect) : list announcement :=
  omap (λ e, match e with Sent a => Some a | _ => None end) effs.

(** The placement of [p] in category [t]: the 1-based position of its row
    among the rows of the category sorted by ascending time. *)
Definition placementOf (state : State) (t : Z) (p : string) : Z :=
  findIndex p (ranked_rows (pb_of state t)) + 1.

(** The entry of the pre-update top-3 snapshot at the slot of [place]
    names a player other than [p] (or the slot is empty). *)
Definition slotHeldByOther (oldTop3 : list value) (place : Z) (p : string) : Prop :=
  oldTop3 !! Z.to_nat (place - 1) ≠ Some (VStr p).

(** The identifier of the newest match the notifier observes in a
    response, as a string; none when the response carries no usable match. *)
Definition observedId (res : outcome value) : option string :=
  let m := catch_null (fetchLatestMatch res) in
  if truthy m && negb (nullish m?.["id"]) then Some (ToString m?.["id"]) else None.

(** [n] is a completion time not above [q]. *)
Definition timeNotAbove (q : Qc) (n : number) : Prop :=
  ∃ q' : Qc, n = Fin q' ∧ (0 < q')%Qc ∧ (q' <= q)%Qc.

(** A running minimum that holds a time holds a strictly positive one. *)
Definition positive (o : option Qc) : Prop := ∀ q, o = Some q → (0 < q)%Qc.

(** The time of the row of [p]. *)
Fixpoint lookupRow (p : string) (rows : list (string * number)) : option number :=
  match rows with
  | [] => None
  | r :: rest => if decide (r.1 = p) then Some r.2 else lookupRow p rest
  end.

(** The number of rows strictly faster than [v]. *)
Definition faster (v : number) (rows : list (string * number)) : nat :=
  length (List.filter (λ r, num_ltb r.2 v) rows).

(** The number of rows ranked ahead of the row of [p] by ascending time,
    ties by order of entry: the rows entered before it that are not slower,
    and the rows entered after it that are strictly faster. *)
Fixpoint rowsAhead (p : string) (rows : list (string * number)) : nat :=
  match rows with
  | [] => O
  | r :: rest =>
      if decide (r.1 = p) then faster r.2 rest
      else
        match lookupRow p rest with
        | Some v => ((if num_ltb v r.2 then 0 else 1) + rowsAhead p rest)%nat
        | None => O
        end
  end.

(** Rows in ascending order of time. *)
Definition sortedRows (rows : list (string * number)) : Prop :=
  StronglySorted (λ a b, num_ltb b.2 a.2 = false) rows.

(** Every announcement in a list of effects comes after a save, and a
    PB-improvement announcement after a save of a state that holds the
    announced new time for the announced player. *)
Definition announcedAfterSave (effs : list effect) : Prop :=
  ∀ pre a post, effs = pre ++ Sent a :: post →
    ∃ s, Saved s ∈ pre
         ∧ ∀ typeName p l prev, a = NewPB typeName p l prev →
             ∃ t, typeName = typeLabel (VNum (ms t)) ∧ stored s t p = VNum l.

(** ** Further properties of the code *)

(** What the PB updater makes of a stored entry and of what the resolver
    produced for the pair: the resolved time when the entry holds no time or
    a greater one, the entry otherwise. *)
Definition reconcile (prev latest : value) : value :=
  match latest with
  | VNum l =>
      if negb (isFinite (ToNumber prev)) || num_leb (ToNumber prev) (ms 0) then latest
      else if num_ltb l (ToNumber prev) then latest
      else prev
  | _ => prev
  end.

(** The cached ranking of category [t] is the ranking of its stored entries. *)
Definition top3Coherent (state : State) (t : Z) : Prop :=
  top3ByType state !! t = Some (computeTop3 state t).

(** [n] is the number [z] of milliseconds. *)
Definition wholeMs (z : Z) : Qc := Q2Qc (inject_Z z).

(** Every PB-improvement announcement in a list of effects is about a
    player of the roster and a category of the list, and announces a time
    strictly below the previous one, both finite and strictly positive. *)
Definition announcesImprovements (types : list Z) (roster : list string)
    (effs : list effect) : Prop :=
  ∀ typeName p l prev, Sent (NewPB typeName p l prev) ∈ effs →
    p ∈ roster
    ∧ (∃ t, t ∈ types ∧ typeName = typeLabel (VNum (ms t)))
    ∧ isTime l ∧ isTime prev ∧ num_ltb l prev = true.

(** What the initial build makes of a stored entry and of what the resolver
    produced for the pair: the resolved number, whatever was stored. *)
Definition overwrite (prev latest : value) : value :=
  if is_number latest then latest else prev.

(** The verdict a rendered result carries for the tracked player. *)
Definition reportsWin (r : resultText) : bool :=
  match r with
  | BeatNoTime _ _ _ _ | BeatIn _ _ _ _ _ => true
  | _ => false
  end.

Definition reportsLoss (r : resultText) : bool :=
  match r with
  | LostNoTime _ _ _ _ | LostIn _ _ _ _ _ => true
  | _ => false
  end.

(** The stored entry of a pair is a finite, strictly-positive number. *)
Definition holdsTime (v : value) : Prop := ∃ n, v = VNum n ∧ isTime n.

(** The player an announcement is about. *)
Definition announcedPlayer (a : announcement) : string :=
  match a with
  | TakesFirst p _ | MovesIntoSecond p _ | BreaksIntoThird p _ => p
  | NewPB _ p _ _ => p
  | NoCompletionTime p _ => p
  | FinishedIn p _ _ => p
  | RankedResult p _ _ => p
  end.

(** The announcements of the notifier: the result of a match. *)
Definition isResult (a : announcement) : bool :=
  match a with
  | NoCompletionTime _ _ | FinishedIn _ _ _ | RankedResult _ _ _ => true
  | _ => false
  end.

(** The announcements about [p] among a list of effects, and the results
    among them, in order. *)
Definition announcementsAbout (p : string) (effs : list effect) : list announcement :=
  List.filter (λ a, bool_decide (announcedPlayer a = p)) (announcements effs).

Definition resultsAbout (p : string) (effs : list effect) : list announcement :=
  List.filter (λ a, isResult a && bool_decide (announcedPlayer a = p))
    (announcements effs).

(** The effects the process had after it was [s], up to [s']. *)
Definition loggedSince (s s' : System) : list effect :=
  map snd (drop (length (log s)) (log s')).

(** The announcements a suspended callback has still to send, one at each
    acknowledgement. *)
Definition pendingSends (c : callback) : list announcement :=
  match c with
  | AwaitSend pending _ => announcements pending
  | _ => []
  end.






(** The event does not hand a callback that waits for the newest match of
    [p] a match with an identifier other than [id]. *)
Definition quietEvent (p id : string) (s : System) (e : event) : bool :=
  match e with
  | Response i (Newest res) =>
      match callbacks s !! i with
      | Some (AwaitLatestMatch q _) =>
          if decide (q = p) then
            match observedId res with
            | Some id' => bool_decide (id' = id)
            | None => true
            end
          else true
      | _ => true
      end
  | _ => true
  end.

Fixpoint quietRunOver (types : list Z) (roster : list string) (p id : string)
    (s : System) (events : list event) : bool :=
  match events with
  | [] => true
  | e :: rest =>
      quietEvent p id s e
      && quietRunOver types roster p id (reactOver types roster s e) rest
  end.

Definition quietRun (p id : string) (s : System) (events : list event) : bool :=
  quietRunOver TRACK_TYPES players p id s events.

(** A predicate on the state that the assignments to the categories and to
    the cached rankings preserve. *)
Definition keptByCategories (J : State → Prop) : Prop :=
  (∀ s t, J s → J (ensure_pb s t)) ∧ (∀ s t v, J s → J (set_top3 s t v)).

(** [J] holds of the object [state] refers to and of the state file. *)
Definition holdsIn (J : State → Prop) (σ : Memory) : Prop :=
  J (current σ) ∧ J (stateFile σ).

(** The effects of a step as the callback has them: every save writes the
    object [state] refers to. *)
Definition performed (state : State) (effs : list effect) : list effect :=
  map (λ e, match e with
            | Saved _ => Saved state
            | BoardEdited _ => BoardEdited state
            | Sent msg => Sent msg
            end) effs.

Definition saves (effs : list effect) : bool :=
  existsb (λ e, match e with Saved _ => true | _ => false end) effs.

(** A predicate on the memory that the operations of the callbacks
    preserve: [loadState], [saveState], the assignments to the categories
    and to the cached rankings, and the two steps. *)
Definition keptByTurns (M : Memory → Prop) : Prop :=
  (∀ σ, M σ → M (loadState σ))
  ∧ (∀ σ, M σ → M (saveState σ))
  ∧ (∀ σ t, M σ → M (assign (λ state, ensure_pb state t) σ))
  ∧ (∀ σ t, M σ → M (assign (λ state, set_top3 state t (computeTop3 state t)) σ))
  ∧ (∀ σ t old p pages,
       M σ →
       M (assign
            (λ _, (pbStep t old p (catch_null (fetchPBTime pages p t)) (current σ)).1)
            σ))
  ∧ (∀ σ res p, M σ → M (assign (λ _, (watchStep res p (current σ)).1) σ)).

(** A time the state file holds for the pair bounds the entry of the pair
    in the object [state] refers to. *)
Definition fileBoundsCurrent (t : Z) (p : string) (σ : Memory) : Prop :=
  ∀ q, ToNumber (stored (stateFile σ) t p) = Fin q → (0 < q)%Qc →
       timeNotAbove q (ToNumber (stored (current σ) t p)).

(** No result of a match is among the sends a callback has pending. *)
Definition noPendingResult (c : callback) : Prop :=
  Forall (λ a, isResult a = false) (pendingSends c).

(** ** Numbers *)

Lemma Qc_ltb_lt (a b : Qc) : Qc_ltb a b = true ↔ (a < b)%Qc.
Proof.
  unfold Qc_ltb. rewrite Qclt_alt. destruct (a ?= b)%Qc; split; congruence.
Qed.

Lemma Qc_ltb_ge (a b : Qc) : Qc_ltb a b = false ↔ (b <= a)%Qc.
Proof.
  rewrite <- not_true_iff_false, Qc_ltb_lt. split.
  - apply Qcnot_lt_le.
  - intros H ?. by eapply Qcle_not_lt.
Qed.

Lemma Qc_eqb_eq (a b : Qc) : Qc_eqb a b = true ↔ a = b.
Proof.
  unfold Qc_eqb. rewrite Qceq_alt. destruct (a ?= b)%Qc; split; congruence.
Qed.

Lemma num_leb_Fin (a b : Qc) : num_leb (Fin a) (Fin b) = true ↔ (a <= b)%Qc.
Proof.
  unfold num_leb; simpl. rewrite orb_true_iff, Qc_ltb_lt, Qc_eqb_eq. split.
  - intros [H | ->]; [by apply Qclt_le_weak | apply Qcle_refl].
  - intros H. destruct (Qcle_lt_or_eq _ _ H); auto.
Qed.

Lemma isTime_test (n : number) :
  negb (isFinite n) || num_leb n (ms 0) = false ↔ isTime n.
Proof.
  unfold isTime. destruct n as [| | |q]; simpl.
  1-3: split; [discriminate | intros (q & ? & _); discriminate].
  change (ms 0) with (Fin 0%Qc). split.
  - intros H. exists q. split; [done|].
    apply Qcnot_le_lt. intros Hle. apply num_leb_Fin in Hle. congruence.
  - intros (q' & [= <-] & Hq). apply not_true_is_false.
    rewrite num_leb_Fin. by apply Qclt_not_le.
Qed.

Lemma isTime_gtb (q : Qc) : (0 < q)%Qc → num_gtb (Fin q) (ms 0) = true.
Proof. intros H. unfold num_gtb; simpl. by apply Qc_ltb_lt. Qed.

(** ** The validator *)

Lemma isValidWinForPlayer_carriesTime (m u : value) :
  isValidWinForPlayer m u = true → carriesTime m.
Proof.
  unfold isValidWinForPlayer, carriesTime. rewrite <- isTime_test.
  destruct (negb (isFinite _) || num_leb _ _); [discriminate | done].
Qed.

(** The unguarded [m.result.time] never throws on a match that carries a time. *)
Lemma result_time_carriesTime (m : value) :
  carriesTime m → result_time m = Resolved (ToNumber (m?.["result"]?.["time"])).
Proof.
  unfold carriesTime, result_time, strict_get. intros (q & Hq & _).
  destruct m; simpl in *; try discriminate.
  destruct (obj_get "result" props); simpl in *; by try discriminate.
Qed.

Lemma validatedTime_Some (puid m : value) (q : Qc) :
  validatedTime puid m = Some q ↔
  isValidWinForPlayer m puid = true ∧ ToNumber (m?.["result"]?.["time"]) = Fin q.
Proof.
  unfold validatedTime. split.
  - destruct (isValidWinForPlayer m puid); [|discriminate].
    destruct (ToNumber _); try discriminate. by intros [= ->].
  - intros [-> ->]. done.
Qed.

Lemma validatedTime_None (puid m : value) :
  validatedTime puid m = None ↔ isValidWinForPlayer m puid = false.
Proof.
  unfold validatedTime. destruct (isValidWinForPlayer m puid) eqn:Hv.
  - apply isValidWinForPlayer_carriesTime in Hv as (q & Hq & _).
    unfold carriesTime in *. rewrite Hq. split; discriminate.
  - done.
Qed.

Lemma validatedTime_pos (puid m : value) (q : Qc) :
  validatedTime puid m = Some q → (0 < q)%Qc.
Proof.
  intros [Hv Hq]%validatedTime_Some.
  apply isValidWinForPlayer_carriesTime in Hv as (q' & Hq' & Hpos).
  congruence.
Qed.

(** *** C1 *)

Lemma strict_eq_truthy (w u : value) :
  strict_eq w u = true → truthy w = truthy u.
Proof.
  destruct w as [| |[]|[]|?|?|?], u as [| |[]|[]|?|?|?]; simpl; try done.
  - by intros ->%Qc_eqb_eq.
  - by intros ->%bool_decide_eq_true.
Qed.

(** For every queried value, the validator accepts a match exactly when the
    match carries a finite, strictly-positive completion time, is not marked
    forfeited, carries a winner identity that is present (not null, not
    undefined and not an empty token), and that winner identity equals the
    queried value exactly. *)
Lemma isValidWinForPlayer_countable (m u : value) :
  isValidWinForPlayer m u = true ↔ countable m u.
Proof.
  clear NumberToString.
  unfold isValidWinForPlayer, countable, carriesTime, markedForfeited, winnerOf.
  rewrite <- isTime_test.
  destruct (negb (isFinite _) || num_leb _ _); [intuition congruence|].
  destruct (truthy (m?.["forfeited"])); [intuition congruence|].
  destruct (truthy (m?.["result"]?.["uuid"])) eqn:Hw; simpl; [|intuition congruence].
  destruct (truthy u) eqn:Hu; simpl; [intuition congruence|].
  split; [done|]. intros (_ & _ & _ & Heq).
  apply strict_eq_truthy in Heq. congruence.
Qed.

(** For an identity the bot resolved at startup (a non-empty token), being
    present and being non-null say the same of a winner identity equal to it. *)
Lemma countable_known_identity (m u : value) :
  truthy u = true → countable m u ↔ countableAsSpecified m u.
Proof.
  intros Hu. unfold countable, countableAsSpecified.
  split; intros (Ht & Hf & Hw & Heq); repeat split; try done.
  - by destruct (winnerOf m).
  - apply strict_eq_truthy in Heq. congruence.
Qed.

(** For an identity that is non-empty or missing altogether, the verdict of
    the validator is the one the specification words. *)
Lemma isValidWinForPlayer_as_specified (m u : value) :
  truthy u = true ∨ nullish u = true →
  isValidWinForPlayer m u = true ↔ countableAsSpecified m u.
Proof.
  clear NumberToString uuidByName.
  intros Hu. unfold isValidWinForPlayer, countableAsSpecified, carriesTime,
    markedForfeited, winnerOf.
  rewrite <- isTime_test.
  destruct (negb (isFinite _) || num_leb _ _); [intuition congruence|].
  destruct (truthy (m?.["forfeited"])); [intuition congruence|].
  destruct (truthy (m?.["result"]?.["uuid"])) eqn:Hw; cbn [negb].
  - destruct (truthy u) eqn:Htu; cbn [negb].
    + split; [|tauto]. intros Heq. repeat split; try done.
      by destruct (m?.["result"]?.["uuid"]).
    + split; [done|]. intros (_ & _ & _ & Heq).
      apply strict_eq_truthy in Heq. congruence.
  - split; [done|]. intros (_ & _ & Hnn & Heq).
    pose proof (strict_eq_truthy _ _ Heq) as Htr. rewrite Hw in Htr.
    destruct Hu as [Hu|Hu]; [congruence|].
    destruct (m?.["result"]?.["uuid"]), u; simpl in *; try done.
Qed.

(** C1.  The validator is called with [uuidByName[player]] only (lines 108
    to 110 and 117 to 143), and startup stores none but non-empty
    identities in that map (line 316): the queried identity is a non-empty
    token, or [undefined] for a player the map has no identity for.  For
    every match record and every such identity the validator returns true
    exactly when the match carries a finite, strictly-positive completion
    time, is not marked forfeited, carries a non-null winner identity, and
    that winner identity equals the queried identity exactly; in every other
    case it returns false. *)
Theorem isValidWinForPlayer_countable_win (m u : value) :
  truthy u = true ∨ u = VUndefined →
  (isValidWinForPlayer m u = true ↔ countableAsSpecified m u)
  ∧ (isValidWinForPlayer m u = false ↔ ¬ countableAsSpecified m u).
Proof.
  clear NumberToString uuidByName.
  intros Hu.
  assert (isValidWinForPlayer m u = true ↔ countableAsSpecified m u) as Hiff.
  { apply isValidWinForPlayer_as_specified. destruct Hu as [Hu| ->]; auto. }
  split; [exact Hiff|].
  rewrite <- Hiff. by destruct (isValidWinForPlayer m u).
Qed.

(** ** The least element of a list *)

Lemma minimumFrom_app (acc : option Qc) (l1 l2 : list Qc) :
  minimumFrom acc (l1 ++ l2) = minimumFrom (minimumFrom acc l1) l2.
Proof. apply fold_left_app. Qed.

Lemma lower_le (a x : Qc) :
  ∃ b, lower (Some a) x = Some b ∧ (b <= a)%Qc ∧ (b <= x)%Qc ∧ (b = a ∨ b = x).
Proof.
  simpl. destruct (Qc_ltb x a) eqn:Hlt.
  - apply Qc_ltb_lt in Hlt. exists x. repeat split; auto using Qcle_refl, Qclt_le_weak.
  - apply Qc_ltb_ge in Hlt. exists a. repeat split; auto using Qcle_refl.
Qed.

Lemma minimumFrom_Some (a : Qc) (l : list Qc) :
  ∃ b, minimumFrom (Some a) l = Some b
       ∧ (b = a ∨ b ∈ l) ∧ (b <= a)%Qc ∧ ∀ x, x ∈ l → (b <= x)%Qc.
Proof.
  revert a. induction l as [|y l IH]; intros a.
  - exists a. repeat split; auto using Qcle_refl. intros x Hx. inversion Hx.
  - destruct (lower_le a y) as (c & Hc & Hca & Hcy & Hcases).
    destruct (IH c) as (b & Hb & Hin & Hbc & Hall).
    exists b. unfold minimumFrom in *. cbn [fold_left]. rewrite Hc, Hb.
    repeat split.
    + destruct Hin as [->|Hin]; [|right; by constructor].
      destruct Hcases as [->| ->]; [by left | right; constructor].
    + by eapply Qcle_trans.
    + intros x [->|Hx]%elem_of_cons; [by eapply Qcle_trans | by apply Hall].
Qed.

(** [minimum] returns an element of the list that no element is below. *)
Lemma minimum_spec (l : list Qc) :
  match minimum l with
  | Some q => q ∈ l ∧ ∀ x, x ∈ l → (q <= x)%Qc
  | None => l = []
  end.
Proof.
  destruct l as [|a l]; [done|].
  unfold minimum, minimumFrom. cbn [fold_left lower].
  destruct (minimumFrom_Some a l) as (b & Hb & Hin & Hba & Hall).
  unfold minimumFrom in Hb. rewrite Hb. split.
  - destruct Hin as [->|Hin]; by constructor.
  - intros x [->|Hx]%elem_of_cons; auto.
Qed.

Lemma minimumFrom_bound (a : Qc) (l : list Qc) :
  (∀ x, x ∈ l → (a <= x)%Qc) → minimumFrom (Some a) l = Some a.
Proof.
  revert a. induction l as [|y l IH]; intros a Hall; [done|].
  unfold minimumFrom in *. cbn [fold_left lower].
  assert (Qc_ltb y a = false) as ->.
  { apply Qc_ltb_ge, Hall. constructor. }
  apply IH. intros x Hx. apply Hall. by constructor.
Qed.

(** ** The exact-rank strategy *)

Lemma rankedLoop_firstValidated (puid : value) (l : list value) :
  rankedLoop puid l = Resolved (firstValidated puid l).
Proof.
  unfold firstValidated. induction l as [|m l IH]; [done|].
  cbn [rankedLoop List.find]. destruct (isValidWinForPlayer m puid) eqn:Hv; [|done].
  rewrite result_time_carriesTime by by eapply isValidWinForPlayer_carriesTime.
  done.
Qed.

Lemma fastestFirst_head (puid m : value) (rest : list value) (q : Qc) :
  fastestFirst (m :: rest) = true →
  validatedTime puid m = Some q →
  ∀ x, x ∈ validatedTimes puid rest → (q <= x)%Qc.
Proof.
  cbn [fastestFirst]. intros [Hall _]%andb_true_iff [_ Hq]%validatedTime_Some x.
  unfold validatedTimes. rewrite list_elem_of_omap.
  intros (m' & Hm' & [_ Hx]%validatedTime_Some).
  rewrite forallb_forall in Hall.
  apply list_elem_of_In, Hall in Hm'. cbv zeta in Hm'.
  rewrite Hq, Hx in Hm'. simpl in Hm'. by apply num_leb_Fin.
Qed.

Lemma firstValidated_minimum (puid : value) (l : list value) :
  fastestFirst l = true →
  firstValidated puid l = timeResult (minimum (validatedTimes puid l)).
Proof.
  unfold firstValidated, minimum.
  induction l as [|m l IH]; [done|]. intros Hsorted.
  unfold validatedTimes. cbn [List.find omap list_omap].
  change (list_omap ?f ?l) with (validatedTimes puid l).
  destruct (validatedTime puid m) as [q|] eqn:Hq.
  - pose proof Hq as [-> ->]%validatedTime_Some.
    unfold minimumFrom. cbn [fold_left lower].
    change (fold_left lower ?l ?a) with (minimumFrom a l).
    rewrite minimumFrom_bound; [done|].
    by eapply fastestFirst_head.
  - apply validatedTime_None in Hq as ->. apply IH.
    cbn [fastestFirst] in Hsorted. by apply andb_true_iff in Hsorted as [_ ?].
Qed.

(** *** C8 *)

(** C8.  On a delivered page the exact-rank strategy returns the completion
    time of the first match, in page order, that satisfies the validator,
    or null when none does; when the page is ordered fastest-first that
    value is the least validated time of the whole page. *)
Theorem fetchRankedPB_first_is_fastest (body : value) (player : string) :
  fetchRankedPB (Resolved body) player
  = Resolved (firstValidated (uuid_of player) (matchesOf body))
  ∧ (fastestFirst (matchesOf body) = true →
     firstValidated (uuid_of player) (matchesOf body)
     = timeResult (minimum (validatedTimes (uuid_of player) (matchesOf body)))).
Proof.
  split; [|apply firstValidated_minimum].
  unfold fetchRankedPB, matchesOf. cbn [mbind outcome_bind].
  destruct (body?.["data"]) as [| | | | |[|m rest]|]; try done.
  apply rankedLoop_firstValidated.
Qed.

(** ** The bounded-scan strategy *)

Lemma validatedTimes_app (puid : value) (l1 l2 : list value) :
  validatedTimes puid (l1 ++ l2) = validatedTimes puid l1 ++ validatedTimes puid l2.
Proof. apply omap_app. Qed.

Lemma scanMatches_minimum (puid : value) (l : list value) (o : option Qc) :
  scanMatches puid l (bestOf o)
  = Resolved (bestOf (minimumFrom o (validatedTimes puid l))).
Proof.
  revert o. induction l as [|m l IH]; intros o; [done|].
  unfold validatedTimes. cbn [scanMatches omap list_omap].
  change (list_omap ?f ?l) with (validatedTimes puid l).
  destruct (validatedTime puid m) as [q|] eqn:Hq.
  - pose proof (validatedTime_pos _ _ _ Hq) as Hpos.
    apply validatedTime_Some in Hq as [Hv Hq]. rewrite Hv. cbn [negb].
    rewrite result_time_carriesTime by by eapply isValidWinForPlayer_carriesTime.
    rewrite Hq. cbn [mbind outcome_bind isFinite]. rewrite isTime_gtb by done.
    cbn [andb]. unfold minimumFrom. cbn [fold_left].
    change (fold_left lower ?l ?a) with (minimumFrom a l).
    destruct o as [a|]; cbn [bestOf num_ltb lower].
    + destruct (Qc_ltb q a); [apply (IH (Some q)) | apply (IH (Some a))].
    + apply (IH (Some q)).
  - apply validatedTime_None in Hq as ->. apply IH.
Qed.

Lemma firstStopFrom_ge (stop : nat → bool) (page fuel : nat) :
  (page ≤ firstStopFrom stop page fuel)%nat.
Proof.
  revert page. induction fuel as [|fuel IH]; intros page; simpl; [lia|].
  destruct (stop page); [lia|]. specialize (IH (S page)). lia.
Qed.

(** [firstStopFrom] is the first stopping page. *)
Lemma firstStopFrom_spec (stop : nat → bool) (page fuel : nat) :
  let s := firstStopFrom stop page fuel in
  (page ≤ s ≤ page + fuel)%nat
  ∧ (∀ i, (page ≤ i < s)%nat → stop i = false)
  ∧ ((s < page + fuel)%nat → stop s = true).
Proof.
  revert page. induction fuel as [|fuel IH]; intros page; simpl.
  - repeat split; lia.
  - destruct (stop page) eqn:Hstop.
    + repeat split; [lia | lia | lia | done].
    + destruct (IH (S page)) as ((Hlo & Hhi) & Hbefore & Hat).
      repeat split; [lia | lia | | intros; apply Hat; lia].
      intros i Hi. destruct (decide (i = page)) as [->|]; [done|].
      apply Hbefore. lia.
Qed.

Lemma matchesOf_noMatches (body : value) :
  noMatches body = true → matchesOf body = [].
Proof. unfold noMatches. by destruct (matchesOf body). Qed.

Lemma scanPages_minimum (bodies : nat → value) (puid : value)
    (fuel page : nat) (o : option Qc) :
  let n := Nat.min (page + fuel) (S (firstStopFrom (scanEndsAt bodies) page fuel)) in
  scanPages (λ i, Resolved (bodies i)) puid fuel page (bestOf o)
  = Resolved
      (bestOf (minimumFrom o
         (validatedTimes puid
            (concat (map (λ i, matchesOf (bodies i)) (seq page (n - page)))))),
       n).
Proof.
  revert page o. induction fuel as [|fuel IH]; intros page o.
  - cbn [scanPages firstStopFrom].
    replace (Nat.min (page + 0) (S page)) with page by lia.
    by rewrite Nat.sub_diag.
  - cbv zeta. cbn [scanPages firstStopFrom mbind outcome_bind].
    assert (matchesOf (bodies page)
            = match (bodies page)?.["data"] with VArr l => l | _ => [] end)
      as Hm by done.
    destruct ((bodies page)?.["data"]) as [| | | | |[|m rest]|] eqn:Hdata.
    1-6, 8:
      assert (scanEndsAt bodies page = true) as ->
        by (unfold scanEndsAt, noMatches; by rewrite Hm);
      replace (Nat.min (page + S fuel) (S page)) with (S page) by lia;
      replace (S page - page)%nat with 1%nat by lia;
      cbn [seq map concat]; by rewrite Hm.
    rewrite scanMatches_minimum. cbn [mbind outcome_bind].
    assert (scanEndsAt bodies page
            = nullish (List.last (m :: rest) VUndefined)?.["id"]) as ->
      by (unfold scanEndsAt, noMatches, lastIdMissing; by rewrite Hm).
    destruct (nullish _).
    + replace (Nat.min (page + S fuel) (S page)) with (S page) by lia.
      replace (S page - page)%nat with 1%nat by lia.
      cbn [seq map concat]. by rewrite Hm, app_nil_r.
    + rewrite IH. pose proof (firstStopFrom_ge (scanEndsAt bodies) (S page) fuel).
      replace (page + S fuel)%nat with (S page + fuel)%nat by lia.
      set (n := Nat.min _ _).
      replace (n - page)%nat with (S (n - S page)) by lia.
      cbn [seq map concat].
      by rewrite validatedTimes_app, minimumFrom_app, Hm.
Qed.

(** *** C3 *)

(** C3 (as amended).  With a known player identity and delivered pages, the
    bounded scan requests pages until one returns no matches, or the last
    match of the page just scanned carries no identifier, or 20 pages have
    been requested, whichever comes first, and it returns the least
    validated time of the pages requested (null when no match validates);
    with an unknown identity it requests nothing and returns null. *)
Theorem fetchCasualPrivatePB_bounded_scan (bodies : nat → value) (player : string) :
  let puid := uuid_of player in
  let n := pagesRequested (scanEndsAt bodies) in
  fetchCasualPrivatePB_run (λ i, Resolved (bodies i)) player
  = (if truthy puid
     then Resolved
            (timeResult (minimum (validatedTimes puid (matchesUpTo bodies n))), n)
     else Resolved (VNull, O))
  ∧ fetchCasualPrivatePB (λ i, Resolved (bodies i)) player
    = Resolved
        (if truthy puid
         then timeResult (minimum (validatedTimes puid (matchesUpTo bodies n)))
         else VNull).
Proof.
  intros puid n.
  assert (fetchCasualPrivatePB_run (λ i, Resolved (bodies i)) player
          = (if truthy puid
             then Resolved
                    (timeResult (minimum (validatedTimes puid (matchesUpTo bodies n))), n)
             else Resolved (VNull, O))) as Hrun.
  { unfold fetchCasualPrivatePB_run. fold puid.
    destruct (truthy puid); [|done]. cbn [negb].
    change PosInf with (bestOf None).
    rewrite (scanPages_minimum bodies puid MAX_PAGES O None).
    cbn [mbind outcome_bind mret outcome_ret fst snd].
    rewrite Nat.sub_0_r. fold n. unfold matchesUpTo, minimum.
    by destruct (minimumFrom None _). }
  split; [done|].
  unfold fetchCasualPrivatePB. rewrite Hrun. by destruct (truthy puid).
Qed.

(** ** The state *)

Lemma obj_get_set_eq (k : string) (v : value) (o : object) :
  obj_get k (obj_set k v o) = v.
Proof.
  induction o as [|[k' v'] o IH]; simpl.
  - by rewrite decide_True.
  - destruct (decide (k = k')) as [->|Hne]; simpl.
    + by rewrite decide_True.
    + by rewrite decide_False.
Qed.

Lemma obj_get_set_ne (k k' : string) (v : value) (o : object) :
  k ≠ k' → obj_get k' (obj_set k v o) = obj_get k' o.
Proof.
  intros Hne. induction o as [|[k0 v0] o IH]; simpl.
  - by rewrite decide_False.
  - destruct (decide (k = k0)) as [->|Hne0]; simpl.
    + by rewrite !decide_False.
    + by rewrite IH.
Qed.

Lemma stored_set_pb_eq (state : State) (t : Z) (p : string) (v : value) :
  stored (set_pb state t p v) t p = v.
Proof.
  unfold stored, pb_of, set_pb; simpl.
  rewrite lookup_insert_eq. apply obj_get_set_eq.
Qed.

Lemma stored_set_pb_ne (state : State) (t t' : Z) (p p' : string) (v : value) :
  ¬ (t = t' ∧ p = p') → stored (set_pb state t p v) t' p' = stored state t' p'.
Proof.
  clear StringToNumber ObjectToString NumberToString.
  intros Hne. unfold stored, pb_of, set_pb; simpl.
  destruct (decide (t = t')) as [<-|Ht].
  - rewrite lookup_insert_eq. simpl. apply obj_get_set_ne. naive_solver.
  - by rewrite lookup_insert_ne.
Qed.

Lemma stored_ensure_pb (state : State) (t t' : Z) (p : string) :
  stored (ensure_pb state t) t' p = stored state t' p.
Proof.
  unfold stored, pb_of, ensure_pb; simpl.
  destruct (decide (t = t')) as [<-|Ht].
  - by rewrite lookup_insert_eq.
  - by rewrite lookup_insert_ne.
Qed.

Lemma stored_set_top3 (state : State) (t t' : Z) (v : value) (p : string) :
  stored (set_top3 state t v) t' p = stored state t' p.
Proof. done. Qed.

(** A property of the state kept by every step is kept by the loop. *)
Lemma forEach_invariant {A : Type} (P : State → Prop)
    (f : A → State → State * list effect) (l : list A) (state : State) :
  (∀ x s, P s → P (f x s).1) → P state → P (forEach f l state).1.
Proof.
  intros Hstep. revert state. induction l as [|x l IH]; intros state HP; [done|].
  simpl. apply IH, Hstep, HP.
Qed.

(** ** Ranking *)

Lemma num_ltb_false_trans (a b c : number) :
  isFinite a = true → isFinite b = true → isFinite c = true →
  num_ltb a b = false → num_ltb b c = false → num_ltb a c = false.
Proof.
  destruct a as [| | |a], b as [| | |b], c as [| | |c]; try done. simpl.
  rewrite !Qc_ltb_ge. intros _ _ _ Hba Hcb. by eapply Qcle_trans.
Qed.

Lemma insert_row_elem (x r : string * number) (l : list (string * number)) :
  r ∈ insert_row x l ↔ r = x ∨ r ∈ l.
Proof.
  clear StringToNumber NumberToString.
  induction l as [|y l IH]; simpl.
  - rewrite list_elem_of_singleton. split; [auto|]. intros [?|Hin]; [done|inversion Hin].
  - destruct (num_ltb y.2 x.2); rewrite !elem_of_cons; [rewrite IH|]; tauto.
Qed.

Lemma insert_row_sorted (x : string * number) (l : list (string * number)) :
  isFinite x.2 = true → Forall (λ r, isFinite r.2 = true) l →
  sortedRows l → sortedRows (insert_row x l).
Proof.
  intros Hx Hfin Hsorted. induction Hsorted as [|y l Hsorted IH Hy]; simpl.
  - repeat constructor.
  - apply Forall_cons in Hfin as [Hyfin Hfin].
    destruct (num_ltb y.2 x.2) eqn:Hlt.
    + constructor; [by apply IH|].
      rewrite Forall_forall. intros r [->|Hr]%insert_row_elem.
      * destruct x as [? [| | |a]], y as [? [| | |b]]; try done. simpl in *.
        apply Qc_ltb_lt in Hlt. apply Qc_ltb_ge. by apply Qclt_le_weak.
      * rewrite Forall_forall in Hy. by apply Hy.
    + constructor; [by constructor|].
      constructor; [done|].
      rewrite Forall_forall in Hy, Hfin |- *. intros r Hr.
      apply num_ltb_false_trans with y.2; auto.
Qed.

Lemma sort_rows_finite (l : list (string * number)) :
  Forall (λ r, isFinite r.2 = true) l →
  Forall (λ r, isFinite r.2 = true) (sort_rows l).
Proof.
  induction 1 as [|x l Hx Hl IH]; simpl; [constructor|].
  rewrite Forall_forall in IH |- *. intros r [->|Hr]%insert_row_elem; auto.
Qed.

Lemma sort_rows_sorted (l : list (string * number)) :
  Forall (λ r, isFinite r.2 = true) l → sortedRows (sort_rows l).
Proof.
  induction 1 as [|x l Hx Hl IH]; simpl; [constructor|].
  apply insert_row_sorted; auto using sort_rows_finite.
Qed.

Lemma faster_insert_row (v : number) (x : string * number)
    (l : list (string * number)) :
  faster v (insert_row x l) = faster v (x :: l).
Proof.
  unfold faster. induction l as [|y l IH]; simpl; [done|].
  destruct (num_ltb y.2 x.2); simpl; [|done].
  simpl in IH. destruct (num_ltb y.2 v), (num_ltb x.2 v); simpl in *; lia.
Qed.

Lemma faster_sort_rows (v : number) (l : list (string * number)) :
  faster v (sort_rows l) = faster v l.
Proof.
  induction l as [|x l IH]; simpl; [done|].
  rewrite faster_insert_row. unfold faster in *. simpl.
  destruct (num_ltb x.2 v); simpl; lia.
Qed.

Lemma faster_none (v : number) (l : list (string * number)) :
  Forall (λ r, num_ltb r.2 v = false) l → faster v l = O.
Proof.
  unfold faster. induction 1 as [|x l Hx Hl IH]; simpl; [done|]. by rewrite Hx.
Qed.

Lemma lookupRow_None (p : string) (l : list (string * number)) :
  lookupRow p l = None ↔ p ∉ map fst l.
Proof.
  clear StringToNumber NumberToString.
  induction l as [|x l IH]; simpl.
  - split; [intros _ Hin; inversion Hin | done].
  - rewrite not_elem_of_cons. destruct (decide (x.1 = p)) as [<-|Hne].
    + split; [discriminate | tauto].
    + rewrite IH. split; [auto | tauto].
Qed.

Lemma lookupRow_Some (p : string) (v : number) (l : list (string * number)) :
  lookupRow p l = Some v → (p, v) ∈ l.
Proof.
  induction l as [|[k w] l IH]; simpl; [discriminate|].
  destruct (decide (k = p)) as [->|Hne].
  - intros [= ->]. constructor.
  - intros Hl. constructor. by apply IH.
Qed.

Lemma lookupRow_insert_row (p : string) (x : string * number)
    (l : list (string * number)) :
  x.1 ≠ p ∨ lookupRow p l = None →
  lookupRow p (insert_row x l) = lookupRow p (x :: l).
Proof.
  intros Hcase. induction l as [|y l IH]; simpl; [done|].
  destruct (num_ltb y.2 x.2); simpl; [|done].
  simpl in Hcase. destruct (decide (y.1 = p)) as [Hy|Hy].
  - destruct Hcase as [Hx|?]; [|done]. by rewrite decide_False.
  - rewrite IH by done. done.
Qed.

Lemma lookupRow_sort_rows (p : string) (l : list (string * number)) :
  NoDup (map fst l) → lookupRow p (sort_rows l) = lookupRow p l.
Proof.
  induction l as [|x l IH]; simpl; [done|].
  intros [Hx Hl]%NoDup_cons. rewrite lookupRow_insert_row.
  - simpl. by rewrite IH.
  - destruct (decide (x.1 = p)) as [<-|Hne]; [right|by left].
    rewrite IH by done. by apply lookupRow_None.
Qed.

Lemma findIndex_nonneg (p : string) (v : number) (l : list (string * number)) :
  lookupRow p l = Some v → 0 ≤ findIndex p l.
Proof.
  induction l as [|x l IH]; simpl; [discriminate|].
  destruct (decide (x.1 = p)); [lia|]. intros Hl. specialize (IH Hl).
  case_decide; lia.
Qed.

(** The row of [p] lands behind exactly the rows that are strictly faster. *)
Lemma findIndex_insert_row_own (p : string) (v : number)
    (l : list (string * number)) :
  isFinite v = true → Forall (λ r, isFinite r.2 = true) l → sortedRows l →
  lookupRow p l = None →
  findIndex p (insert_row (p, v) l) = Z.of_nat (faster v l).
Proof.
  intros Hv Hfin Hsorted. induction Hsorted as [|y l Hsorted IH Hy]; simpl.
  - intros _. by rewrite decide_True.
  - apply Forall_cons in Hfin as [Hyfin Hfin].
    destruct (decide (y.1 = p)) as [|Hne]; [discriminate|]. intros Hnone.
    unfold faster. simpl. destruct (num_ltb y.2 v) eqn:Hlt; simpl.
    + fold (faster v l). rewrite IH by done. repeat case_decide; done || lia.
    + fold (faster v l). rewrite faster_none; [by rewrite decide_True|].
      rewrite Forall_forall in Hy, Hfin |- *. intros r Hr.
      apply num_ltb_false_trans with y.2; auto.
Qed.

(** Another row lands ahead of the row of [p] exactly when it is not slower. *)
Lemma findIndex_insert_row_other (p : string) (v : number) (x : string * number)
    (l : list (string * number)) :
  isFinite x.2 = true → Forall (λ r, isFinite r.2 = true) l → sortedRows l →
  x.1 ≠ p → lookupRow p l = Some v →
  findIndex p (insert_row x l)
  = findIndex p l + (if num_ltb v x.2 then 0 else 1).
Proof.
  intros Hx Hfin Hsorted Hne. induction Hsorted as [|y l Hsorted IH Hy]; simpl.
  - discriminate.
  - apply Forall_cons in Hfin as [Hyfin Hfin].
    destruct (decide (y.1 = p)) as [Hyp|Hyp].
    + intros [= <-]. destruct (num_ltb y.2 x.2); simpl; repeat case_decide; done || lia.
    + intros Hl. pose proof (findIndex_nonneg _ _ _ Hl) as Hpos.
      destruct (num_ltb y.2 x.2) eqn:Hlt; simpl.
      * rewrite IH by done. destruct (num_ltb v x.2); repeat case_decide; done || lia.
      * assert (num_ltb v x.2 = false) as ->.
        { apply lookupRow_Some in Hl. rewrite Forall_forall in Hy, Hfin.
          apply num_ltb_false_trans with y.2; auto.
          - apply (Hfin (p, v) Hl).
          - apply (Hy (p, v) Hl). }
        repeat case_decide; done || lia.
Qed.

(** The position of a row after the sort is the number of rows ranked ahead
    of it. *)
Lemma findIndex_sort_rows (p : string) (v : number) (l : list (string * number)) :
  Forall (λ r, isFinite r.2 = true) l → NoDup (map fst l) →
  lookupRow p l = Some v →
  findIndex p (sort_rows l) = Z.of_nat (rowsAhead p l).
Proof.
  intros Hfin. induction Hfin as [|[k w] l Hx Hfin IH]; [discriminate|].
  cbn [map fst]. intros [Hk Hnodup]%NoDup_cons. cbn [lookupRow rowsAhead fst snd].
  change (sort_rows ((k, w) :: l)) with (insert_row (k, w) (sort_rows l)).
  destruct (decide (k = p)) as [->|Hne].
  - intros _. rewrite findIndex_insert_row_own;
      auto using sort_rows_finite, sort_rows_sorted.
    + by rewrite faster_sort_rows.
    + rewrite lookupRow_sort_rows by done. by apply lookupRow_None.
  - intros Hl. rewrite Hl.
    rewrite (findIndex_insert_row_other p v);
      auto using sort_rows_finite, sort_rows_sorted.
    + rewrite IH by done. cbn [snd]. destruct (num_ltb v w); lia.
    + by rewrite lookupRow_sort_rows.
Qed.

Lemma timedRows_finite (o : object) :
  Forall (λ r, isFinite r.2 = true) (timedRows o).
Proof.
  unfold timedRows. rewrite Forall_forall. intros r Hr.
  apply list_elem_of_In, filter_In in Hr as [_ Hr].
  by apply andb_true_iff in Hr as [? _].
Qed.

Lemma timedRows_cons (k : string) (v : value) (o : object) :
  timedRows ((k, v) :: o)
  = if isFinite (ToNumber v) && num_gtb (ToNumber v) (ms 0)
    then (k, ToNumber v) :: timedRows o
    else timedRows o.
Proof. done. Qed.

Lemma timedRows_names (o : object) (p : string) :
  p ∈ map fst (timedRows o) → p ∈ map fst o.
Proof.
  induction o as [|[k v] o IH]; [done|]. rewrite timedRows_cons.
  destruct (isFinite (ToNumber v) && num_gtb (ToNumber v) (ms 0));
    cbn [map fst]; rewrite ?elem_of_cons; tauto.
Qed.

Lemma timedRows_NoDup (o : object) :
  NoDup (map fst o) → NoDup (map fst (timedRows o)).
Proof.
  induction o as [|[k v] o IH]; [done|]. rewrite timedRows_cons. cbn [map fst].
  intros [Hk Ho]%NoDup_cons.
  destruct (isFinite (ToNumber v) && num_gtb (ToNumber v) (ms 0)); [|auto].
  cbn [map fst]. apply NoDup_cons. split; [|auto].
  intros Hin. by apply Hk, timedRows_names.
Qed.

Lemma timedRows_lookupRow (o : object) (p : string) :
  NoDup (map fst o) → isTime (ToNumber (obj_get p o)) →
  lookupRow p (timedRows o) = Some (ToNumber (obj_get p o)).
Proof.
  induction o as [|[k v] o IH].
  - intros _ (q & Hq & _). discriminate.
  - rewrite timedRows_cons. cbn [map fst obj_get].
    intros [Hk Ho]%NoDup_cons.
    destruct (decide (p = k)) as [->|Hne].
    + intros (q & Hq & Hpos). rewrite Hq. cbn [isFinite andb].
      rewrite isTime_gtb by done. cbn [lookupRow fst snd]. by rewrite decide_True.
    + intros Htime.
      destruct (isFinite (ToNumber v) && num_gtb (ToNumber v) (ms 0)); [|auto].
      cbn [lookupRow fst snd]. rewrite decide_False by done. auto.
Qed.

(** X6.  The placement computed by the updater is the rank of the player by
    ascending time, ties by order of entry, among the entries of the
    category that hold a time. *)
Lemma placementOf_rank (state : State) (t : Z) (p : string) :
  NoDup (map fst (pb_of state t)) →
  isTime (ToNumber (stored state t p)) →
  placementOf state t p = Z.of_nat (rowsAhead p (timedRows (pb_of state t))) + 1.
Proof.
  intros Hnodup Htime. unfold placementOf, ranked_rows.
  by rewrite (findIndex_sort_rows p (ToNumber (stored state t p)))
    by auto using timedRows_finite, timedRows_NoDup, timedRows_lookupRow.
Qed.

(** ** The PB updater: one step *)

Lemma pbStep_skip (t : Z) (oldTop3 : list value) (p : string) (latest : value)
    (state : State) :
  is_number latest = false → pbStep t oldTop3 p latest state = (state, []).
Proof. by destruct latest. Qed.

Lemma pbStep_replace (t : Z) (oldTop3 : list value) (p : string) (l : number)
    (state : State) :
  ¬ isTime (ToNumber (stored state t p)) →
  pbStep t oldTop3 p (VNum l) state = (set_pb state t p (VNum l), []).
Proof.
  intros Hprev. rewrite <- isTime_test in Hprev. apply not_false_is_true in Hprev.
  unfold pbStep. fold (stored state t p). by rewrite Hprev.
Qed.

Lemma pbStep_improve (t : Z) (oldTop3 : list value) (p : string) (l : number)
    (state : State) :
  let prev := ToNumber (stored state t p) in
  let state' := set_pb state t p (VNum l) in
  isTime prev → num_ltb l prev = true →
  pbStep t oldTop3 p (VNum l) state
  = (state',
     Saved state'
       :: placementAnnouncement oldTop3 (placementOf state' t p) p (typeLabel (VNum (ms t)))
       ++ [Sent (NewPB (typeLabel (VNum (ms t))) p l prev)]).
Proof.
  intros prev state' Hprev Hlt. rewrite <- isTime_test in Hprev.
  unfold pbStep. fold (stored state t p). fold prev. by rewrite Hprev, Hlt.
Qed.

Lemma pbStep_keep (t : Z) (oldTop3 : list value) (p : string) (l : number)
    (state : State) :
  let prev := ToNumber (stored state t p) in
  isTime prev → num_ltb l prev = false →
  pbStep t oldTop3 p (VNum l) state = (state, []).
Proof.
  intros prev Hprev Hlt. rewrite <- isTime_test in Hprev.
  unfold pbStep. fold (stored state t p). fold prev. by rewrite Hprev, Hlt.
Qed.

(** A step leaves the entries of every other pair alone. *)
Lemma pbStep_frame (t : Z) (oldTop3 : list value) (p : string) (latest : value)
    (state : State) (t' : Z) (p' : string) :
  ¬ (t = t' ∧ p = p') →
  stored (pbStep t oldTop3 p latest state).1 t' p' = stored state t' p'.
Proof.
  intros Hne. unfold pbStep. destruct latest; try done.
  destruct (negb (isFinite _) || num_leb _ _); simpl.
  - by apply stored_set_pb_ne.
  - destruct (num_ltb _ _); simpl; [by apply stored_set_pb_ne | done].
Qed.

(** ** What the resolvers can return *)

Lemma minimumFrom_positive (o : option Qc) (l : list Qc) :
  positive o → (∀ x, x ∈ l → (0 < x)%Qc) → positive (minimumFrom o l).
Proof.
  intros Ho Hl b Hb. destruct o as [a|].
  - destruct (minimumFrom_Some a l) as (b' & Hb' & [->|Hin] & _); auto;
      rewrite Hb' in Hb; injection Hb as <-; auto.
  - fold (minimum l) in Hb. pose proof (minimum_spec l) as Hspec.
    rewrite Hb in Hspec. destruct Hspec as [Hin _]. auto.
Qed.

Lemma validatedTimes_positive (puid : value) (l : list value) (x : Qc) :
  x ∈ validatedTimes puid l → (0 < x)%Qc.
Proof.
  unfold validatedTimes. rewrite list_elem_of_omap.
  intros (m & _ & Hm). by eapply validatedTime_pos.
Qed.

Lemma scanPages_positive (pages : nat → outcome value) (puid : value)
    (fuel page : nat) (o : option Qc) (b : number) (n : nat) :
  positive o →
  scanPages pages puid fuel page (bestOf o) = Resolved (b, n) →
  ∃ o', b = bestOf o' ∧ positive o'.
Proof.
  revert page o. induction fuel as [|fuel IH]; intros page o Ho; cbn [scanPages].
  - inversion 1; subst; eauto.
  - destruct (pages page) as [body|]; [|discriminate]. cbn [mbind outcome_bind].
    destruct (body?.["data"]) as [| | | | |[|m rest]|];
      try by (inversion 1; subst; eauto).
    rewrite scanMatches_minimum. cbn [mbind outcome_bind].
    assert (positive (minimumFrom o (validatedTimes puid (m :: rest)))) as Ho'.
    { apply minimumFrom_positive; [done|]. apply validatedTimes_positive. }
    destruct (nullish _).
    + inversion 1; subst; eauto.
    + by apply IH.
Qed.

(** A resolved best time is a finite, strictly positive number. *)
Lemma fetchPBTime_isTime (pages : nat → outcome value) (player : string)
    (matchType : Z) (n : number) :
  fetchPBTime pages player matchType = Resolved (VNum n) → isTime n.
Proof.
  unfold fetchPBTime. destruct (decide (matchType = 2)) as [_|_].
  - unfold fetchRankedPB. destruct (pages O) as [body|]; [|discriminate].
    cbn [mbind outcome_bind].
    destruct (body?.["data"]) as [| | | | |[|m rest]|]; try discriminate.
    rewrite rankedLoop_firstValidated. unfold firstValidated.
    destruct (List.find _ _) as [m'|] eqn:Hfind; [|discriminate].
    intros [= <-]. apply find_some in Hfind as [_ Hv].
    by apply isValidWinForPlayer_carriesTime in Hv.
  - destruct (decide (matchType = 1 ∨ matchType = 3)) as [_|_]; [|discriminate].
    unfold fetchCasualPrivatePB, fetchCasualPrivatePB_run.
    destruct (negb (truthy (uuid_of player))); [discriminate|].
    destruct (scanPages _ _ _ _ _) as [[b k]|] eqn:Hscan; [|discriminate].
    apply (scanPages_positive _ _ _ _ None) in Hscan as (o' & -> & Ho');
      [|by intros ?].
    simpl. destruct o' as [q|]; simpl; [|discriminate].
    intros [= <-]. exists q. auto.
Qed.

(** A tick ends by saving the state it leaves, which is the state the next
    tick loads. *)
Lemma pbTick_saves_final_state (net : string → Z → nat → outcome value)
    (boardFound : bool) (loaded : State) :
  let r := pbTick net boardFound loaded in
  ∃ effs, r.2 = effs ++ Saved r.1 :: (if boardFound then [BoardEdited r.1] else []).
Proof.
  unfold pbTick. generalize TRACK_TYPES players. intros types roster.
  unfold pbTickOver. cbv zeta. cbn [fst snd]. eauto.
Qed.

(** ** The PB updater: claims *)

(** C10 (as amended).  The PB updater reads the stored entry of a pair
    through [Number].  When what it reads is not a finite, strictly positive
    number (the entry is missing, zero, negative, or a value that [Number]
    does not turn into such a number), the next resolved time replaces the
    entry whatever its value, and the step has no effect besides: nothing is
    announced.  An entry that [Number] turns into a finite, strictly positive
    number, be it [true] or a string of digits, is a recorded time to the
    updater: a resolved time that is not below it leaves it in place. *)
Theorem pbStep_invalid_entry_replaced (t : Z) (oldTop3 : list value)
    (p : string) (l : number) (state : State) :
  let prev := ToNumber (stored state t p) in
  (¬ isTime prev →
   pbStep t oldTop3 p (VNum l) state = (set_pb state t p (VNum l), [])
   ∧ stored (set_pb state t p (VNum l)) t p = VNum l)
  ∧ (isTime prev → num_ltb l prev = false →
     pbStep t oldTop3 p (VNum l) state = (state, [])).
Proof.
  intros prev. split.
  - intros Hprev. split; [by apply pbStep_replace | apply stored_set_pb_eq].
  - intros Hprev Hlt. by apply pbStep_keep.
Qed.

Lemma placementAnnouncement_sent (oldTop3 : list value) (place : Z)
    (p typeName : string) :
  (placementAnnouncement oldTop3 place p typeName = []
   ∧ ¬ ((1 ≤ place ≤ 3) ∧ slotHeldByOther oldTop3 place p))
  ∨ ((1 ≤ place ≤ 3) ∧ slotHeldByOther oldTop3 place p
     ∧ ∃ msg, getPlacementMessage place p typeName = Some msg
              ∧ placementAnnouncement oldTop3 place p typeName = [Sent msg]).
Proof.
  clear StringToNumber NumberToString.
  unfold placementAnnouncement, slotHeldByOther.
  destruct (decide (1 ≤ place ≤ 3)) as [Hplace|Hplace]; [|left; tauto].
  assert (∃ msg, getPlacementMessage place p typeName = Some msg) as [msg Hmsg].
  { unfold getPlacementMessage. repeat case_decide; eauto. lia. }
  rewrite Hmsg, nth_lookup.
  destruct (oldTop3 !! Z.to_nat (place - 1)) as [[| | | |s| |]|] eqn:Hslot; simpl;
    try (right; split; [done|]; split; [done|]; by exists msg).
  destruct (bool_decide (s = p)) eqn:Hs; simpl.
  - apply bool_decide_eq_true in Hs as ->. left. tauto.
  - apply bool_decide_eq_false in Hs.
    right. split; [done|]. split; [congruence|]. by exists msg.
Qed.

(** C6.  On an accepted improvement (the resolved time is strictly less
    than the stored one) the step first updates the stored entry and saves
    the updated state, and only then sends: its effects are the save of
    the state that holds the new time, followed by announcements only, the
    PB-improvement announcement among them. *)
Theorem pbStep_saves_before_announcing (t : Z) (oldTop3 : list value)
    (p : string) (l : number) (state : State) :
  let prev := ToNumber (stored state t p) in
  let state' := set_pb state t p (VNum l) in
  isTime prev → num_ltb l prev = true →
  stored state' t p = VNum l
  ∧ ∃ msgs, pbStep t oldTop3 p (VNum l) state = (state', Saved state' :: map Sent msgs)
            ∧ NewPB (typeLabel (VNum (ms t))) p l prev ∈ msgs.
Proof.
  intros prev state' Hprev Hlt. split; [apply stored_set_pb_eq|].
  rewrite pbStep_improve by done. fold prev state'.
  destruct (placementAnnouncement_sent oldTop3 (placementOf state' t p) p
              (typeLabel (VNum (ms t))))
    as [[-> _]|(_ & _ & msg & _ & ->)].
  - eexists [_]. split; [done|]. constructor.
  - eexists [_; _]. split; [done|]. do 2 constructor.
Qed.

(** On an accepted improvement the announcements of the step are an
    optional placement-change announcement followed by the PB-improvement
    announcement with the new and the old time.  The placement-change
    announcement is there exactly when the newly computed placement of the
    player is 1, 2 or 3 and the pre-update top-3 snapshot does not hold the
    player at that slot. *)
Theorem pbStep_announcements (t : Z) (oldTop3 : list value)
    (p : string) (l : number) (state : State) :
  let prev := ToNumber (stored state t p) in
  let state' := set_pb state t p (VNum l) in
  let place := placementOf state' t p in
  let typeName := typeLabel (VNum (ms t)) in
  isTime prev → num_ltb l prev = true →
  ∃ change,
    announcements (pbStep t oldTop3 p (VNum l) state).2
    = change ++ [NewPB typeName p l prev]
    ∧ ((change = [] ∧ ¬ ((1 ≤ place ≤ 3) ∧ slotHeldByOther oldTop3 place p))
       ∨ ((1 ≤ place ≤ 3) ∧ slotHeldByOther oldTop3 place p
          ∧ ∃ msg, getPlacementMessage place p typeName = Some msg
                   ∧ change = [msg])).
Proof.
  intros prev state' place typeName Hprev Hlt.
  rewrite pbStep_improve by done. fold prev state' place typeName.
  destruct (placementAnnouncement_sent oldTop3 place p typeName)
    as [[Hnone Hcond]|(Hplace & Hslot & msg & Hmsg & Hsent)].
  - exists []. rewrite Hnone. split; [done|]. by left.
  - exists [msg]. rewrite Hsent. split; [done|]. right. eauto.
Qed.

(** ** The PB updater: order of effects in a tick *)

Lemma app_eq_split {A : Type} (e1 e2 pre post : list A) (x : A) :
  e1 ++ e2 = pre ++ x :: post →
  (∃ post1, e1 = pre ++ x :: post1 ∧ post = post1 ++ e2)
  ∨ (∃ pre2, pre = e1 ++ pre2 ∧ e2 = pre2 ++ x :: post).
Proof.
  revert pre. induction e1 as [|y e1 IH]; intros pre Heq.
  - right. by exists pre.
  - destruct pre as [|z pre]; simpl in Heq.
    + injection Heq as -> <-. left. by exists e1.
    + injection Heq as -> Heq. destruct (IH _ Heq) as [(post1 & -> & ->)|(pre2 & -> & ->)].
      * left. by exists post1.
      * right. by exists pre2.
Qed.

Lemma announcedAfterSave_nil : announcedAfterSave [].
Proof. intros [|? pre] a post Heq; discriminate. Qed.

Lemma announcedAfterSave_app (e1 e2 : list effect) :
  announcedAfterSave e1 → announcedAfterSave e2 → announcedAfterSave (e1 ++ e2).
Proof.
  intros H1 H2 pre a post Heq.
  apply app_eq_split in Heq as [(post1 & Heq & _)|(pre2 & -> & Heq)].
  - by apply H1 in Heq.
  - apply H2 in Heq as (s & Hin & Hs). exists s. split; [|done].
    apply elem_of_app. by right.
Qed.

Lemma pbStep_announcedAfterSave (t : Z) (oldTop3 : list value) (p : string)
    (latest : value) (state : State) :
  announcedAfterSave (pbStep t oldTop3 p latest state).2.
Proof.
  destruct latest as [| | |l| | |]; try apply announcedAfterSave_nil.
  destruct (negb (isFinite (ToNumber (stored state t p)))
            || num_leb (ToNumber (stored state t p)) (ms 0)) eqn:Hprev.
  { rewrite pbStep_replace; [apply announcedAfterSave_nil|].
    intros Htime%isTime_test. congruence. }
  apply isTime_test in Hprev.
  destruct (num_ltb l (ToNumber (stored state t p))) eqn:Hlt;
    [|rewrite pbStep_keep by done; apply announcedAfterSave_nil].
  rewrite pbStep_improve by done. cbn [snd].
  set (state' := set_pb state t p (VNum l)).
  set (typeName := typeLabel (VNum (ms t))).
  intros pre a post Heq.
  destruct pre as [|e pre]; [discriminate|]. injection Heq as <- Heq.
  exists state'. split; [constructor|].
  intros typeName' p' l' prev' ->.
  exists t.
  destruct (placementAnnouncement_sent oldTop3 (placementOf state' t p) p typeName)
    as [[Hnone _]|(_ & _ & msg & Hmsg & Hsent)].
  - rewrite Hnone in Heq. destruct pre as [|? [|? ?]]; try discriminate.
    injection Heq as <- <- <- _. split; [done|apply stored_set_pb_eq].
  - rewrite Hsent in Heq. destruct pre as [|? [|? [|? ?]]]; try discriminate.
    + injection Heq as Heq _. subst msg. unfold getPlacementMessage in Hmsg.
      repeat case_decide; discriminate.
    + injection Heq as _ <- <- <- _. split; [done|apply stored_set_pb_eq].
Qed.

Lemma forEach_announcedAfterSave {A : Type} (f : A → State → State * list effect)
    (l : list A) (state : State) :
  (∀ x s, announcedAfterSave (f x s).2) →
  announcedAfterSave (forEach f l state).2.
Proof.
  intros Hstep. revert state. induction l as [|x l IH]; intros state.
  - apply announcedAfterSave_nil.
  - cbn [forEach snd]. apply announcedAfterSave_app; [apply Hstep | apply IH].
Qed.

(** X5.  In the effects of a whole tick every announcement comes after a save,
    and every PB-improvement announcement after a save of a state that holds
    the announced time. *)
Lemma pbTick_announcedAfterSave (net : string → Z → nat → outcome value)
    (boardFound : bool) (loaded : State) :
  announcedAfterSave (pbTick net boardFound loaded).2.
Proof.
  unfold pbTick. generalize TRACK_TYPES players. intros types roster.
  unfold pbTickOver. cbv zeta. cbn [snd]. apply announcedAfterSave_app.
  - apply forEach_announcedAfterSave. intros t s. unfold pbCategory. cbn [snd].
    apply forEach_announcedAfterSave. intros p s'. apply pbStep_announcedAfterSave.
  - intros [|? [|? [|? ?]]] a post Heq; destruct boardFound; discriminate.
Qed.

(** ** The PB updater: a whole tick *)

(** A property of the stored entries that every player step keeps is kept
    by a tick. *)
Lemma pbTickOver_invariant (P : State → Prop) (types : list Z)
    (roster : list string) (net : string → Z → nat → outcome value)
    (boardFound : bool) (state : State) :
  (∀ s t, P s → P (ensure_pb s t)) →
  (∀ s t v, P s → P (set_top3 s t v)) →
  (∀ s t oldTop3 p,
     P s → P (pbStep t oldTop3 p (catch_null (fetchPBTime (net p t) p t)) s).1) →
  P state → P (pbTickOver types roster net boardFound state).1.
Proof.
  intros Hensure Htop3 Hstep HP. unfold pbTickOver. cbn [fst].
  apply forEach_invariant; [|done]. clear state HP. intros t s HP.
  unfold pbCategory. cbn [fst]. apply Htop3.
  apply forEach_invariant; [|by apply Hensure].
  intros p s' HP'. apply Hstep, HP'.
Qed.

Lemma pbTick_invariant (P : State → Prop)
    (net : string → Z → nat → outcome value) (boardFound : bool) (state : State) :
  (∀ s t, P s → P (ensure_pb s t)) →
  (∀ s t v, P s → P (set_top3 s t v)) →
  (∀ s t oldTop3 p,
     P s → P (pbStep t oldTop3 p (catch_null (fetchPBTime (net p t) p t)) s).1) →
  P state → P (pbTick net boardFound state).1.
Proof. unfold pbTick. apply pbTickOver_invariant. Qed.

(** X15.  A source error on the first request makes the resolver produce no
    number. *)
Lemma fetchPBTime_source_error (pages : nat → outcome value) (player : string)
    (matchType : Z) :
  pages O = Rejected → resolverFailed (fetchPBTime pages player matchType).
Proof.
  intros Herr. unfold resolverFailed, fetchPBTime.
  destruct (decide (matchType = 2)) as [_|_].
  - unfold fetchRankedPB. by rewrite Herr.
  - destruct (decide (matchType = 1 ∨ matchType = 3)) as [_|_]; [|done].
    unfold fetchCasualPrivatePB, fetchCasualPrivatePB_run.
    destruct (negb (truthy (uuid_of player))); [done|].
    unfold MAX_PAGES. cbn [scanPages]. by rewrite Herr.
Qed.

(** X16.  A first response that carries no array of matches makes the resolver
    produce no number. *)
Lemma fetchPBTime_malformed_payload (pages : nat → outcome value) (body : value)
    (player : string) (matchType : Z) :
  pages O = Resolved body → matchesOf body = [] →
  resolverFailed (fetchPBTime pages player matchType).
Proof.
  intros Hres Hnone. unfold resolverFailed, fetchPBTime, matchesOf in *.
  destruct (decide (matchType = 2)) as [_|_].
  - unfold fetchRankedPB. rewrite Hres. cbn [mbind outcome_bind].
    by destruct (body?.["data"]) as [| | | | |[|m rest]|].
  - destruct (decide (matchType = 1 ∨ matchType = 3)) as [_|_]; [|done].
    unfold fetchCasualPrivatePB, fetchCasualPrivatePB_run.
    destruct (negb (truthy (uuid_of player))); [done|].
    unfold MAX_PAGES. cbn [scanPages]. rewrite Hres. cbn [mbind outcome_bind].
    by destruct (body?.["data"]) as [| | | | |[|m rest]|].
Qed.

(** C9.  When the resolver fails for a player and category (it rejects, or
    it resolves to no number), the player step is skipped: it leaves the
    state as it was and has no effect, so nothing is announced; and the
    stored entry of the pair is the same after the whole tick. *)
Theorem pbTick_resolver_failure (net : string → Z → nat → outcome value)
    (boardFound : bool) (t : Z) (oldTop3 : list value) (p : string)
    (state : State) :
  resolverFailed (fetchPBTime (net p t) p t) →
  pbStep t oldTop3 p (catch_null (fetchPBTime (net p t) p t)) state = (state, [])
  ∧ ∀ loaded, stored (pbTick net boardFound loaded).1 t p = stored loaded t p.
Proof.
  intros Hfail. split; [by apply pbStep_skip|]. intros loaded.
  apply (pbTick_invariant (λ s, stored s t p = stored loaded t p)); try done.
  - intros s t' Hs. by rewrite stored_ensure_pb.
  - intros s t' old p' Hs.
    destruct (decide (t' = t ∧ p' = p)) as [[-> ->]|Hne].
    + by rewrite pbStep_skip.
    + by rewrite pbStep_frame.
Qed.

Lemma timeNotAbove_trans (q q' : Qc) (n : number) :
  (q' <= q)%Qc → timeNotAbove q' n → timeNotAbove q n.
Proof.
  intros Hle (q'' & -> & Hpos & Hle'). exists q''.
  repeat split; [done|]. by eapply Qcle_trans.
Qed.

Lemma pbStep_nonincreasing (t : Z) (oldTop3 : list value) (p : string)
    (latest : value) (state : State) (t0 : Z) (p0 : string) (q : Qc) :
  (∀ l, latest = VNum l → isTime l) →
  timeNotAbove q (ToNumber (stored state t0 p0)) →
  timeNotAbove q (ToNumber (stored (pbStep t oldTop3 p latest state).1 t0 p0)).
Proof.
  intros Hlatest Hprev.
  destruct (decide (t = t0 ∧ p = p0)) as [[-> ->]|Hne];
    [|by rewrite pbStep_frame].
  destruct latest as [| | |l| | |]; try done.
  destruct Hprev as (q' & Hq' & Hpos & Hle).
  assert (isTime (ToNumber (stored state t0 p0))) as Htime by (exists q'; auto).
  destruct (num_ltb l (ToNumber (stored state t0 p0))) eqn:Hlt.
  - rewrite pbStep_improve by done. cbn [fst]. rewrite stored_set_pb_eq.
    destruct (Hlatest l eq_refl) as (ql & -> & Hlpos).
    rewrite Hq' in Hlt. simpl in Hlt. apply Qc_ltb_lt in Hlt.
    exists ql. repeat split; [done|].
    eapply Qcle_trans; [by apply Qclt_le_weak|done].
  - rewrite pbStep_keep by done. exists q'. auto.
Qed.

(** C2.  A pair that holds a recorded best time before a tick of the PB
    updater holds one after it, and the value after the tick is less than
    or equal to the value before. *)
Theorem pbTick_best_time_never_increases
    (net : string → Z → nat → outcome value) (boardFound : bool)
    (t : Z) (p : string) (q : Qc) (loaded : State) :
  ToNumber (stored loaded t p) = Fin q → (0 < q)%Qc →
  ∃ q' : Qc,
    ToNumber (stored (pbTick net boardFound loaded).1 t p) = Fin q'
    ∧ (0 < q')%Qc ∧ (q' <= q)%Qc.
Proof.
  intros Hq Hpos.
  apply (pbTick_invariant (λ s, timeNotAbove q (ToNumber (stored s t p)))).
  - intros s t' Hs. by rewrite stored_ensure_pb.
  - done.
  - intros s t' old p' Hs. apply pbStep_nonincreasing; [|done].
    intros l Hl. destruct (fetchPBTime (net p' t') p' t') as [v|] eqn:Hfetch;
      simpl in Hl; [|discriminate].
    subst v. by eapply fetchPBTime_isTime.
  - exists q. repeat split; [done..|apply Qcle_refl].
Qed.

(** ** The finished-match notifier *)

Lemma observedId_Some (res : outcome value) (i : string) :
  observedId res = Some i →
  let m := catch_null (fetchLatestMatch res) in
  truthy m = true ∧ nullish m?.["id"] = false ∧ ToString m?.["id"] = i.
Proof.
  unfold observedId. cbv zeta.
  destruct (truthy _); [|discriminate]. destruct (nullish _); [discriminate|].
  by intros [= <-].
Qed.

Lemma watchStep_nothing (res : outcome value) (p : string) (state : State) :
  observedId res = None → watchStep res p state = (state, []).
Proof.
  unfold observedId, watchStep. cbv zeta.
  destruct (truthy _); [|done]. by destruct (nullish _).
Qed.

Lemma watchStep_first (res : outcome value) (p i : string) (state : State) :
  observedId res = Some i →
  is_string (default VUndefined (lastMatchId state !! p)) = false →
  watchStep res p state = (set_lastMatchId state p i, []).
Proof.
  intros (Hm & Hid & Hi)%observedId_Some Hprev.
  unfold watchStep. cbv zeta. rewrite Hm, Hid, Hi. cbn [negb].
  by destruct (default VUndefined _).
Qed.

Lemma watchStep_same (res : outcome value) (p i : string) (state : State) :
  observedId res = Some i →
  lastMatchId state !! p = Some (VStr i) →
  watchStep res p state = (state, []).
Proof.
  intros (Hm & Hid & Hi)%observedId_Some Hprev.
  unfold watchStep. cbv zeta. rewrite Hm, Hid, Hi, Hprev. cbn [negb from_option id].
  by rewrite bool_decide_eq_true_2.
Qed.

Lemma watchStep_new (res : outcome value) (p i w : string) (state : State) :
  observedId res = Some i →
  lastMatchId state !! p = Some (VStr w) →
  i ≠ w →
  ∃ msg, watchStep res p state
         = (set_lastMatchId state p i,
            [Saved (set_lastMatchId state p i); Sent msg]).
Proof.
  intros (Hm & Hid & Hi)%observedId_Some Hprev Hne.
  unfold watchStep. cbv zeta. rewrite Hm, Hid, Hi, Hprev. cbn [negb from_option id].
  rewrite bool_decide_eq_false_2 by done. cbn [negb].
  destruct (negb (truthy (uuid_of p))); eauto.
Qed.

(** For a player with a stored watermark, when the notifier observes
    the same newest match on two consecutive ticks and its identifier
    differs from the watermark the first time, the first observation
    advances the watermark to that identifier and the two observations
    together produce exactly one announcement; the second observation has
    no effect: no announcement, and the state, watermark included, is
    unchanged. *)
Theorem watchStep_replay_announces_once (res : outcome value)
    (p i w : string) (state : State) :
  lastMatchId state !! p = Some (VStr w) →
  observedId res = Some i →
  i ≠ w →
  let first := watchStep res p state in
  let second := watchStep res p first.1 in
  lastMatchId first.1 !! p = Some (VStr i)
  ∧ (∃ msg, announcements (first.2 ++ second.2) = [msg])
  ∧ second = (first.1, []).
Proof.
  intros Hprev Hobs Hne first second.
  destruct (watchStep_new res p i w state Hobs Hprev Hne) as [msg Hfirst].
  assert (lastMatchId first.1 !! p = Some (VStr i)) as Hwm.
  { unfold first. rewrite Hfirst. simpl. apply lookup_insert_eq. }
  assert (second = (first.1, [])) as Hsecond by by apply watchStep_same with i.
  split; [done|]. split; [|done].
  exists msg. rewrite Hsecond. unfold first. by rewrite Hfirst.
Qed.

(** A step never moves the watermark of a player away from the identifier
    it observes for that player, and leaves the other watermarks alone. *)
Lemma watchStep_settled (net : string → outcome value) (p p' i : string)
    (state : State) :
  observedId (net p') = Some i →
  lastMatchId state !! p' = Some (VStr i) →
  lastMatchId (watchStep (net p) p state).1 !! p' = Some (VStr i).
Proof.
  intros Hobs' Hwm.
  destruct (observedId (net p)) as [j|] eqn:Hobs;
    [|by rewrite watchStep_nothing].
  destruct (decide (p = p')) as [->|Hne].
  - assert (j = i) as -> by congruence. by rewrite (watchStep_same _ _ i).
  - destruct (lastMatchId state !! p) as [[| | | |w| |]|] eqn:Hprev;
      try (rewrite (watchStep_first _ _ j) by (by rewrite ?Hprev);
           simpl; by rewrite lookup_insert_ne).
    destruct (decide (j = w)) as [->|Hjw].
    + by rewrite (watchStep_same _ _ w).
    + destruct (watchStep_new _ _ _ _ _ Hobs Hprev Hjw) as [msg ->].
      simpl. by rewrite lookup_insert_ne.
Qed.

Lemma watchStep_settles (net : string → outcome value) (p i : string)
    (state : State) :
  observedId (net p) = Some i →
  lastMatchId (watchStep (net p) p state).1 !! p = Some (VStr i).
Proof.
  intros Hobs.
  destruct (lastMatchId state !! p) as [[| | | |w| |]|] eqn:Hprev;
    try (rewrite (watchStep_first _ _ i) by (by rewrite ?Hprev);
         simpl; by rewrite lookup_insert_eq).
  destruct (decide (i = w)) as [->|Hiw].
  - by rewrite (watchStep_same _ _ w).
  - destruct (watchStep_new _ _ _ _ _ Hobs Hprev Hiw) as [msg ->].
    simpl. by rewrite lookup_insert_eq.
Qed.

(** After the loop over a roster every player of the roster whose newest
    match was observed has its identifier as watermark. *)
Lemma forEach_watchStep_settles (net : string → outcome value)
    (roster : list string) (p i : string) (state : State) :
  observedId (net p) = Some i →
  p ∈ roster ∨ lastMatchId state !! p = Some (VStr i) →
  lastMatchId (forEach (λ p, watchStep (net p) p) roster state).1 !! p
  = Some (VStr i).
Proof.
  intros Hobs. revert state. induction roster as [|p' roster IH]; intros state.
  - intros [Hin|Hwm]; [inversion Hin | done].
  - intros Hcase. cbn [forEach fst]. apply IH.
    destruct Hcase as [[->|Hin]%elem_of_cons|Hwm]; [right|by left|right].
    + by apply watchStep_settles.
    + by apply watchStep_settled.
Qed.

(** On a state in which every observed identifier is the watermark, the loop
    over the roster does nothing. *)
Lemma forEach_watchStep_idle (net : string → outcome value)
    (roster : list string) (state : State) :
  (∀ p i, p ∈ roster → observedId (net p) = Some i →
          lastMatchId state !! p = Some (VStr i)) →
  forEach (λ p, watchStep (net p) p) roster state = (state, []).
Proof.
  induction roster as [|p roster IH]; intros Hsettled; [done|].
  cbn [forEach].
  assert (watchStep (net p) p state = (state, [])) as ->.
  { destruct (observedId (net p)) as [i|] eqn:Hobs; [|by apply watchStep_nothing].
    apply watchStep_same with i; [done|]. apply Hsettled; [constructor|done]. }
  cbn [fst snd]. rewrite IH; [done|].
  intros p' i Hin. apply Hsettled. by constructor.
Qed.

(** Two consecutive ticks of the notifier that get the same responses: the
    second sends nothing and saves the state the first one left. *)
Lemma watchTick_replay_is_silent (net : string → outcome value) (loaded : State) :
  let first := watchTick net loaded in
  watchTick net first.1 = (first.1, [Saved first.1]).
Proof.
  unfold watchTick, watchTickOver. generalize players. intros roster. cbv zeta.
  cbn [fst]. rewrite forEach_watchStep_idle; [done|].
  intros p i Hin Hobs. apply forEach_watchStep_settles; auto.
Qed.

(** C5.  Cold start is silent.  A resolved best time for a pair that has no
    stored entry is stored, and the step has no effect besides; the
    identifier of the newest match of a player that has no stored
    watermark is stored as the watermark, and the step has no effect
    besides.  Neither announces anything. *)
Theorem cold_start_is_silent (t : Z) (oldTop3 : list value) (p : string)
    (l : number) (res : outcome value) (i : string) (state : State) :
  (stored state t p = VUndefined →
   pbStep t oldTop3 p (VNum l) state = (set_pb state t p (VNum l), [])
   ∧ stored (set_pb state t p (VNum l)) t p = VNum l)
  ∧ (lastMatchId state !! p = None → observedId res = Some i →
     watchStep res p state = (set_lastMatchId state p i, [])
     ∧ lastMatchId (set_lastMatchId state p i) !! p = Some (VStr i)).
Proof.
  split.
  - intros Hnone. split; [|apply stored_set_pb_eq].
    apply pbStep_replace. rewrite Hnone. intros (q & Hq & _). discriminate.
  - intros Hnone Hobs. split; [|apply lookup_insert_eq].
    apply watchStep_first; [done|]. by rewrite Hnone.
Qed.

(** ** Further properties: the PB updater *)

Lemma players_NoDup : NoDup players.
Proof. by apply (bool_decide_unpack _). Qed.

Lemma TRACK_TYPES_NoDup : NoDup TRACK_TYPES.
Proof. by apply (bool_decide_unpack _). Qed.

Lemma pbStep_stored_own (t : Z) (oldTop3 : list value) (p : string)
    (latest : value) (state : State) :
  stored (pbStep t oldTop3 p latest state).1 t p = reconcile (stored state t p) latest.
Proof.
  unfold pbStep, reconcile. fold (stored state t p).
  destruct latest as [| | |l| | |]; try done.
  destruct (negb (isFinite _) || num_leb _ _); cbn [fst];
    [apply stored_set_pb_eq|].
  destruct (num_ltb l _); cbn [fst]; [apply stored_set_pb_eq | done].
Qed.

Lemma forEach_pbStep_stored (t : Z) (oldTop3 : list value) (latest : string → value)
    (roster : list string) (state : State) (t' : Z) (p' : string) :
  NoDup roster →
  stored (forEach (λ p, pbStep t oldTop3 p (latest p)) roster state).1 t' p'
  = if decide (t = t' ∧ p' ∈ roster)
    then reconcile (stored state t' p') (latest p')
    else stored state t' p'.
Proof.
  intros Hnodup. revert state.
  induction Hnodup as [|p roster Hp Hnodup IH]; intros state; cbn [forEach fst].
  - rewrite decide_False; [done|]. intros [_ Hin]. inversion Hin.
  - rewrite IH. destruct (decide (t = t' ∧ p = p')) as [[-> ->]|Hne].
    + rewrite decide_False by tauto. rewrite decide_True by (split; [done|constructor]).
      apply pbStep_stored_own.
    + rewrite pbStep_frame by done.
      destruct (decide (t = t' ∧ p' ∈ roster)) as [[-> Hin]|Hout].
      * rewrite decide_True; [done|]. split; [done|]. by constructor.
      * rewrite decide_False; [done|]. intros [-> [->|Hin]%elem_of_cons]; tauto.
Qed.

Lemma pbCategory_stored (roster : list string)
    (net : string → Z → nat → outcome value) (t : Z) (state : State)
    (t' : Z) (p' : string) :
  NoDup roster →
  stored (pbCategory roster net t state).1 t' p'
  = if decide (t = t' ∧ p' ∈ roster)
    then reconcile (stored state t' p') (catch_null (fetchPBTime (net p' t') p' t'))
    else stored state t' p'.
Proof.
  intros Hnodup. unfold pbCategory. cbn [fst]. rewrite stored_set_top3.
  rewrite (forEach_pbStep_stored t _ (λ p, catch_null (fetchPBTime (net p t) p t)))
    by done.
  rewrite stored_ensure_pb. by destruct (decide (t = t' ∧ p' ∈ roster)) as [[-> _]|].
Qed.

Lemma pbTickOver_stored (types : list Z) (roster : list string)
    (net : string → Z → nat → outcome value) (boardFound : bool) (state : State)
    (t' : Z) (p' : string) :
  NoDup types → NoDup roster →
  stored (pbTickOver types roster net boardFound state).1 t' p'
  = if decide (t' ∈ types ∧ p' ∈ roster)
    then reconcile (stored state t' p') (catch_null (fetchPBTime (net p' t') p' t'))
    else stored state t' p'.
Proof.
  intros Htypes Hroster. unfold pbTickOver. cbn [fst]. revert state.
  induction Htypes as [|t types Ht Htypes IH]; intros state; cbn [forEach fst].
  - rewrite decide_False; [done|]. intros [Hin _]. inversion Hin.
  - rewrite IH, pbCategory_stored by done.
    destruct (decide (t = t' ∧ p' ∈ roster)) as [[-> Hin]|Hne].
    + rewrite decide_False by tauto. rewrite decide_True; [done|].
      split; [constructor|done].
    + destruct (decide (t' ∈ types ∧ p' ∈ roster)) as [[Hin Hp]|Hout].
      * rewrite decide_True; [done|]. split; [by constructor|done].
      * rewrite decide_False; [done|]. intros [[->|Hin]%elem_of_cons Hp]; tauto.
Qed.

(** After a tick of the PB updater the stored entry of a tracked category
    and roster player is the reconciliation of the entry it loaded with what
    the resolver produced for that pair alone; every other entry is as
    loaded. *)
Theorem pbTick_entry_reconciled (net : string → Z → nat → outcome value)
    (boardFound : bool) (loaded : State) (t : Z) (p : string) :
  stored (pbTick net boardFound loaded).1 t p
  = if decide (t ∈ TRACK_TYPES ∧ p ∈ players)
    then reconcile (stored loaded t p) (catch_null (fetchPBTime (net p t) p t))
    else stored loaded t p.
Proof.
  unfold pbTick. apply pbTickOver_stored; [apply TRACK_TYPES_NoDup | apply players_NoDup].
Qed.



Lemma pb_of_set_pb_ne (state : State) (t t' : Z) (p : string) (v : value) :
  t ≠ t' → pb_of (set_pb state t p v) t' = pb_of state t'.
Proof. intros Hne. unfold pb_of, set_pb. simpl. by rewrite lookup_insert_ne. Qed.

Lemma pbStep_pb_of_ne (t : Z) (oldTop3 : list value) (p : string) (latest : value)
    (state : State) (t' : Z) :
  t ≠ t' → pb_of (pbStep t oldTop3 p latest state).1 t' = pb_of state t'.
Proof.
  intros Hne. unfold pbStep. destruct latest as [| | |l| | |]; try done.
  destruct (negb (isFinite _) || num_leb _ _); cbn [fst];
    [by apply pb_of_set_pb_ne|].
  destruct (num_ltb l _); cbn [fst]; [by apply pb_of_set_pb_ne | done].
Qed.

Lemma pbStep_top3ByType (t : Z) (oldTop3 : list value) (p : string) (latest : value)
    (state : State) :
  top3ByType (pbStep t oldTop3 p latest state).1 = top3ByType state.
Proof.
  unfold pbStep. destruct latest as [| | |l| | |]; try done.
  destruct (negb (isFinite _) || num_leb _ _); [done|]. by destruct (num_ltb l _).
Qed.

Lemma pbCategory_top3Coherent (roster : list string)
    (net : string → Z → nat → outcome value) (t : Z) (state : State) :
  top3Coherent (pbCategory roster net t state).1 t.
Proof.
  unfold top3Coherent, pbCategory. cbn [fst]. simpl. by rewrite lookup_insert_eq.
Qed.

Lemma pbCategory_top3Coherent_other (roster : list string)
    (net : string → Z → nat → outcome value) (t t' : Z) (state : State) :
  t ≠ t' → top3Coherent state t' → top3Coherent (pbCategory roster net t state).1 t'.
Proof.
  intros Hne. unfold top3Coherent, pbCategory, computeTop3. cbn [fst].
  cbn [top3ByType set_top3]. rewrite lookup_insert_ne by done.
  change (pb_of (set_top3 ?s t ?v) t') with (pb_of s t').
  set (f := λ p, pbStep t _ p _).
  assert (pb_of (forEach f roster (ensure_pb state t)).1 t' = pb_of state t'
          ∧ top3ByType (forEach f roster (ensure_pb state t)).1 = top3ByType state)
    as [-> ->]; [|done].
  apply (forEach_invariant
           (λ s, pb_of s t' = pb_of state t' ∧ top3ByType s = top3ByType state)).
  - intros p s [Hpb Htop]. unfold f. by rewrite pbStep_pb_of_ne, pbStep_top3ByType.
  - split; [|done]. unfold pb_of, ensure_pb. simpl. by rewrite lookup_insert_ne.
Qed.

Lemma pbTickOver_top3Coherent (types : list Z) (roster : list string)
    (net : string → Z → nat → outcome value) (boardFound : bool) (state : State)
    (t : Z) :
  t ∈ types ∨ top3Coherent state t →
  top3Coherent (pbTickOver types roster net boardFound state).1 t.
Proof.
  unfold pbTickOver. cbn [fst]. revert state.
  induction types as [|t' types IH]; intros state.
  - intros [Hin|Hcoh]; [inversion Hin | done].
  - intros Hcase. cbn [forEach fst]. apply IH.
    destruct (decide (t' = t)) as [->|Hne].
    + right. apply pbCategory_top3Coherent.
    + destruct Hcase as [[->|Hin]%elem_of_cons|Hcoh]; [done|by left|right].
      by apply pbCategory_top3Coherent_other.
Qed.

(** After a tick of the PB updater the cached ranking of every tracked
    category is the ranking computed from the entries the tick leaves. *)
Theorem pbTick_top3_cache_coherent (net : string → Z → nat → outcome value)
    (boardFound : bool) (loaded : State) (t : Z) :
  t ∈ TRACK_TYPES →
  top3ByType (pbTick net boardFound loaded).1 !! t
  = Some (computeTop3 (pbTick net boardFound loaded).1 t).
Proof.
  intros Hin. unfold pbTick. apply pbTickOver_top3Coherent. by left.
Qed.

(** An effect of a loop is an effect of one of its steps. *)
Lemma forEach_effect_origin {A : Type} (f : A → State → State * list effect)
    (l : list A) (state : State) (e : effect) :
  e ∈ (forEach f l state).2 → ∃ x s, x ∈ l ∧ e ∈ (f x s).2.
Proof.
  revert state. induction l as [|x l IH]; intros state; cbn [forEach snd].
  - intros Hin. inversion Hin.
  - intros [Hin|Hin]%elem_of_app.
    + exists x, state. split; [constructor|done].
    + destruct (IH _ Hin) as (y & s & Hy & He). exists y, s. split; [by constructor|done].
Qed.

Lemma pbStep_announcesImprovements (t : Z) (oldTop3 : list value) (p : string)
    (latest : value) (state : State) (typeName p' : string) (l prev : number) :
  (∀ n, latest = VNum n → isTime n) →
  Sent (NewPB typeName p' l prev) ∈ (pbStep t oldTop3 p latest state).2 →
  p' = p ∧ typeName = typeLabel (VNum (ms t))
  ∧ isTime l ∧ isTime prev ∧ num_ltb l prev = true.
Proof.
  intros Hlatest. destruct latest as [| | |n| | |];
    try (intros Hin; by inversion Hin).
  destruct (negb (isFinite (ToNumber (stored state t p)))
            || num_leb (ToNumber (stored state t p)) (ms 0)) eqn:Hprev.
  { rewrite pbStep_replace; [intros Hin; by inversion Hin|].
    intros Htime%isTime_test. congruence. }
  apply isTime_test in Hprev.
  destruct (num_ltb n (ToNumber (stored state t p))) eqn:Hlt;
    [|rewrite pbStep_keep by done; intros Hin; by inversion Hin].
  rewrite pbStep_improve by done. cbn [snd].
  intros [Hin|[Hin|Hin]%elem_of_app]%elem_of_cons; [done| |].
  - destruct (placementAnnouncement_sent oldTop3
                (placementOf (set_pb state t p (VNum n)) t p) p
                (typeLabel (VNum (ms t))))
      as [[Hnone _]|(_ & _ & msg & Hmsg & Hsent)].
    + rewrite Hnone in Hin. inversion Hin.
    + rewrite Hsent in Hin. apply list_elem_of_singleton in Hin.
      injection Hin as <-. unfold getPlacementMessage in Hmsg.
      repeat case_decide; discriminate.
  - apply list_elem_of_singleton in Hin. injection Hin as -> -> -> ->.
    repeat split; auto.
Qed.

Lemma pbTickOver_announcesImprovements (types : list Z) (roster : list string)
    (net : string → Z → nat → outcome value) (boardFound : bool) (state : State) :
  announcesImprovements types roster (pbTickOver types roster net boardFound state).2.
Proof.
  intros typeName p l prev. unfold pbTickOver. cbn [snd].
  intros [Hin|Hin]%elem_of_app.
  - apply forEach_effect_origin in Hin as (t & s & Ht & Hin).
    unfold pbCategory in Hin. cbn [snd] in Hin.
    apply forEach_effect_origin in Hin as (q & s' & Hq & Hin).
    apply pbStep_announcesImprovements in Hin as (-> & -> & Hl & Hprev & Hlt).
    + repeat split; eauto.
    + intros n Hn. destruct (fetchPBTime (net q t) q t) as [v|] eqn:Hfetch;
        simpl in Hn; [|discriminate].
      subst v. by eapply fetchPBTime_isTime.
  - apply elem_of_cons in Hin as [Hin|Hin]; [discriminate|].
    destruct boardFound; [|inversion Hin].
    apply list_elem_of_singleton in Hin. discriminate.
Qed.

(** X4.  A tick of the PB updater announces a new PB only for a roster player and
    a tracked category, and only a finite, strictly positive time strictly
    below the finite, strictly positive time that was stored. *)
Theorem pbTick_announces_only_improvements
    (net : string → Z → nat → outcome value) (boardFound : bool) (loaded : State)
    (typeName p : string) (l prev : number) :
  Sent (NewPB typeName p l prev) ∈ (pbTick net boardFound loaded).2 →
  p ∈ players
  ∧ (∃ t, t ∈ TRACK_TYPES ∧ typeName = typeLabel (VNum (ms t)))
  ∧ isTime l ∧ isTime prev ∧ num_ltb l prev = true.
Proof. unfold pbTick. apply pbTickOver_announcesImprovements. Qed.

(** ** Further properties: the notifier *)

Lemma watchStep_frame (res : outcome value) (p p' : string) (state : State) :
  p ≠ p' → lastMatchId (watchStep res p state).1 !! p' = lastMatchId state !! p'.
Proof.
  intros Hne. unfold watchStep. cbv zeta.
  destruct (negb (truthy _)); [done|]. destruct (nullish _); [done|].
  destruct (default VUndefined _);
    try (cbn [fst set_lastMatchId lastMatchId]; by rewrite lookup_insert_ne).
  destruct (negb (bool_decide _)); [|done].
  destruct (negb (truthy _)); cbn [fst set_lastMatchId lastMatchId];
    by rewrite lookup_insert_ne.
Qed.

Lemma forEach_watchStep_untouched (net : string → outcome value)
    (roster : list string) (p : string) (state : State) :
  p ∉ roster ∨ observedId (net p) = None →
  lastMatchId (forEach (λ q, watchStep (net q) q) roster state).1 !! p
  = lastMatchId state !! p.
Proof.
  intros Hcase. revert state. induction roster as [|q roster IH]; intros state; [done|].
  cbn [forEach fst]. rewrite IH.
  - destruct (decide (q = p)) as [->|Hne]; [|by apply watchStep_frame].
    destruct Hcase as [Hout|Hnone]; [|by rewrite watchStep_nothing].
    exfalso. apply Hout. constructor.
  - destruct Hcase as [Hout|Hnone]; [left|by right].
    intros Hin. apply Hout. by constructor.
Qed.

(** After a tick of the notifier the watermark of a roster player whose
    newest match was observed is the identifier of that match; every other
    watermark is as loaded. *)
Theorem watchTick_watermarks (net : string → outcome value) (loaded : State)
    (p : string) :
  lastMatchId (watchTick net loaded).1 !! p
  = match observedId (net p) with
    | Some i => if decide (p ∈ players) then Some (VStr i) else lastMatchId loaded !! p
    | None => lastMatchId loaded !! p
    end.
Proof.
  unfold watchTick. generalize players. intros roster.
  unfold watchTickOver. cbv zeta. cbn [fst].
  destruct (observedId (net p)) as [i|] eqn:Hobs.
  - destruct (decide (p ∈ roster)) as [Hin|Hout].
    + apply forEach_watchStep_settles; auto.
    + apply forEach_watchStep_untouched. by left.
  - apply forEach_watchStep_untouched. by right.
Qed.

Lemma watchStep_announcements (res : outcome value) (p : string) (state : State) :
  (length (announcements (watchStep res p state).2) ≤ 1)%nat.
Proof.
  unfold watchStep. cbv zeta.
  destruct (negb (truthy _)); [simpl; lia|]. destruct (nullish _); [simpl; lia|].
  destruct (default VUndefined _); try (simpl; lia).
  destruct (negb (bool_decide _)); [|simpl; lia].
  destruct (negb (truthy _)); simpl; lia.
Qed.

Lemma announcements_app (e1 e2 : list effect) :
  announcements (e1 ++ e2) = announcements e1 ++ announcements e2.
Proof. apply omap_app. Qed.

Lemma announcementsAbout_app (p : string) (e1 e2 : list effect) :
  announcementsAbout p (e1 ++ e2) = announcementsAbout p e1 ++ announcementsAbout p e2.
Proof. unfold announcementsAbout. by rewrite announcements_app, List.filter_app. Qed.

Lemma watchStep_about (res : outcome value) (q : string) (state : State) (p : string) :
  (length (announcementsAbout p (watchStep res q state).2) ≤ 1)%nat
  ∧ (p ≠ q → announcementsAbout p (watchStep res q state).2 = []).
Proof.
  unfold watchStep. cbv zeta.
  destruct (negb (truthy _)); [by split; [cbn; lia|]|].
  destruct (nullish _); [by split; [cbn; lia|]|].
  destruct (default VUndefined _); try by split; [cbn; lia|].
  destruct (negb (bool_decide (_ = _))); [|by split; [cbn; lia|]].
  unfold announcementsAbout.
  destruct (negb (truthy _)); [destruct (_ || _)|]; cbn;
    (case_bool_decide; (split; [cbn; lia|]); [congruence|done]).
Qed.

Lemma forEach_watchStep_about (net : string → outcome value) (roster : list string)
    (state : State) (p : string) :
  NoDup roster →
  (length (announcementsAbout p (forEach (λ q, watchStep (net q) q) roster state).2) ≤ 1)%nat
  ∧ (p ∉ roster →
     announcementsAbout p (forEach (λ q, watchStep (net q) q) roster state).2 = []).
Proof.
  revert state. induction roster as [|q roster IH]; intros state Hnodup.
  { split; [cbn; lia|done]. }
  apply NoDup_cons in Hnodup as [Hq Hroster]. cbn [forEach snd].
  rewrite announcementsAbout_app, length_app.
  destruct (watchStep_about (net q) q state p) as [Hone Hother].
  destruct (IH (watchStep (net q) q state).1 Hroster) as [Hrest Hout].
  split.
  - destruct (decide (p = q)) as [->|Hne].
    + rewrite (Hout Hq). cbn [length]. lia.
    + rewrite (Hother Hne). cbn [length]. lia.
  - intros Hnotin. rewrite Hother, Hout; [done| |].
    + intros Hin. apply Hnotin. by constructor.
    + intros ->. apply Hnotin. constructor.
Qed.

(** X10.  A tick of the notifier sends at most one announcement about each
    player, and none about a player who is not on the roster. *)
Theorem watchTick_at_most_one_per_player (net : string → outcome value)
    (loaded : State) (p : string) :
  (length (announcementsAbout p (watchTick net loaded).2) ≤ 1)%nat
  ∧ (p ∉ players → announcementsAbout p (watchTick net loaded).2 = []).
Proof.
  pose proof players_NoDup as Hnodup. revert Hnodup.
  unfold watchTick. generalize players. intros roster Hnodup.
  unfold watchTickOver. cbv zeta. cbn [snd].
  rewrite announcementsAbout_app.
  change (announcementsAbout p [Saved _]) with (@nil announcement).
  rewrite app_nil_r. by apply forEach_watchStep_about.
Qed.

(** ** Further properties: rankings *)

Lemma insert_row_perm (x : string * number) (l : list (string * number)) :
  insert_row x l ≡ₚ x :: l.
Proof.
  induction l as [|y l IH]; simpl; [done|].
  destruct (num_ltb y.2 x.2); [|done]. rewrite IH. apply Permutation_swap.
Qed.

Lemma sort_rows_perm (l : list (string * number)) : sort_rows l ≡ₚ l.
Proof.
  induction l as [|x l IH]; simpl; [done|]. by rewrite insert_row_perm, IH.
Qed.

Lemma sortedRows_app (l1 l2 : list (string * number)) :
  sortedRows (l1 ++ l2) →
  sortedRows l1 ∧ ∀ a b, a ∈ l1 → b ∈ l2 → num_ltb b.2 a.2 = false.
Proof.
  induction l1 as [|x l1 IH]; simpl.
  - intros _. split; [constructor|]. intros a b Ha. inversion Ha.
  - intros Hsorted. apply StronglySorted_inv in Hsorted as [Hsorted Hx].
    destruct (IH Hsorted) as [Hl1 Hcross]. split.
    + constructor; [done|]. by apply Forall_app in Hx as [? _].
    + intros a b [->|Ha]%elem_of_cons Hb; [|by apply Hcross].
      apply Forall_app in Hx as [_ Hx]. rewrite Forall_forall in Hx. by apply Hx.
Qed.

(** X7.  The cached ranking names, in ascending order of time, the entries of the
    category that hold a time and are ranked first: at most three, all of
    them when there are fewer, and none of the entries left out is faster
    than one that is named. *)
Theorem computeTop3_fastest (state : State) (t : Z) :
  ∃ top rest,
    computeTop3 state t = VArr (map (λ r, VStr r.1) top)
    ∧ top ++ rest ≡ₚ timedRows (pb_of state t)
    ∧ length top = Nat.min 3 (length (timedRows (pb_of state t)))
    ∧ sortedRows top
    ∧ ∀ a b, a ∈ top → b ∈ rest → num_ltb b.2 a.2 = false.
Proof.
  exists (take 3 (ranked_rows (pb_of state t))), (drop 3 (ranked_rows (pb_of state t))).
  pose proof (sort_rows_sorted _ (timedRows_finite (pb_of state t))) as Hsorted.
  fold (ranked_rows (pb_of state t)) in Hsorted.
  rewrite <- (take_drop 3 (ranked_rows (pb_of state t))) in Hsorted.
  apply sortedRows_app in Hsorted as [Htop Hcross].
  split; [done|]. split; [rewrite take_drop; apply sort_rows_perm|].
  split; [|done].
  rewrite length_take. unfold ranked_rows.
  by rewrite (Permutation_length (sort_rows_perm _)).
Qed.

(** ** Further properties: the resolvers *)

Lemma scanMatches_resolved (puid : value) (l : list value) (best : number) :
  ∃ b, scanMatches puid l best = Resolved b.
Proof.
  revert best. induction l as [|m l IH]; intros best; cbn [scanMatches]; [by eexists|].
  destruct (isValidWinForPlayer m puid) eqn:Hv; cbn [negb]; [|apply IH].
  rewrite result_time_carriesTime by by eapply isValidWinForPlayer_carriesTime.
  cbn [mbind outcome_bind]. destruct (_ && _); apply IH.
Qed.

Lemma scanPages_requests (pages : nat → outcome value) (puid : value)
    (fuel page : nat) (best b : number) (n : nat) :
  scanPages pages puid fuel page best = Resolved (b, n) →
  (page ≤ n ≤ page + fuel)%nat.
Proof.
  revert page best. induction fuel as [|fuel IH]; intros page best; cbn [scanPages].
  - inversion 1; subst; lia.
  - destruct (pages page) as [body|]; [|discriminate]. cbn [mbind outcome_bind].
    destruct (body?.["data"]) as [| | | | |[|m rest]|];
      try by (inversion 1; subst; lia).
    destruct (scanMatches_resolved puid (m :: rest) best) as [b' ->].
    cbn [mbind outcome_bind]. destruct (nullish _).
    + inversion 1; subst; lia.
    + intros Hscan. apply IH in Hscan. lia.
Qed.

Lemma scanPages_ext (pages pages' : nat → outcome value) (puid : value)
    (fuel page : nat) (best : number) :
  (∀ i, (page ≤ i < page + fuel)%nat → pages i = pages' i) →
  scanPages pages puid fuel page best = scanPages pages' puid fuel page best.
Proof.
  revert page best. induction fuel as [|fuel IH]; intros page best Hext;
    cbn [scanPages]; [done|].
  rewrite <- (Hext page) by lia. destruct (pages page) as [body|]; [|done].
  cbn [mbind outcome_bind].
  destruct (body?.["data"]) as [| | | | |[|m rest]|]; try done.
  destruct (scanMatches_resolved puid (m :: rest) best) as [b' ->].
  cbn [mbind outcome_bind]. destruct (nullish _); [done|].
  apply IH. intros i Hi. apply Hext. lia.
Qed.

(** X12.  The bounded scan never issues more than 20 requests, and what it returns
    does not depend on what the source would deliver beyond the 20th. *)
Theorem fetchCasualPrivatePB_ceiling (pages pages' : nat → outcome value)
    (player : string) :
  (∀ v n, fetchCasualPrivatePB_run pages player = Resolved (v, n) → (n ≤ 20)%nat)
  ∧ ((∀ i, (i < 20)%nat → pages i = pages' i) →
     fetchCasualPrivatePB pages player = fetchCasualPrivatePB pages' player).
Proof.
  split.
  - intros v n. unfold fetchCasualPrivatePB_run.
    destruct (negb (truthy (uuid_of player))); [inversion 1; lia|].
    destruct (scanPages _ _ _ _ _) as [[b k]|] eqn:Hscan; [|discriminate].
    apply scanPages_requests in Hscan. unfold MAX_PAGES in Hscan.
    cbn [mbind outcome_bind mret outcome_ret fst snd]. inversion 1; subst. lia.
  - intros Hext. unfold fetchCasualPrivatePB, fetchCasualPrivatePB_run.
    destruct (negb (truthy (uuid_of player))); [done|].
    by rewrite (scanPages_ext pages pages') by (intros i Hi; apply Hext; unfold MAX_PAGES in Hi; lia).
Qed.

Lemma scanPages_rejected (pages : nat → outcome value) (bodies : nat → value)
    (puid : value) (j fuel page : nat) (best : number) :
  (page ≤ j < page + fuel)%nat →
  (∀ i, (page ≤ i < j)%nat →
        pages i = Resolved (bodies i) ∧ scanEndsAt bodies i = false) →
  pages j = Rejected →
  scanPages pages puid fuel page best = Rejected.
Proof.
  revert page best. induction fuel as [|fuel IH]; intros page best Hj Hbefore Hrej;
    [lia|].
  cbn [scanPages]. destruct (decide (page = j)) as [->|Hne]; [by rewrite Hrej|].
  destruct (Hbefore page) as [Hpage Hgo]; [lia|]. rewrite Hpage.
  cbn [mbind outcome_bind]. unfold scanEndsAt, noMatches, lastIdMissing, matchesOf in Hgo.
  destruct ((bodies page)?.["data"]) as [| | | | |[|m rest]|]; try discriminate.
  destruct (scanMatches_resolved puid (m :: rest) best) as [b' ->].
  cbn [mbind outcome_bind]. cbn [orb] in Hgo. rewrite Hgo.
  apply IH; [lia | | done]. intros i Hi. apply Hbefore. lia.
Qed.

(** X13.  When a request of the bounded scan is rejected, after pages that were
    delivered and did not end the scan, the whole call is rejected: the
    minimum found so far is not returned. *)
Theorem fetchCasualPrivatePB_rejected (pages : nat → outcome value)
    (bodies : nat → value) (player : string) (j : nat) :
  truthy (uuid_of player) = true →
  (j < 20)%nat →
  (∀ i, (i < j)%nat → pages i = Resolved (bodies i) ∧ scanEndsAt bodies i = false) →
  pages j = Rejected →
  fetchCasualPrivatePB pages player = Rejected.
Proof.
  intros Hpuid Hj Hbefore Hrej. unfold fetchCasualPrivatePB, fetchCasualPrivatePB_run.
  rewrite Hpuid. cbn [negb].
  rewrite (scanPages_rejected pages bodies _ j); try done.
  - unfold MAX_PAGES. lia.
  - intros i Hi. apply Hbefore. lia.
Qed.

(** X14.  Whatever the source delivers, a best time that resolves is null or a
    finite, strictly positive number. *)
Theorem fetchPBTime_null_or_time (pages : nat → outcome value) (player : string)
    (matchType : Z) (v : value) :
  fetchPBTime pages player matchType = Resolved v →
  v = VNull ∨ ∃ n, v = VNum n ∧ isTime n.
Proof.
  intros Hfetch.
  assert (v = VNull ∨ ∃ n, v = VNum n) as [->|[n ->]]; [|by left|].
  - revert Hfetch. unfold fetchPBTime. destruct (decide (matchType = 2)) as [_|_].
    + unfold fetchRankedPB. destruct (pages O) as [body|]; [|discriminate].
      cbn [mbind outcome_bind].
      destruct (body?.["data"]) as [| | | | |[|m rest]|];
        try (intros [= <-]; by left).
      rewrite rankedLoop_firstValidated. unfold firstValidated.
      destruct (List.find _ _); intros [= <-]; eauto.
    + destruct (decide (matchType = 1 ∨ matchType = 3)) as [_|_];
        [|intros [= <-]; by left].
      unfold fetchCasualPrivatePB, fetchCasualPrivatePB_run.
      destruct (negb (truthy (uuid_of player))); [intros [= <-]; by left|].
      destruct (scanPages _ _ _ _ _) as [[b k]|]; [|discriminate].
      cbn. destruct (num_eqb b PosInf); intros [= <-]; eauto.
  - right. exists n. split; [done|]. by eapply fetchPBTime_isTime.
Qed.

(** ** Further properties: startup *)

Lemma buildUuidMapOver_lookup (roster : list string) (net : string → outcome value)
    (acc : gmap string value) (p : string) :
  buildUuidMapOver roster net acc !! p
  = if decide (p ∈ roster ∧ truthy (catch_null (fetchUserUUID (net p))) = true)
    then Some (catch_null (fetchUserUUID (net p)))
    else acc !! p.
Proof.
  clear StringToNumber ObjectToString NumberToString.
  revert acc. induction roster as [|q roster IH]; intros acc; cbn [buildUuidMapOver].
  - rewrite decide_False; [done|]. intros [Hin _]. inversion Hin.
  - rewrite IH. clear IH. destruct (decide (q = p)) as [->|Hne].
    + set (up := catch_null (fetchUserUUID (net p))).
      destruct (truthy up) eqn:Hu.
      * rewrite lookup_insert_eq.
        rewrite (decide_True (P := p ∈ p :: roster ∧ true = true))
          by (split; [constructor|done]).
        by destruct (decide _).
      * rewrite !decide_False by (by intros [_ ?]). done.
    + set (up := catch_null (fetchUserUUID (net p))).
      set (uq := catch_null (fetchUserUUID (net q))).
      destruct (decide (p ∈ roster ∧ truthy up = true)) as [[Hin Hu]|Hout].
      * rewrite decide_True; [done|]. split; [by constructor|done].
      * rewrite decide_False.
        -- destruct (truthy uq); [by rewrite lookup_insert_ne|done].
        -- intros [[->|Hin]%elem_of_cons Hu]; tauto.
Qed.

(** X17.  The identity map built at startup holds an identity for a player exactly
    when the player is on the roster and the request for it delivered a
    non-empty identity; it never holds null, undefined or an empty token. *)
Theorem buildUuidMap_known_identities (net : string → outcome value) (p : string)
    (v : value) :
  buildUuidMap net !! p = Some v
  ↔ p ∈ players ∧ catch_null (fetchUserUUID (net p)) = v ∧ truthy v = true.
Proof.
  clear StringToNumber NumberToString.
  unfold buildUuidMap. rewrite buildUuidMapOver_lookup.
  destruct (decide (_ ∧ _)) as [[Hin Hu]|Hout].
  - split; [intros [= <-]; auto | intros (_ & <- & _); done].
  - rewrite lookup_empty. split; [discriminate|]. intros (Hin & <- & Hu). tauto.
Qed.


(** ** Further properties: rendering *)

Lemma this_wholeMs (z : Z) : (this (wholeMs z) == inject_Z z)%Q.
Proof. unfold wholeMs. simpl. apply Qred_correct. Qed.

Lemma this_Qcdiv (x y : Qc) : (this (x / y)%Qc == this x / this y)%Q.
Proof. unfold Qcdiv, Qcmult, Qcinv. simpl. rewrite !Qred_correct. reflexivity. Qed.

Lemma Qfloor_wholeMs (z : Z) : Qfloor (wholeMs z) = z.
Proof. rewrite this_wholeMs. apply Qfloor_Z. Qed.

Lemma Qfloor_wholeMs_div (z : Z) (c : BinNums.positive) :
  Qfloor (wholeMs z / wholeMs (Zpos c))%Qc = z / Zpos c.
Proof.
  rewrite this_Qcdiv, !this_wholeMs.
  unfold Qdiv, Qinv, Qmult, Qfloor, inject_Z. simpl. by rewrite Z.mul_1_r.
Qed.

Lemma wholeMs_sub_mul (a b k : Z) :
  (wholeMs a - wholeMs b * wholeMs k)%Qc = wholeMs (a - b * k).
Proof.
  apply Qc_is_canon. unfold Qcminus, Qcplus, Qcopp, Qcmult. simpl.
  rewrite !Qred_correct. unfold Z.sub.
  rewrite inject_Z_plus, inject_Z_opp, inject_Z_mult. reflexivity.
Qed.

Lemma wholeMs_div_nonneg (z : Z) (c : BinNums.positive) :
  0 ≤ z → (Q2Qc 0 <= wholeMs z / wholeMs (Zpos c))%Qc.
Proof.
  intros Hz. unfold Qcle. rewrite this_Qcdiv, !this_wholeMs.
  unfold Qle, Qdiv, Qinv, Qmult, inject_Z. simpl. lia.
Qed.

(** On a whole, non-negative number of milliseconds the quotient floored and
    the remainder are the integer quotient and remainder. *)
Lemma num_floor_div_whole (z : Z) (c : BinNums.positive) :
  num_floor (num_div (Fin (wholeMs z)) (wholeMs (Zpos c))) = Fin (wholeMs (z / Zpos c)).
Proof. cbn [num_div num_floor]. by rewrite Qfloor_wholeMs_div. Qed.

Lemma num_rem_whole (z : Z) (c : BinNums.positive) :
  0 ≤ z → num_rem (Fin (wholeMs z)) (wholeMs (Zpos c)) = Fin (wholeMs (z mod Zpos c)).
Proof.
  intros Hz. cbn [num_rem]. unfold Qc_trunc.
  assert (Qc_ltb (wholeMs z / wholeMs (Z.pos c)) (Q2Qc 0) = false) as ->
    by by apply Qc_ltb_ge, wholeMs_div_nonneg.
  rewrite Qfloor_wholeMs_div. fold (wholeMs (z / Z.pos c)).
  rewrite wholeMs_sub_mul. by rewrite Z.mod_eq by lia.
Qed.

(** X19.  On a whole number of milliseconds [z], non-negative and below 2^53,
    [formatTime] prints three whole numbers: minutes, then seconds between 0
    and 59 padded to two characters, then milliseconds between 0 and 999
    padded to three; together they make up [z]. *)
Theorem formatTime_whole_ms (z : Z) :
  0 ≤ z < 2 ^ 53 →
  ∃ minutes seconds millis,
    formatTime (ms z)
    = NumberToString (ms minutes) +:+ ":"
      +:+ padStart 2 "0"%char (NumberToString (ms seconds)) +:+ "."
      +:+ padStart 3 "0"%char (NumberToString (ms millis))
    ∧ 0 ≤ minutes ∧ 0 ≤ seconds < 60 ∧ 0 ≤ millis < 1000
    ∧ z = 60000 * minutes + 1000 * seconds + millis.
Proof.
  intros [Hz _]. exists (z / 60000), (z mod 60000 / 1000), (z mod 1000).
  split; [|Z.to_euclidean_division_equations; lia].
  unfold formatTime, ms. fold (wholeMs z) (wholeMs 60000) (wholeMs 1000).
  rewrite !num_rem_whole by done. rewrite !num_floor_div_whole. done.
Qed.

Lemma append_nonempty (x y : string) : x ≠ "" → x +:+ y ≠ "".
Proof. by destruct x. Qed.

Lemma joinWith_nonempty (sep x : string) (rest : list string) :
  x ≠ "" → joinWith sep (x :: rest) ≠ "".
Proof. intros Hx. destruct rest; cbn [joinWith]; [done|by apply append_nonempty]. Qed.

(** X20.  [getOpponentNamesFromMatch] never returns the empty string: it names at
    least one opponent by a non-empty nickname, or falls back to a label. *)
Theorem getOpponentNamesFromMatch_nonempty (m playerUuid : value) :
  getOpponentNamesFromMatch m playerUuid ≠ "".
Proof.
  unfold getOpponentNamesFromMatch. cbv zeta.
  set (named := List.filter nonEmptyString _).
  destruct (List.filter _ named) as [|x opps] eqn:Hopps.
  - by destruct (List.find _ _).
  - assert (In x (List.filter (λ name, negb (strict_eq name (VStr RANKED_BOT))) named))
      as Hx by (rewrite Hopps; by left).
    apply filter_In in Hx as [Hx _]. apply filter_In in Hx as [_ Hx].
    cbn [map]. apply joinWith_nonempty.
    destruct x as [| | | |name| |]; try discriminate. simpl in *.
    intros ->. done.
Qed.

(** X21.  The rating found for a player is a number or null, and an entry of the
    rating-change list that carries the player's identity and a numeric
    rating takes precedence over the participant list. *)
Theorem getEloForPlayerFromMatch_number_or_null (m playerUuid : value) :
  (getEloForPlayerFromMatch m playerUuid = VNull
   ∨ is_number (getEloForPlayerFromMatch m playerUuid) = true)
  ∧ ∀ changes c,
      m?.["changes"] = VArr changes →
      List.find (λ x, strict_eq x?.["uuid"] playerUuid && is_number x?.["eloRate"])
        changes = Some c →
      getEloForPlayerFromMatch m playerUuid = c?.["eloRate"].
Proof.
  assert (∀ c, is_number c?.["eloRate"] = true → truthy c = true) as Hobj.
  { intros c. by destruct c. }
  unfold getEloForPlayerFromMatch. split.
  - assert (∀ l : list value,
              match List.find (λ x, strict_eq x?.["uuid"] playerUuid) l with
              | Some pl => if truthy pl && is_number pl?.["eloRate"]
                           then pl?.["eloRate"] else VNull
              | None => VNull
              end = VNull
              ∨ is_number
                  match List.find (λ x, strict_eq x?.["uuid"] playerUuid) l with
                  | Some pl => if truthy pl && is_number pl?.["eloRate"]
                               then pl?.["eloRate"] else VNull
                  | None => VNull
                  end = true) as Hplayers.
    { intros l. destruct (List.find _ l) as [pl|]; [|by left].
      destruct (truthy pl); [|by left].
      destruct (is_number pl?.["eloRate"]) eqn:Helo; [by right|by left]. }
    assert (match m?.["players"] with
            | VArr l =>
                match List.find (λ x, strict_eq x?.["uuid"] playerUuid) l with
                | Some pl => if truthy pl && is_number pl?.["eloRate"]
                             then pl?.["eloRate"] else VNull
                | None => VNull
                end
            | _ => VNull
            end = VNull
            ∨ is_number
                match m?.["players"] with
                | VArr l =>
                    match List.find (λ x, strict_eq x?.["uuid"] playerUuid) l with
                    | Some pl => if truthy pl && is_number pl?.["eloRate"]
                                 then pl?.["eloRate"] else VNull
                    | None => VNull
                    end
                | _ => VNull
                end = true) as Hfallback.
    { destruct (m?.["players"]); try by left. apply Hplayers. }
    destruct (m?.["changes"]) as [| | | | |l|]; try done.
    destruct (List.find _ l) as [c|] eqn:Hfind; [|done].
    apply find_some in Hfind as [_ [_ Helo]%andb_true_iff].
    rewrite Helo, (Hobj c Helo). by right.
  - intros changes c -> Hfind. rewrite Hfind.
    apply find_some in Hfind as [_ [_ Helo]%andb_true_iff].
    by rewrite Helo, (Hobj c Helo).
Qed.

(** X22.  A match that the validator counts as a win of the tracked player is
    rendered as a win of that player with the formatted completion time. *)
Theorem buildRankedResultMessage_countable_win (trackedName : string)
    (trackedUuid match_ : value) :
  isValidWinForPlayer match_ trackedUuid = true →
  buildRankedResultMessage trackedName trackedUuid match_
  = BeatIn trackedName (getOpponentNamesFromMatch match_ trackedUuid)
      (formatTime (ToNumber match_?.["result"]?.["time"]))
      (typeLabel match_?.["type"])
      (match getEloForPlayerFromMatch match_ trackedUuid with
       | VNum n => Some n
       | _ => None
       end).
Proof.
  unfold isValidWinForPlayer, buildRankedResultMessage. cbv zeta.
  destruct (isFinite (ToNumber match_?.["result"]?.["time"])); [|done].
  cbn [negb orb]. destruct (num_leb _ _); [done|].
  destruct (truthy match_?.["forfeited"]); [done|].
  destruct (truthy match_?.["result"]?.["uuid"]) eqn:Hw; [|done].
  cbn [negb orb]. rewrite Hw. destruct (truthy trackedUuid); [|done].
  cbn [negb andb]. by intros ->.
Qed.

(** X23.  Whatever the forfeit flag and the completion time of a match, its
    result is rendered as a win of the tracked player exactly when the match
    carries a non-empty winner identity equal to the tracked identity, and
    as a loss exactly when it carries a non-empty winner identity that
    differs from it. *)
Theorem buildRankedResultMessage_verdict (trackedName : string)
    (trackedUuid match_ : value) :
  let winner := match_?.["result"]?.["uuid"] in
  let text := buildRankedResultMessage trackedName trackedUuid match_ in
  reportsWin text = truthy winner && strict_eq winner trackedUuid
  ∧ reportsLoss text = truthy winner && negb (strict_eq winner trackedUuid).
Proof.
  cbv zeta. unfold buildRankedResultMessage. cbv zeta.
  destruct (truthy match_?.["result"]?.["uuid"]) eqn:Hwinner.
  - rewrite Hwinner. cbn [andb].
    destruct (strict_eq match_?.["result"]?.["uuid"] trackedUuid);
      destruct (truthy match_?.["forfeited"] || negb (isFinite _)); done.
  - cbn [truthy andb].
    destruct (truthy match_?.["forfeited"] || negb (isFinite _)); done.
Qed.

(** ** Further properties: the initial build *)

Lemma initStep_stored (t : Z) (p : string) (time : value) (state : State)
    (t' : Z) (p' : string) :
  stored (initStep t p time state).1 t' p'
  = if decide (t = t' ∧ p = p') then overwrite (stored state t' p') time
    else stored state t' p'.
Proof.
  unfold initStep, overwrite. destruct (is_number time); cbn [fst].
  - destruct (decide (t = t' ∧ p = p')) as [[-> ->]|Hne];
      [apply stored_set_pb_eq | by apply stored_set_pb_ne].
  - by destruct (decide _).
Qed.

Lemma forEach_initStep_stored (t : Z) (latest : string → value)
    (roster : list string) (state : State) (t' : Z) (p' : string) :
  stored (forEach (λ p, initStep t p (latest p)) roster state).1 t' p'
  = if decide (t = t' ∧ p' ∈ roster)
    then overwrite (stored state t' p') (latest p')
    else stored state t' p'.
Proof.
  clear StringToNumber NumberToString.
  revert state. induction roster as [|p roster IH]; intros state; cbn [forEach fst].
  - rewrite decide_False; [done|]. intros [_ Hin]. inversion Hin.
  - rewrite IH, initStep_stored. unfold overwrite.
    destruct (decide (t = t' ∧ p = p')) as [[-> ->]|Hne].
    + rewrite (decide_True (P := t' = t' ∧ p' ∈ p' :: roster))
        by (split; [done|constructor]).
      destruct (decide _); by destruct (is_number (latest p')).
    + destruct (decide (t = t' ∧ p' ∈ roster)) as [[-> Hin]|Hout].
      * rewrite decide_True; [done|]. split; [done|by constructor].
      * rewrite decide_False; [done|]. intros [-> [->|Hin]%elem_of_cons]; tauto.
Qed.

Lemma forEach_silent {A : Type} (f : A → State → State * list effect)
    (l : list A) (state : State) :
  (∀ x s, (f x s).2 = []) → (forEach f l state).2 = [].
Proof.
  intros Hf. revert state. induction l as [|x l IH]; intros state; [done|].
  cbn [forEach snd]. by rewrite Hf, IH.
Qed.

Lemma initCategory_stored (roster : list string)
    (net : string → Z → nat → outcome value) (t : Z) (state : State)
    (t' : Z) (p' : string) :
  stored (initCategory roster net t state).1 t' p'
  = if decide (t = t' ∧ p' ∈ roster)
    then overwrite (stored state t' p') (catch_null (fetchPBTime (net p' t') p' t'))
    else stored state t' p'.
Proof.
  unfold initCategory. cbn [fst]. rewrite stored_set_top3.
  rewrite (forEach_initStep_stored t (λ p, catch_null (fetchPBTime (net p t) p t))).
  rewrite stored_ensure_pb. by destruct (decide (t = t' ∧ p' ∈ roster)) as [[-> _]|].
Qed.

Lemma initialBuildOver_stored (types : list Z) (roster : list string)
    (net : string → Z → nat → outcome value) (state : State) (t' : Z) (p' : string) :
  NoDup types →
  stored (initialBuildOver types roster net state).1 t' p'
  = if decide (t' ∈ types ∧ p' ∈ roster)
    then overwrite (stored state t' p') (catch_null (fetchPBTime (net p' t') p' t'))
    else stored state t' p'.
Proof.
  intros Htypes. unfold initialBuildOver. cbn [fst]. revert state.
  induction Htypes as [|t types Ht Htypes IH]; intros state; cbn [forEach fst].
  - rewrite decide_False; [done|]. intros [Hin _]. inversion Hin.
  - rewrite IH, initCategory_stored.
    destruct (decide (t = t' ∧ p' ∈ roster)) as [[-> Hin]|Hne].
    + rewrite decide_False by tauto. rewrite decide_True; [done|].
      split; [constructor|done].
    + destruct (decide (t' ∈ types ∧ p' ∈ roster)) as [[Hin Hp]|Hout].
      * rewrite decide_True; [done|]. split; [by constructor|done].
      * rewrite decide_False; [done|]. intros [[->|Hin]%elem_of_cons Hp]; tauto.
Qed.

Lemma initialBuildOver_effects (types : list Z) (roster : list string)
    (net : string → Z → nat → outcome value) (state : State) :
  (initialBuildOver types roster net state).2
  = [Saved (initialBuildOver types roster net state).1;
     BoardEdited (initialBuildOver types roster net state).1].
Proof.
  unfold initialBuildOver. cbn [fst snd]. rewrite forEach_silent; [done|].
  intros t s. unfold initCategory. cbn [snd]. apply forEach_silent.
  intros p s'. unfold initStep. by destruct (is_number _).
Qed.

(** X24.  The initial build stores, for every tracked category and roster player,
    the number the resolver produced, whatever was stored before, greater or
    not; it keeps the stored entry when the resolver produced none.  All it
    does besides is to save the state it leaves and to edit the board:
    nothing is announced. *)
Theorem initialBuild_overwrites (net : string → Z → nat → outcome value)
    (loaded : State) (t : Z) (p : string) :
  stored (initialBuild net loaded).1 t p
  = (if decide (t ∈ TRACK_TYPES ∧ p ∈ players)
     then overwrite (stored loaded t p) (catch_null (fetchPBTime (net p t) p t))
     else stored loaded t p)
  ∧ (initialBuild net loaded).2
    = [Saved (initialBuild net loaded).1; BoardEdited (initialBuild net loaded).1].
Proof.
  unfold initialBuild. split.
  - apply initialBuildOver_stored, TRACK_TYPES_NoDup.
  - apply initialBuildOver_effects.
Qed.

(** ** Further properties: the board *)

Lemma boardEntries_perm (roster : list string) (state : State) (t : Z) :
  boardEntries roster state t
  ≡ₚ List.filter (λ r, isFinite r.2)
       (map (λ p, (p, ToNumber (stored state t p))) roster).
Proof. apply sort_rows_perm. Qed.

Lemma boardEntries_nil (roster : list string) (state : State) (t : Z) :
  boardEntries roster state t = []
  ↔ ∀ p, p ∈ roster → isFinite (ToNumber (stored state t p)) = false.
Proof.
  split.
  - intros Hnil p Hp. apply not_true_is_false. intros Hfin.
    pose proof (boardEntries_perm roster state t) as Hperm. rewrite Hnil in Hperm.
    apply Permutation_nil in Hperm.
    assert (In (p, ToNumber (stored state t p))
              (List.filter (λ r, isFinite r.2)
                 (map (λ p, (p, ToNumber (stored state t p))) roster))) as Hin.
    { apply filter_In. split; [|done]. apply in_map_iff. exists p.
      split; [done|]. by apply list_elem_of_In. }
    rewrite Hperm in Hin. inversion Hin.
  - intros Hnone. apply Permutation_nil. rewrite boardEntries_perm.
    assert (List.filter (λ r, isFinite r.2)
              (map (λ p, (p, ToNumber (stored state t p))) roster) = []) as ->; [|done].
    induction roster as [|q roster IH]; [done|]. cbn [map List.filter snd].
    rewrite (Hnone q) by constructor. apply IH. intros p Hp. apply Hnone.
    by constructor.
Qed.

Lemma boardRowsFrom_length (i : nat) (entries : list (string * number)) :
  length (boardRowsFrom i entries) = length entries.
Proof.
  revert i. induction entries as [|r entries IH]; intros i; [done|].
  cbn [boardRowsFrom length]. by rewrite IH.
Qed.

(** X25.  The lines of a category on the board are its header, then either the
    single line saying that there are no completions, exactly when no roster
    player has a stored value that reads as a finite number, or one row per
    such player, in ascending order of the value; then a blank line. *)
Theorem boardCategoryLines_rows (roster : list string) (state : State) (t : Z) :
  ∃ body,
    boardCategoryLines roster state t
    = BoardHeader (typeLabel (VNum (ms t))) :: body ++ [BoardBlank]
    ∧ sortedRows (boardEntries roster state t)
    ∧ boardEntries roster state t
      ≡ₚ List.filter (λ r, isFinite r.2)
           (map (λ p, (p, ToNumber (stored state t p))) roster)
    ∧ ((body = [BoardNoCompletions]
        ∧ ∀ p, p ∈ roster → isFinite (ToNumber (stored state t p)) = false)
       ∨ (body = boardRowsFrom O (boardEntries roster state t)
          ∧ length body = length (boardEntries roster state t)
          ∧ ∃ p, p ∈ roster ∧ isFinite (ToNumber (stored state t p)) = true)).
Proof.
  unfold boardCategoryLines.
  assert (sortedRows (boardEntries roster state t)) as Hsorted.
  { apply sort_rows_sorted. rewrite Forall_forall. intros r Hr.
    by apply list_elem_of_In, filter_In in Hr as [_ Hr]. }
  pose proof (boardEntries_perm roster state t) as Hperm.
  pose proof (boardEntries_nil roster state t) as Hnil.
  destruct (boardEntries roster state t) as [|r rest] eqn:Hentries.
  - exists [BoardNoCompletions]. repeat split; try done. left. split; [done|].
    by apply Hnil.
  - exists (boardRowsFrom O (r :: rest)). repeat split; try done. right.
    split; [done|]. split; [apply boardRowsFrom_length|].
    assert (In r (List.filter (λ r, isFinite r.2)
                    (map (λ p, (p, ToNumber (stored state t p))) roster))) as Hin.
    { apply list_elem_of_In. rewrite <- Hperm. constructor. }
    apply filter_In in Hin as [Hin Hfin].
    apply in_map_iff in Hin as (p & <- & Hp).
    exists p. split; [by apply list_elem_of_In | done].
Qed.

(** ** The callbacks on the shared variable: what a turn does *)

Lemma pbTypes_quiet (roster : list string) (types : list Z) (σ : Memory) :
  announcements (emitted (pbTypes roster types σ)) = []
  ∧ pendingSends (next (pbTypes roster types σ)) = [].
Proof.
  revert σ. induction types as [|t types IH]; intros σ; cbn [pbTypes]; [done|].
  unfold pbPlayers. destruct roster as [|p rest] eqn:Hroster; [apply IH|done].
Qed.

Lemma pbTypes_holds (J : State → Prop) (roster : list string) (types : list Z)
    (σ : Memory) :
  keptByCategories J → holdsIn J σ → holdsIn J (after (pbTypes roster types σ)).
Proof.
  intros [Hensure Htop3]. revert σ.
  induction types as [|t types IH]; intros σ [Hcur Hfile]; cbn [pbTypes].
  - by split.
  - unfold pbPlayers. destruct roster as [|p rest] eqn:Hroster.
    + apply IH. split; cbn; [|done]. by apply Htop3, Hensure.
    + split; cbn; [|done]. by apply Hensure.
Qed.


Lemma proceed_quiet (roster : list string) (k : continuation) (σ : Memory) :
  announcements (emitted (proceed roster k σ)) = []
  ∧ pendingSends (next (proceed roster k σ)) = [].
Proof.
  destruct k as [t old rest types|rest|]; cbn [proceed]; [| |done].
  - unfold pbPlayers. destruct rest; [apply pbTypes_quiet|done].
  - by destruct rest.
Qed.

Lemma proceed_holds (J : State → Prop) (roster : list string) (k : continuation)
    (σ : Memory) :
  keptByCategories J → holdsIn J σ → holdsIn J (after (proceed roster k σ)).
Proof.
  intros HJ [Hcur Hfile]. destruct k as [t old rest types|rest|]; cbn [proceed].
  - unfold pbPlayers. destruct rest; [|by split].
    apply pbTypes_holds; [done|]. split; cbn; [|done]. by apply HJ.
  - destruct rest; by split.
  - by split.
Qed.


(** The sends of a list of effects are sent in order: the first at once, the
    others one at each acknowledgement. *)
Lemma emit_announcements (roster : list string) (effs : list effect)
    (k : continuation) (σ : Memory) :
  announcements (emitted (emit roster effs k σ))
  ++ pendingSends (next (emit roster effs k σ))
  = announcements effs.
Proof.
  revert σ. induction effs as [|[s|msg|s] effs IH]; intros σ; cbn [emit].
  - destruct (proceed_quiet roster k σ) as [-> ->]. done.
  - cbn [emitted next]. apply (IH (saveState σ)).
  - done.
  - done.
Qed.

Lemma emit_holds (J : State → Prop) (roster : list string) (effs : list effect)
    (k : continuation) (σ : Memory) :
  keptByCategories J → holdsIn J σ → holdsIn J (after (emit roster effs k σ)).
Proof.
  intros HJ. revert σ. induction effs as [|[s|msg|s] effs IH]; intros σ Hσ; cbn [emit].
  - by apply proceed_holds.
  - cbn [after]. apply IH. destruct Hσ. by split.
  - done.
  - done.
Qed.


(** ** The steps, as the callbacks use them *)

(** A step of the notifier has no effect, or it advances a stored watermark,
    saves, and sends one result about its player. *)
Lemma watchStep_cases (res : outcome value) (p : string) (state : State) :
  (watchStep res p state).2 = []
  ∨ ∃ i w msg,
      observedId res = Some i ∧ lastMatchId state !! p = Some (VStr w) ∧ i ≠ w
      ∧ watchStep res p state
        = (set_lastMatchId state p i, [Saved (set_lastMatchId state p i); Sent msg])
      ∧ isResult msg = true ∧ announcedPlayer msg = p.
Proof.
  unfold watchStep, observedId. cbv zeta.
  destruct (truthy (catch_null (fetchLatestMatch res))); cbn [negb andb]; [|by left].
  destruct (nullish _); cbn [negb]; [by left|].
  destruct (lastMatchId state !! p) as [[| | | |w| |]|] eqn:Hw;
    cbn [default from_option id]; try by left.
  destruct (bool_decide (_ = w)) eqn:Hsame; cbn [negb]; [by left|].
  apply bool_decide_eq_false in Hsame. right.
  destruct (negb (truthy (uuid_of p))).
  - eexists _, w, _. repeat split; try done; by destruct (_ || _).
  - eexists _, w, _. repeat split; done.
Qed.

(** A step of the PB updater has no effect, or it saves the state that holds
    the resolved number and sends announcements that are no results. *)
Lemma pbStep_cases (t : Z) (oldTop3 : list value) (p : string) (latest : value)
    (state : State) :
  (pbStep t oldTop3 p latest state).2 = []
  ∨ ∃ msgs,
      pbStep t oldTop3 p latest state
      = (set_pb state t p latest, Saved (set_pb state t p latest) :: map Sent msgs)
      ∧ Forall (λ a, isResult a = false) msgs.
Proof.
  unfold pbStep. destruct latest as [| | |l| | |]; try by left.
  destruct (_ || _); [by left|]. destruct (num_ltb _ _); [|by left].
  right. cbv zeta.
  match goal with
  | |- context [placementAnnouncement ?o ?pl ?q ?ty] =>
      destruct (placementAnnouncement_sent o pl q ty)
        as [[-> _]|(_ & _ & msg & Hmsg & ->)]
  end.
  - eexists [_]. split; [done|]. repeat constructor.
  - eexists [msg; _]. split; [done|]. constructor; [|repeat constructor].
    unfold getPlacementMessage in Hmsg. repeat case_decide; by simplify_eq.
Qed.

Lemma announcements_map_Sent (msgs : list announcement) :
  announcements (map Sent msgs) = msgs.
Proof. induction msgs as [|a msgs IH]; [done|]. cbn. by f_equal. Qed.

Lemma pbStep_no_result (t : Z) (oldTop3 : list value) (p : string) (latest : value)
    (state : State) :
  Forall (λ a, isResult a = false) (announcements (pbStep t oldTop3 p latest state).2).
Proof.
  destruct (pbStep_cases t oldTop3 p latest state) as [->|(msgs & -> & Hmsgs)];
    [constructor|].
  cbn [snd]. change (announcements (Saved ?s :: ?l)) with (announcements l).
  by rewrite announcements_map_Sent.
Qed.

Lemma resultsAbout_no_result (p : string) (effs : list effect) :
  Forall (λ a, isResult a = false) (announcements effs) → resultsAbout p effs = [].
Proof.
  unfold resultsAbout. induction (announcements effs) as [|a l IH]; [done|].
  intros [Ha Hl]%Forall_cons. cbn [List.filter]. rewrite Ha. cbn [andb]. by apply IH.
Qed.

Lemma resultsAbout_app (p : string) (e1 e2 : list effect) :
  resultsAbout p (e1 ++ e2) = resultsAbout p e1 ++ resultsAbout p e2.
Proof. unfold resultsAbout. by rewrite announcements_app, List.filter_app. Qed.

(** A turn leaves no result among the pending sends. *)
Lemma resumeOver_noPendingResult (roster : list string) (c : callback) (r : response)
    (σ : Memory) :
  noPendingResult c → noPendingResult (next (resumeOver roster c r σ)).
Proof.
  intros Hc.
  assert (∀ effs k σ',
            Forall (λ a, isResult a = false) (announcements effs) →
            noPendingResult (next (emit roster effs k σ'))) as Hemit.
  { intros effs k σ' Heffs. unfold noPendingResult.
    rewrite <- (emit_announcements roster effs k σ') in Heffs.
    by apply Forall_app in Heffs as [_ ?]. }
  assert (∀ k σ', noPendingResult (next (proceed roster k σ'))) as Hproceed.
  { intros k σ'. unfold noPendingResult.
    destruct (proceed_quiet roster k σ') as [_ ->]. constructor. }
  destruct c as [|t old p rest types|p rest|pending k|], r as [pages|res| |found];
    try exact Hc; cbn [resumeOver].
  - cbv zeta. destruct (negb (is_number _)); [apply Hproceed|].
    destruct (pbByType (current σ) !! t); [|constructor].
    apply Hemit, pbStep_no_result.
  - cbv zeta. destruct (watchStep_cases res p (current σ))
      as [Hnone|(i & w & msg & _ & _ & _ & Hstep & _)].
    + rewrite Hnone. apply Hproceed.
    + rewrite Hstep. cbn [snd emit next]. constructor.
  - by apply Hemit.
  - destruct found; constructor.
Qed.

(** A turn sends no result about [p], unless it is the notifier's step for
    [p] and that step has effects. *)
Lemma resumeOver_results (p : string) (roster : list string) (c : callback)
    (r : response) (σ : Memory) :
  noPendingResult c →
  (∀ rest res, c = AwaitLatestMatch p rest → r = Newest res →
               (watchStep res p (current σ)).2 = []) →
  resultsAbout p (emitted (resumeOver roster c r σ)) = [].
Proof.
  intros Hc Hquiet.
  assert (∀ effs k σ',
            Forall (λ a, isResult a = false) (announcements effs) →
            resultsAbout p (emitted (emit roster effs k σ')) = []) as Hemit.
  { intros effs k σ' Heffs. apply resultsAbout_no_result.
    rewrite <- (emit_announcements roster effs k σ') in Heffs.
    by apply Forall_app in Heffs as [? _]. }
  assert (∀ k σ', resultsAbout p (emitted (proceed roster k σ')) = []) as Hproceed.
  { intros k σ'. apply resultsAbout_no_result.
    destruct (proceed_quiet roster k σ') as [-> _]. constructor. }
  destruct c as [|t old q rest types|q rest|pending k|], r as [pages|res| |found];
    try done; cbn [resumeOver].
  - cbv zeta. destruct (negb (is_number _)); [apply Hproceed|].
    destruct (pbByType (current σ) !! t); [|done].
    apply Hemit, pbStep_no_result.
  - cbv zeta. destruct (watchStep_cases res q (current σ))
      as [Hnone|(i & w & msg & _ & _ & _ & Hstep & _ & Habout)].
    + rewrite Hnone. apply Hproceed.
    + destruct (decide (q = p)) as [->|Hne].
      * rewrite (Hquiet rest res) by done. apply Hproceed.
      * rewrite Hstep. cbn [snd emit emitted]. unfold resultsAbout. cbn.
        rewrite Habout, bool_decide_eq_false_2 by done. by rewrite andb_false_r.
  - by apply Hemit.
  - by destruct found.
Qed.

(** A turn preserves what the steps and the assignments to the categories
    preserve, of the object [state] refers to and of the state file alike. *)
Lemma resumeOver_holds (J : State → Prop) (roster : list string) (c : callback)
    (r : response) (σ : Memory) :
  keptByCategories J →
  (∀ t old p pages s,
     J s → J (pbStep t old p (catch_null (fetchPBTime pages p t)) s).1) →
  (∀ p rest res, c = AwaitLatestMatch p rest → r = Newest res →
                 ∀ s, J s → J (watchStep res p s).1) →
  holdsIn J σ → holdsIn J (after (resumeOver roster c r σ)).
Proof.
  intros HJ Hpb Hwatch Hσ.
  destruct c as [|t old p rest types|p rest|pending k|], r as [pages|res| |found];
    try exact Hσ; cbn [resumeOver].
  - cbv zeta. destruct (negb (is_number _)); [by apply proceed_holds|].
    destruct (pbByType (current σ) !! t); [|done].
    apply emit_holds; [done|]. destruct Hσ as [Hcur Hfile].
    split; cbn; [|done]. by apply Hpb.
  - cbv zeta. apply emit_holds; [done|]. destruct Hσ as [Hcur Hfile].
    split; cbn; [|done]. by apply (Hwatch p rest res).
  - by apply emit_holds.
  - by destruct found.
Qed.

(** ** The process: what every run preserves *)

Lemma pbStep_lastMatchId (t : Z) (oldTop3 : list value) (p : string) (latest : value)
    (state : State) :
  lastMatchId (pbStep t oldTop3 p latest state).1 = lastMatchId state.
Proof.
  unfold pbStep. destruct latest as [| | |l| | |]; try done.
  destruct (negb (isFinite _) || num_leb _ _); [done|]. by destruct (num_ltb l _).
Qed.

Lemma reactOver_noPendingResult (types : list Z) (roster : list string) (s : System)
    (e : event) :
  Forall noPendingResult (callbacks s) →
  Forall noPendingResult (callbacks (reactOver types roster s e)).
Proof.
  intros Hs. destruct e as [| |i r]; cbn [reactOver].
  - unfold start. cbn [callbacks]. apply Forall_app. split; [done|].
    constructor; [|constructor]. unfold noPendingResult, pbCallbackOver.
    destruct (pbTypes_quiet roster types (loadState (memory s))) as [_ ->].
    constructor.
  - unfold start. cbn [callbacks]. apply Forall_app. split; [done|].
    constructor; [|constructor]. unfold watchCallbackOver, watchPlayers.
    destruct roster; constructor.
  - destruct (callbacks s !! i) as [c|] eqn:Hc; [|done]. cbn [callbacks].
    apply Forall_insert; [done|]. apply resumeOver_noPendingResult.
    by eapply Forall_lookup_1.
Qed.

Lemma runOver_noPendingResult (types : list Z) (roster : list string) (s : System)
    (events : list event) :
  Forall noPendingResult (callbacks s) →
  Forall noPendingResult (callbacks (runOver types roster s events)).
Proof.
  revert s. induction events as [|e events IH]; intros s Hs; [done|].
  cbn [runOver foldl]. apply IH. by apply reactOver_noPendingResult.
Qed.

Lemma map_snd_pair (i : nat) (effs : list effect) : map snd (map (pair i) effs) = effs.
Proof. induction effs as [|e effs IH]; [done|]. cbn. by f_equal. Qed.

(** While no other identifier is observed for [p], the watermark [id] of
    [p] stays in the object and in the file, and no result about [p] is sent. *)
Lemma reactOver_quiet (types : list Z) (roster : list string) (p id : string)
    (s : System) (e : event) :
  holdsIn (λ state, lastMatchId state !! p = Some (VStr id)) (memory s) →
  Forall noPendingResult (callbacks s) →
  quietEvent p id s e = true →
  holdsIn (λ state, lastMatchId state !! p = Some (VStr id))
    (memory (reactOver types roster s e))
  ∧ ∃ new, log (reactOver types roster s e) = log s ++ new
           ∧ resultsAbout p (map snd new) = [].
Proof.
  intros Hσ Hpool Hquiet.
  assert (keptByCategories (λ state, lastMatchId state !! p = Some (VStr id)))
    as Hkept by (split; intros; done).
  destruct e as [| |i r]; cbn [reactOver].
  - unfold start, pbCallbackOver. cbn [memory log]. split.
    + apply pbTypes_holds; [done|]. destruct Hσ. by split.
    + eexists. split; [done|]. rewrite map_snd_pair.
      apply resultsAbout_no_result.
      destruct (pbTypes_quiet roster types (loadState (memory s))) as [-> _].
      constructor.
  - unfold start, watchCallbackOver, watchPlayers. cbn [memory log].
    destruct Hσ as [Hcur Hfile]. destruct roster; (split; [by split|]);
      by eexists.
  - destruct (callbacks s !! i) as [c|] eqn:Hc.
    2:{ split; [done|]. exists []. by rewrite app_nil_r. }
    cbn [memory log].
    assert (∀ rest res, c = AwaitLatestMatch p rest → r = Newest res →
                        ∀ state, lastMatchId state !! p = Some (VStr id) →
                                 watchStep res p state = (state, [])) as Hsame.
    { intros rest res -> -> state Hstate. cbn [quietEvent] in Hquiet.
      rewrite Hc in Hquiet. rewrite decide_True in Hquiet by done.
      destruct (observedId res) as [id'|] eqn:Hid; [|by apply watchStep_nothing].
      apply bool_decide_eq_true in Hquiet as ->. by apply (watchStep_same res p id). }
    split.
    + apply resumeOver_holds; try done.
      * intros t old q pages state Hstate. by rewrite pbStep_lastMatchId.
      * intros q rest res -> -> state Hstate.
        destruct (decide (q = p)) as [->|Hne].
        -- by rewrite (Hsame rest res).
        -- by rewrite watchStep_frame.
    + eexists. split; [done|]. rewrite map_snd_pair.
      apply resumeOver_results; [by eapply Forall_lookup_1|].
      intros rest res -> ->. rewrite (Hsame rest res); try done. apply Hσ.
Qed.

Lemma runOver_quiet (types : list Z) (roster : list string) (p id : string)
    (s : System) (events : list event) :
  holdsIn (λ state, lastMatchId state !! p = Some (VStr id)) (memory s) →
  Forall noPendingResult (callbacks s) →
  quietRunOver types roster p id s events = true →
  holdsIn (λ state, lastMatchId state !! p = Some (VStr id))
    (memory (runOver types roster s events))
  ∧ Forall noPendingResult (callbacks (runOver types roster s events))
  ∧ ∃ new, log (runOver types roster s events) = log s ++ new
           ∧ resultsAbout p (map snd new) = [].
Proof.
  revert s. induction events as [|e events IH]; intros s Hσ Hpool Hquiet.
  - split; [done|]. split; [done|]. exists []. by rewrite app_nil_r.
  - cbn [quietRunOver] in Hquiet. apply andb_true_iff in Hquiet as [He Hrest].
    destruct (reactOver_quiet types roster p id s e Hσ Hpool He)
      as [Hσ' (new1 & Hlog1 & Hnew1)].
    destruct (IH (reactOver types roster s e)) as (Hσ'' & Hpool'' & new2 & Hlog2 & Hnew2);
      [done|by apply reactOver_noPendingResult|done|].
    cbn [runOver foldl]. split; [done|]. split; [done|].
    exists (new1 ++ new2). split.
    + unfold runOver in Hlog2. rewrite Hlog2, Hlog1. by rewrite app_assoc.
    + by rewrite map_app, resultsAbout_app, Hnew1, Hnew2.
Qed.

(** The advance of a watermark, and the next observation of the same
    identifier, in whatever process they happen. *)
Lemma watermark_advance_once (types : list Z) (roster : list string) (s1 : System)
    (between : list event) (i j : nat) (p : string) (rest rest' : list string)
    (res res' : outcome value) (w id : string) :
  Forall noPendingResult (callbacks s1) →
  callbacks s1 !! i = Some (AwaitLatestMatch p rest) →
  lastMatchId (current (memory s1)) !! p = Some (VStr w) →
  observedId res = Some id → id ≠ w →
  let s2 := reactOver types roster s1 (Response i (Newest res)) in
  quietRunOver types roster p id s2 between = true →
  let s3 := runOver types roster s2 between in
  callbacks s3 !! j = Some (AwaitLatestMatch p rest') →
  observedId res' = Some id →
  let s4 := reactOver types roster s3 (Response j (Newest res')) in
  (∃ a, log s2 = log s1 ++ [(i, Saved (current (memory s2))); (i, Sent a)]
        ∧ isResult a = true ∧ announcedPlayer a = p
        ∧ resultsAbout p (loggedSince s1 s4) = [a])
  ∧ lastMatchId (current (memory s2)) !! p = Some (VStr id)
  ∧ lastMatchId (stateFile (memory s2)) !! p = Some (VStr id)
  ∧ announcements (loggedSince s3 s4) = []
  ∧ current (memory s4) = current (memory s3)
  ∧ lastMatchId (current (memory s4)) !! p = Some (VStr id)
  ∧ lastMatchId (stateFile (memory s4)) !! p = Some (VStr id).
Proof.
  intros Hpool Hi Hw Hid Hne s2 Hquiet s3 Hj Hid' s4.
  destruct (watchStep_cases res p (current (memory s1)))
    as [Hnone|(i0 & w0 & msg & Hid0 & _ & _ & Hstep & Hresult & Habout)].
  { destruct (watchStep_new res p id w (current (memory s1)) Hid Hw Hne) as [msg Hstep].
    rewrite Hstep in Hnone. discriminate. }
  rewrite Hid in Hid0. injection Hid0 as <-.
  assert (memory s2
          = {| current := set_lastMatchId (current (memory s1)) p id;
               stateFile := set_lastMatchId (current (memory s1)) p id |}
          ∧ log s2 = log s1 ++ [(i, Saved (current (memory s2))); (i, Sent msg)])
    as [Hmem2 Hlog2].
  { subst s2. cbn [reactOver]. rewrite Hi. cbn [resumeOver]. cbv zeta.
    rewrite Hstep. cbn. done. }
  assert (holdsIn (λ state, lastMatchId state !! p = Some (VStr id)) (memory s2))
    as Hσ2.
  { rewrite Hmem2. split; cbn; apply lookup_insert_eq. }
  destruct (runOver_quiet types roster p id s2 between Hσ2) as
    ([Hcur3 Hfile3] & Hpool3 & new & Hlog3 & Hnew); [|done|].
  { by apply reactOver_noPendingResult. }
  fold s3 in Hcur3, Hfile3, Hpool3, Hlog3.
  assert (∃ last, memory s4 = last ∧ current last = current (memory s3)
                  ∧ (stateFile last = stateFile (memory s3)
                     ∨ stateFile last = current (memory s3))
                  ∧ ∃ effs, log s4 = log s3 ++ map (pair j) effs
                            ∧ announcements effs = [])
    as (last & Hmem4 & Hcur4 & Hfile4 & effs & Hlog4 & Heffs).
  { subst s4. cbn [reactOver]. rewrite Hj. cbn [resumeOver]. cbv zeta.
    rewrite (watchStep_same res' p id) by done. cbn [snd fst emit proceed memory log].
    eexists. split; [done|]. unfold watchPlayers.
    destruct rest'; cbn; (split; [done|]); (split; [auto|]).
    - by exists [Saved (current (memory s3))].
    - by exists []. }
  repeat split.
  - exists msg. repeat split; try done.
    unfold loggedSince. rewrite Hlog4, Hlog3, Hlog2.
    rewrite <- !app_assoc, drop_app_length. rewrite !map_app, map_snd_pair.
    rewrite !resultsAbout_app, Hnew.
    rewrite (resultsAbout_no_result p effs) by (rewrite Heffs; constructor).
    unfold resultsAbout. cbn. rewrite Hresult, Habout, bool_decide_eq_true_2 by done.
    done.
  - apply Hσ2.
  - apply Hσ2.
  - unfold loggedSince. by rewrite Hlog4, drop_app_length, map_snd_pair.
  - by rewrite Hmem4.
  - by rewrite Hmem4, Hcur4.
  - rewrite Hmem4. by destruct Hfile4 as [->| ->].
Qed.

(** Every run from startup leaves no result among the pending sends. *)
Lemma run_noPendingResult (state : State) (events : list event) :
  Forall noPendingResult (callbacks (run (boot state) events)).
Proof. apply runOver_noPendingResult. constructor. Qed.

(** ** The PB callback inside a category *)








(** ** A callback that runs alone *)

Lemma withPrefix_nil (turn : Turn) : withPrefix [] turn = turn.
Proof. by destruct turn. Qed.

Lemma withPrefix_withPrefix (e1 e2 : list effect) (turn : Turn) :
  withPrefix e1 (withPrefix e2 turn) = withPrefix (e1 ++ e2) turn.
Proof. unfold withPrefix. cbn. by rewrite app_assoc. Qed.

Lemma runAlone_Finished (roster : list string) (answer : callback → response)
    (fuel : nat) (turn : Turn) :
  next turn = Finished → runAlone roster answer fuel turn = turn.
Proof. intros Hnext. destruct fuel; cbn [runAlone]; [done|]. by rewrite Hnext. Qed.

Lemma runAlone_step (roster : list string) (answer : callback → response)
    (fuel : nat) (turn : Turn) :
  next turn ≠ Finished →
  runAlone roster answer (S fuel) turn
  = runAlone roster answer fuel
      (withPrefix (emitted turn)
         (resumeOver roster (next turn) (answer (next turn)) (after turn))).
Proof. intros Hnext. cbn [runAlone]. by destruct (next turn). Qed.

Lemma runAlone_emit (roster : list string) (answer : callback → response)
    (effs : list effect) (k : continuation) (σ : Memory) (acc : list effect) :
  (∀ pending k', answer (AwaitSend pending k') = Acknowledged) →
  ∃ n, ∀ m,
    runAlone roster answer (n + m) (withPrefix acc (emit roster effs k σ))
    = runAlone roster answer m
        (withPrefix (acc ++ performed (current σ) effs)
           (proceed roster k (if saves effs then saveState σ else σ))).
Proof.
  intros Hack. revert σ acc.
  induction effs as [|[s|msg|s] effs IH]; intros σ acc; cbn [emit performed map saves existsb orb].
  - exists O. intros m. by rewrite app_nil_r.
  - destruct (IH (saveState σ) (acc ++ [Saved (current σ)])) as [n Hn].
    exists n. intros m.
    replace (withPrefix acc _)
      with (withPrefix (acc ++ [Saved (current σ)]) (emit roster effs k (saveState σ)))
      by (unfold withPrefix; cbn; by rewrite <- app_assoc).
    rewrite Hn. rewrite <- app_assoc. cbn [app].
    by destruct (saves effs).
  - destruct (IH σ (acc ++ [Sent msg])) as [n Hn].
    exists (S n). intros m. cbn [Nat.add]. rewrite runAlone_step by done.
    cbn [withPrefix next after emitted]. rewrite Hack. cbn [resumeOver].
    rewrite Hn. by rewrite <- app_assoc.
  - destruct (IH σ (acc ++ [BoardEdited (current σ)])) as [n Hn].
    exists (S n). intros m. cbn [Nat.add]. rewrite runAlone_step by done.
    cbn [withPrefix next after emitted]. rewrite Hack. cbn [resumeOver].
    rewrite Hn. by rewrite <- app_assoc.
Qed.

Lemma pbStep_performed (t : Z) (oldTop3 : list value) (p : string) (latest : value)
    (state : State) :
  performed (pbStep t oldTop3 p latest state).1 (pbStep t oldTop3 p latest state).2
  = (pbStep t oldTop3 p latest state).2.
Proof.
  destruct (pbStep_cases t oldTop3 p latest state) as [->|(msgs & -> & _)]; [done|].
  cbn [fst snd performed map]. f_equal.
  induction msgs as [|a msgs IH]; [done|]. cbn [map]. by f_equal.
Qed.

Lemma watchStep_performed (res : outcome value) (p : string) (state : State) :
  performed (watchStep res p state).1 (watchStep res p state).2
  = (watchStep res p state).2.
Proof.
  destruct (watchStep_cases res p state)
    as [->|(i & w & msg & _ & _ & _ & -> & _)]; done.
Qed.

Lemma pbStep_category_kept (t : Z) (oldTop3 : list value) (p : string)
    (latest : value) (state : State) :
  is_Some (pbByType state !! t) → is_Some (pbByType (pbStep t oldTop3 p latest state).1 !! t).
Proof.
  intros Hsome. unfold pbStep. destruct latest as [| | |l| | |]; try done.
  destruct (negb (isFinite _) || num_leb _ _);
    [cbn [fst set_pb pbByType]; by rewrite lookup_insert_eq|].
  destruct (num_ltb l _); [|done]. cbn [fst set_pb pbByType]. by rewrite lookup_insert_eq.
Qed.

Lemma memory_eta (σ : Memory) : {| current := current σ; stateFile := stateFile σ |} = σ.
Proof. by destruct σ. Qed.

(** The players of a category, one after the other, as [forEach] has them. *)
Lemma runAlone_pbPlayers (roster : list string)
    (net : string → Z → nat → outcome value) (boardFound : bool) (t : Z)
    (old : list value) (types : list Z) (rest : list string) (σ : Memory)
    (acc : list effect) :
  is_Some (pbByType (current σ) !! t) →
  let r := forEach (λ p, pbStep t old p (catch_null (fetchPBTime (net p t) p t)))
             rest (current σ) in
  ∃ n file, ∀ m,
    runAlone roster (answerPB net boardFound) (n + m)
      (withPrefix acc (pbPlayers (pbTypes roster types) t old rest types σ))
    = runAlone roster (answerPB net boardFound) m
        (withPrefix (acc ++ r.2)
           (pbTypes roster types
              (assign (λ state, set_top3 state t (computeTop3 state t))
                 {| current := r.1; stateFile := file |}))).
Proof.
  revert σ acc. induction rest as [|p rest IH]; intros σ acc Hsome r.
  - exists O, (stateFile σ). intros m. subst r. cbn [forEach fst snd pbPlayers Nat.add].
    by rewrite app_nil_r, memory_eta.
  - subst r. cbn [forEach fst snd pbPlayers].
    set (latest := catch_null (fetchPBTime (net p t) p t)).
    set (step := pbStep t old p latest (current σ)).
    assert (∃ n σ', current σ' = step.1 ∧ ∀ m,
              runAlone roster (answerPB net boardFound) (S n + m)
                (withPrefix acc
                   {| after := σ; emitted := [];
                      next := AwaitPBTime t old p rest types |})
              = runAlone roster (answerPB net boardFound) m
                  (withPrefix (acc ++ step.2)
                     (pbPlayers (pbTypes roster types) t old rest types σ')))
      as (n1 & σ' & Hσ' & Hn1).
    { destruct (is_number latest) eqn:Hnum.
      - destruct Hsome as [o Ho].
        destruct (runAlone_emit roster (answerPB net boardFound) step.2
                    (NextPlayerPB t old rest types) (assign (λ _, step.1) σ) acc)
          as [n Hn]; [done|].
        exists n, (if saves step.2 then saveState (assign (λ _, step.1) σ)
                   else assign (λ _, step.1) σ).
        split; [by destruct (saves step.2)|]. intros m.
        cbn [Nat.add]. rewrite runAlone_step by done.
        cbn [withPrefix next after emitted answerPB resumeOver]. cbv zeta.
        fold latest. rewrite Hnum. cbn [negb]. rewrite Ho. fold step.
        rewrite app_nil_r.
        replace (withPrefix acc (emit _ _ _ _))
          with (withPrefix acc (emit roster step.2 (NextPlayerPB t old rest types)
                                  (assign (λ _, step.1) σ)))
          by done.
        rewrite Hn. cbn [assign current].
        by replace (performed step.1 step.2) with step.2
          by (symmetry; apply pbStep_performed).
      - exists O, σ. split.
        + unfold step. by rewrite pbStep_skip.
        + intros m. cbn [Nat.add]. rewrite runAlone_step by done.
          cbn [withPrefix next after emitted answerPB resumeOver]. cbv zeta.
          fold latest. rewrite Hnum. cbn [negb proceed].
          unfold step. rewrite pbStep_skip by done. cbn [snd].
          by rewrite !app_nil_r. }
    destruct (IH σ' (acc ++ step.2)) as (n2 & file & Hn2).
    { rewrite Hσ'. by apply pbStep_category_kept. }
    exists (S n1 + n2)%nat, file. intros m.
    rewrite <- Nat.add_assoc, Hn1, Hn2. rewrite Hσ'. by rewrite <- app_assoc.
Qed.

(** The categories, one after the other, as [forEach] has them. *)
Lemma runAlone_pbTypes (roster : list string)
    (net : string → Z → nat → outcome value) (boardFound : bool)
    (types : list Z) (σ : Memory) (acc : list effect) :
  let r := forEach (pbCategory roster net) types (current σ) in
  ∃ n file, ∀ m,
    runAlone roster (answerPB net boardFound) (n + m)
      (withPrefix acc (pbTypes roster types σ))
    = runAlone roster (answerPB net boardFound) m
        (withPrefix (acc ++ r.2) (pbFinish {| current := r.1; stateFile := file |})).
Proof.
  revert σ acc. induction types as [|t types IH]; intros σ acc r.
  - exists O, (stateFile σ). intros m. subst r. cbn [forEach fst snd pbTypes Nat.add].
    by rewrite app_nil_r, memory_eta.
  - subst r. cbn [forEach fst snd pbTypes]. cbv zeta.
    destruct (runAlone_pbPlayers roster net boardFound t
                (oldTop3Of (current (assign (λ state, ensure_pb state t) σ)) t)
                types roster (assign (λ state, ensure_pb state t) σ) acc)
      as (n1 & file1 & Hn1).
    { cbn [assign current ensure_pb pbByType]. by rewrite lookup_insert_eq. }
    cbv zeta in Hn1.
    match type of Hn1 with
    | context [pbTypes roster types ?σ1] =>
        destruct (IH σ1 (acc ++ (pbCategory roster net t (current σ)).2))
          as (n2 & file & Hn2)
    end.
    exists (n1 + n2)%nat, file. intros m.
    rewrite <- Nat.add_assoc, Hn1.
    replace (acc ++ _) with (acc ++ (pbCategory roster net t (current σ)).2) by done.
    rewrite Hn2. cbn [assign current]. unfold pbCategory at 3 4. cbv zeta. cbn [fst snd].
    by rewrite <- app_assoc.
Qed.

(** The PB callback, run alone to its end, does what [pbTickOver] says of
    the state it loads, and leaves that state in the file. *)
Lemma pbCallbackOver_alone (types : list Z) (roster : list string)
    (net : string → Z → nat → outcome value) (boardFound : bool) (σ : Memory) :
  let tick := pbTickOver types roster net boardFound (stateFile σ) in
  ∃ n, ∀ fuel, (n ≤ fuel)%nat →
    runAlone roster (answerPB net boardFound) fuel (pbCallbackOver types roster σ)
    = {| after := {| current := tick.1; stateFile := tick.1 |};
         emitted := tick.2;
         next := Finished |}.
Proof.
  intros tick. unfold pbCallbackOver.
  destruct (runAlone_pbTypes roster net boardFound types (loadState σ) [])
    as (n & file & Hn).
  cbv zeta in Hn. cbn [loadState current app] in Hn. rewrite withPrefix_nil in Hn.
  exists (n + 2)%nat. intros fuel Hfuel.
  replace fuel with (n + (2 + (fuel - n - 2)))%nat by lia. rewrite Hn.
  subst tick. unfold pbTickOver. cbv zeta. cbn [fst snd].
  set (r := forEach (pbCategory roster net) types (stateFile σ)).
  cbn [Nat.add]. rewrite runAlone_step by done.
  cbn [withPrefix pbFinish next after emitted answerPB resumeOver saveState current].
  destruct boardFound.
  - rewrite runAlone_step by done.
    cbn [withPrefix next after emitted answerPB resumeOver emit proceed].
    rewrite runAlone_Finished by done. unfold withPrefix. cbn.
    by rewrite app_nil_r, <- app_assoc.
  - rewrite runAlone_Finished by done. unfold withPrefix. cbn.
    by rewrite app_nil_r.
Qed.

Lemma runAlone_watchPlayers (roster : list string) (net : string → outcome value)
    (rest : list string) (σ : Memory) (acc : list effect) :
  let r := forEach (λ p, watchStep (net p) p) rest (current σ) in
  ∃ n file, ∀ m,
    runAlone roster (answerWatch net) (n + m) (withPrefix acc (watchPlayers rest σ))
    = runAlone roster (answerWatch net) m
        (withPrefix (acc ++ r.2)
           (watchPlayers [] {| current := r.1; stateFile := file |})).
Proof.
  revert σ acc. induction rest as [|p rest IH]; intros σ acc r.
  - exists O, (stateFile σ). intros m. subst r. cbn [forEach fst snd Nat.add].
    by rewrite app_nil_r, memory_eta.
  - subst r. cbn [forEach fst snd]. set (step := watchStep (net p) p (current σ)).
    destruct (runAlone_emit roster (answerWatch net) step.2 (NextPlayerWatch rest)
                (assign (λ _, step.1) σ) acc) as [n1 Hn1]; [done|].
    destruct (IH (if saves step.2 then saveState (assign (λ _, step.1) σ)
                  else assign (λ _, step.1) σ) (acc ++ step.2)) as (n2 & file & Hn2).
    exists (S n1 + n2)%nat, file. intros m. cbn [watchPlayers].
    rewrite <- Nat.add_assoc. cbn [Nat.add]. rewrite runAlone_step by done.
    cbn [withPrefix next after emitted answerWatch resumeOver]. cbv zeta.
    fold step. rewrite app_nil_r.
    replace (withPrefix acc (emit _ _ _ _))
      with (withPrefix acc (emit roster step.2 (NextPlayerWatch rest)
                              (assign (λ _, step.1) σ)))
      by done.
    rewrite Hn1. cbn [assign current proceed].
    replace (performed step.1 step.2) with step.2
      by (symmetry; apply watchStep_performed).
    rewrite Hn2.
    replace (current (if saves step.2 then _ else _)) with step.1
      by (by destruct (saves step.2)).
    by rewrite <- app_assoc.
Qed.

(** The notifier callback, run alone to its end, does what [watchTickOver]
    says of the state it loads, and leaves that state in the file. *)
Lemma watchCallbackOver_alone (roster : list string) (net : string → outcome value)
    (σ : Memory) :
  let tick := watchTickOver roster net (stateFile σ) in
  ∃ n, ∀ fuel, (n ≤ fuel)%nat →
    runAlone roster (answerWatch net) fuel (watchCallbackOver roster σ)
    = {| after := {| current := tick.1; stateFile := tick.1 |};
         emitted := tick.2;
         next := Finished |}.
Proof.
  intros tick. unfold watchCallbackOver.
  destruct (runAlone_watchPlayers roster net roster (loadState σ) [])
    as (n & file & Hn).
  cbv zeta in Hn. cbn [loadState current app] in Hn. rewrite withPrefix_nil in Hn.
  exists n. intros fuel Hfuel.
  replace fuel with (n + (fuel - n))%nat by lia. rewrite Hn.
  rewrite runAlone_Finished by done. done.
Qed.

(** ** The callbacks on the shared variable: claims and further properties *)

(** C4.  For a player with a stored watermark: when a notifier callback is
    handed a newest match whose identifier differs from the watermark, it
    advances the watermark, saves, and sends one result announcement; and
    when a notifier callback, the same or another, is next handed a newest
    match of the player with that identifier, it sends nothing and leaves
    the watermark as it is.  From the first observation to the second one,
    exactly one result about the player is announced in total.  This holds
    in every run of the process from startup, whatever callbacks started
    and resumed before and in between, as long as no newest match with yet
    another identifier is handed over for the player in between. *)
Theorem watermark_advance_announces_once (loaded : State)
    (before between : list event) (i j : nat) (p : string)
    (rest rest' : list string) (res res' : outcome value) (w id : string) :
  let s1 := run (boot loaded) before in
  callbacks s1 !! i = Some (AwaitLatestMatch p rest) →
  lastMatchId (current (memory s1)) !! p = Some (VStr w) →
  observedId res = Some id → id ≠ w →
  let s2 := react s1 (Response i (Newest res)) in
  quietRun p id s2 between = true →
  let s3 := run s2 between in
  callbacks s3 !! j = Some (AwaitLatestMatch p rest') →
  observedId res' = Some id →
  let s4 := react s3 (Response j (Newest res')) in
  (∃ a, log s2 = log s1 ++ [(i, Saved (current (memory s2))); (i, Sent a)]
        ∧ isResult a = true ∧ announcedPlayer a = p
        ∧ resultsAbout p (loggedSince s1 s4) = [a])
  ∧ lastMatchId (current (memory s2)) !! p = Some (VStr id)
  ∧ lastMatchId (stateFile (memory s2)) !! p = Some (VStr id)
  ∧ announcements (loggedSince s3 s4) = []
  ∧ current (memory s4) = current (memory s3)
  ∧ lastMatchId (current (memory s4)) !! p = Some (VStr id)
  ∧ lastMatchId (stateFile (memory s4)) !! p = Some (VStr id).
Proof.
  intros s1 Hi Hw Hid Hne s2 Hquiet s3 Hj Hid' s4.
  apply (watermark_advance_once TRACK_TYPES players s1 between i j p rest rest'
           res res' w id); try done.
  apply run_noPendingResult.
Qed.


(** X1.  When the PB callback runs to its end with no other callback
    running in between, the stored entry of a tracked category and roster
    player is afterwards the reconciliation of the entry in the state file
    with what the resolver produced for that pair alone; every other entry
    is as in the file; and the file holds the state the callback leaves. *)
Theorem pbCallback_alone_entry_reconciled (net : string → Z → nat → outcome value)
    (boardFound : bool) (σ : Memory) (t : Z) (p : string) :
  ∃ n, ∀ fuel, (n ≤ fuel)%nat →
    let turn := runAlone players (answerPB net boardFound) fuel (pbCallback σ) in
    next turn = Finished
    ∧ stateFile (after turn) = current (after turn)
    ∧ stored (current (after turn)) t p
      = if decide (t ∈ TRACK_TYPES ∧ p ∈ players)
        then reconcile (stored (stateFile σ) t p)
               (catch_null (fetchPBTime (net p t) p t))
        else stored (stateFile σ) t p.
Proof.
  destruct (pbCallbackOver_alone TRACK_TYPES players net boardFound σ) as [n Hn].
  exists n. intros fuel Hfuel turn. subst turn. unfold pbCallback.
  rewrite (Hn fuel Hfuel). cbn [next after current stateFile].
  split; [done|]. split; [done|]. apply pbTick_entry_reconciled.
Qed.

(** X3.  When the PB callback runs to its end with no other callback
    running in between, the cached ranking of every tracked category is
    afterwards the ranking computed from the entries it leaves. *)
Theorem pbCallback_alone_top3_coherent (net : string → Z → nat → outcome value)
    (boardFound : bool) (σ : Memory) :
  ∃ n, ∀ fuel, (n ≤ fuel)%nat →
    let turn := runAlone players (answerPB net boardFound) fuel (pbCallback σ) in
    next turn = Finished
    ∧ ∀ t, t ∈ TRACK_TYPES →
        top3ByType (current (after turn)) !! t
        = Some (computeTop3 (current (after turn)) t).
Proof.
  destruct (pbCallbackOver_alone TRACK_TYPES players net boardFound σ) as [n Hn].
  exists n. intros fuel Hfuel turn. subst turn. unfold pbCallback.
  rewrite (Hn fuel Hfuel). cbn [next after current].
  split; [done|]. intros t Ht. apply pbTickOver_top3Coherent. by left.
Qed.

(** X8.  When the notifier callback runs to its end with no other callback
    running in between, the watermark of a roster player whose newest match
    was observed is afterwards the identifier of that match; every other
    watermark is as in the state file; and the file holds the state the
    callback leaves. *)
Theorem watchCallback_alone_watermarks (net : string → outcome value) (σ : Memory)
    (p : string) :
  ∃ n, ∀ fuel, (n ≤ fuel)%nat →
    let turn := runAlone players (answerWatch net) fuel (watchCallback σ) in
    next turn = Finished
    ∧ stateFile (after turn) = current (after turn)
    ∧ lastMatchId (current (after turn)) !! p
      = match observedId (net p) with
        | Some i =>
            if decide (p ∈ players) then Some (VStr i)
            else lastMatchId (stateFile σ) !! p
        | None => lastMatchId (stateFile σ) !! p
        end.
Proof.
  destruct (watchCallbackOver_alone players net σ) as [n Hn].
  exists n. intros fuel Hfuel turn. subst turn. unfold watchCallback.
  rewrite (Hn fuel Hfuel). cbn [next after current stateFile].
  split; [done|]. split; [done|]. apply watchTick_watermarks.
Qed.

Lemma watchTickOver_replay (roster : list string) (net : string → outcome value)
    (loaded : State) :
  let first := watchTickOver roster net loaded in
  watchTickOver roster net first.1 = (first.1, [Saved first.1]).
Proof.
  unfold watchTickOver. cbv zeta. cbn [fst].
  rewrite forEach_watchStep_idle; [done|].
  intros p i Hin Hobs. apply forEach_watchStep_settles; auto.
Qed.

Lemma watchCallbackOver_replay (roster : list string) (net : string → outcome value)
    (σ : Memory) :
  ∃ n, ∀ fuel fuel', (n ≤ fuel)%nat → (n ≤ fuel')%nat →
    let first := runAlone roster (answerWatch net) fuel (watchCallbackOver roster σ) in
    let second :=
      runAlone roster (answerWatch net) fuel' (watchCallbackOver roster (after first)) in
    next first = Finished ∧ next second = Finished
    ∧ after second = after first
    ∧ emitted second = [Saved (current (after first))].
Proof.
  destruct (watchCallbackOver_alone roster net σ) as [n1 Hn1].
  set (tick := watchTickOver roster net (stateFile σ)) in Hn1.
  destruct (watchCallbackOver_alone roster net
              {| current := tick.1; stateFile := tick.1 |}) as [n2 Hn2].
  exists (n1 `max` n2)%nat. intros fuel fuel' Hfuel Hfuel' first second.
  subst first second.
  rewrite (Hn1 fuel) by lia. cbn [after next].
  rewrite (Hn2 fuel') by lia. cbn [after next emitted current stateFile].
  pose proof (watchTickOver_replay roster net (stateFile σ)) as Hsilent.
  cbv zeta in Hsilent. fold tick in Hsilent. by rewrite Hsilent.
Qed.

(** X11.  Two notifier callbacks that run to their end one after the other,
    with no other callback running in between, and get the same responses:
    the second sends nothing, leaves the memory as the first left it, and
    its only effect is the final save of that state. *)
Theorem watchCallback_alone_replay_is_silent (net : string → outcome value)
    (σ : Memory) :
  ∃ n, ∀ fuel fuel', (n ≤ fuel)%nat → (n ≤ fuel')%nat →
    let first := runAlone players (answerWatch net) fuel (watchCallback σ) in
    let second :=
      runAlone players (answerWatch net) fuel' (watchCallback (after first)) in
    next first = Finished ∧ next second = Finished
    ∧ after second = after first
    ∧ emitted second = [Saved (current (after first))].
Proof. apply watchCallbackOver_replay. Qed.

Lemma reactOver_holds (J : State → Prop) (types : list Z) (roster : list string)
    (s : System) (e : event) :
  keptByCategories J →
  (∀ t old p pages state,
     J state → J (pbStep t old p (catch_null (fetchPBTime pages p t)) state).1) →
  (∀ res p state, J state → J (watchStep res p state).1) →
  holdsIn J (memory s) → holdsIn J (memory (reactOver types roster s e)).
Proof.
  intros HJ Hpb Hwatch [Hcur Hfile]. destruct e as [| |i r]; cbn [reactOver].
  - unfold start, pbCallbackOver. cbn [memory]. apply pbTypes_holds; [done|]. by split.
  - unfold start, watchCallbackOver, watchPlayers. cbn [memory].
    destruct roster; by split.
  - destruct (callbacks s !! i) as [c|]; [|by split]. cbn [memory].
    apply resumeOver_holds; [done|done| |by split].
    intros p rest res _ _. apply Hwatch.
Qed.

Lemma runOver_holds (J : State → Prop) (types : list Z) (roster : list string)
    (s : System) (events : list event) :
  keptByCategories J →
  (∀ t old p pages state,
     J state → J (pbStep t old p (catch_null (fetchPBTime pages p t)) state).1) →
  (∀ res p state, J state → J (watchStep res p state).1) →
  holdsIn J (memory s) → holdsIn J (memory (runOver types roster s events)).
Proof.
  intros HJ Hpb Hwatch. revert s.
  induction events as [|e events IH]; intros s Hs; [done|].
  cbn [runOver foldl]. apply IH. by apply reactOver_holds.
Qed.

Lemma watchStep_pbByType (res : outcome value) (p : string) (state : State) :
  pbByType (watchStep res p state).1 = pbByType state.
Proof.
  unfold watchStep. cbv zeta.
  destruct (negb (truthy _)); [done|]. destruct (nullish _); [done|].
  destruct (default VUndefined _); try done.
  destruct (negb (bool_decide (_ = _))); [|done]. by destruct (negb (truthy _)).
Qed.

(** What the primitive operations on the memory preserve, every turn
    preserves. *)
Lemma pbTypes_kept (M : Memory → Prop) (roster : list string) (types : list Z)
    (σ : Memory) :
  keptByTurns M → M σ → M (after (pbTypes roster types σ)).
Proof.
  intros (_ & Hsave & Hensure & Htop3 & _). revert σ.
  induction types as [|t types IH]; intros σ Hσ; cbn [pbTypes].
  - by apply Hsave.
  - unfold pbPlayers. destruct roster as [|p rest] eqn:Hroster.
    + by apply IH, Htop3, Hensure.
    + by apply Hensure.
Qed.

Lemma proceed_kept (M : Memory → Prop) (roster : list string) (k : continuation)
    (σ : Memory) :
  keptByTurns M → M σ → M (after (proceed roster k σ)).
Proof.
  intros HM Hσ. destruct k as [t old rest types|rest|]; cbn [proceed]; [| |done].
  - unfold pbPlayers. destruct rest; [|done].
    apply pbTypes_kept; [done|]. by apply HM.
  - destruct rest; [|done]. by apply HM.
Qed.

Lemma emit_kept (M : Memory → Prop) (roster : list string) (effs : list effect)
    (k : continuation) (σ : Memory) :
  keptByTurns M → M σ → M (after (emit roster effs k σ)).
Proof.
  intros HM. revert σ. induction effs as [|[s|msg|s] effs IH]; intros σ Hσ; cbn [emit].
  - by apply proceed_kept.
  - cbn [after]. by apply IH, HM.
  - done.
  - done.
Qed.

Lemma resumeOver_kept (M : Memory → Prop) (roster : list string) (c : callback)
    (r : response) (σ : Memory) :
  keptByTurns M → M σ → M (after (resumeOver roster c r σ)).
Proof.
  intros HM Hσ.
  destruct c as [|t old p rest types|p rest|pending k|], r as [pages|res| |found];
    try exact Hσ; cbn [resumeOver].
  - cbv zeta. destruct (negb (is_number _)); [by apply proceed_kept|].
    destruct (pbByType (current σ) !! t); [|done].
    apply emit_kept; [done|]. by apply HM.
  - cbv zeta. apply emit_kept; [done|]. by apply HM.
  - by apply emit_kept.
  - by destruct found.
Qed.

Lemma runOver_kept (M : Memory → Prop) (types : list Z) (roster : list string)
    (s : System) (events : list event) :
  keptByTurns M → M (memory s) → M (memory (runOver types roster s events)).
Proof.
  intros HM. revert s. induction events as [|e events IH]; intros s Hs; [done|].
  cbn [runOver foldl]. apply IH. destruct e as [| |i r]; cbn [reactOver].
  - unfold start, pbCallbackOver. cbn [memory]. apply pbTypes_kept; [done|].
    by apply HM.
  - unfold start, watchCallbackOver. cbn [memory].
    change (M (after (proceed roster (NextPlayerWatch roster) (loadState (memory s))))).
    apply proceed_kept; [done|]. by apply HM.
  - destruct (callbacks s !! i) as [c|]; [|done]. cbn [memory].
    by apply resumeOver_kept.
Qed.

Lemma stored_watchStep (res : outcome value) (q : string) (state : State) (t : Z)
    (p : string) :
  stored (watchStep res q state).1 t p = stored state t p.
Proof. unfold stored, pb_of. by rewrite watchStep_pbByType. Qed.

(** A time in the state file bounds the entry the variable holds: the
    object [state] refers to is the file as loaded, with entries lowered or
    filled in since. *)
Lemma fileBoundsCurrent_kept (t : Z) (p : string) : keptByTurns (fileBoundsCurrent t p).
Proof.
  unfold keptByTurns, fileBoundsCurrent. repeat split.
  - intros σ _ q Hq Hpos. cbn in *. exists q. repeat split; try done; apply Qcle_refl.
  - intros σ _ q Hq Hpos. cbn in *. exists q. repeat split; try done; apply Qcle_refl.
  - intros σ t' Hσ q Hq Hpos. cbn in *. rewrite stored_ensure_pb. by apply Hσ.
  - intros σ t' Hσ q Hq Hpos. cbn in *. rewrite stored_set_top3. by apply Hσ.
  - intros σ t' old p' pages Hσ q Hq Hpos. cbn in *. apply pbStep_nonincreasing.
    + intros l Hl. apply (fetchPBTime_isTime pages p' t').
      destruct (fetchPBTime pages p' t'); cbn in Hl; congruence.
    + by apply Hσ.
  - intros σ res p' Hσ q Hq Hpos. cbn in *. rewrite stored_watchStep. by apply Hσ.
Qed.

Lemma stored_time_never_rises_over (types : list Z) (roster : list string)
    (loaded : State) (before later : list event) (t : Z) (p : string) (q : Qc) :
  let s1 := runOver types roster (boot loaded) before in
  let s2 := runOver types roster s1 later in
  ToNumber (stored (stateFile (memory s1)) t p) = Fin q → (0 < q)%Qc →
  timeNotAbove q (ToNumber (stored (stateFile (memory s2)) t p))
  ∧ timeNotAbove q (ToNumber (stored (current (memory s2)) t p)).
Proof.
  cbv zeta. intros Hq Hpos.
  assert (fileBoundsCurrent t p (memory (runOver types roster (boot loaded) before)))
    as Hbound.
  { apply runOver_kept; [apply fileBoundsCurrent_kept|].
    intros q' Hq' Hpos'. cbn in *. exists q'. repeat split; try done; apply Qcle_refl. }
  assert (holdsIn (λ state, timeNotAbove q (ToNumber (stored state t p)))
            (memory (runOver types roster
                       (runOver types roster (boot loaded) before) later)))
    as [Hcur Hfile]; [|done].
  apply runOver_holds.
  - split; intros state t'; intros; by rewrite ?stored_ensure_pb, ?stored_set_top3.
  - intros t' old p' pages state Hstate. apply pbStep_nonincreasing; [|done].
    intros l Hl. apply (fetchPBTime_isTime pages p' t').
    destruct (fetchPBTime pages p' t'); cbn in Hl; congruence.
  - intros res p' state Hstate. by rewrite stored_watchStep.
  - split; [by apply Hbound|]. exists q. repeat split; try done; apply Qcle_refl.
Qed.

(** X26.  In every run of the process from startup, with callbacks started
    and resumed in any order, a finite, strictly positive time that the
    state file holds for a pair is never followed by a greater one, nor by
    an entry that is no time: from then on the file, and the object [state]
    refers to, hold for the pair a time that is not above it. *)
Theorem stored_time_never_rises (loaded : State) (before later : list event)
    (t : Z) (p : string) (q : Qc) :
  let s1 := run (boot loaded) before in
  let s2 := run s1 later in
  ToNumber (stored (stateFile (memory s1)) t p) = Fin q → (0 < q)%Qc →
  timeNotAbove q (ToNumber (stored (stateFile (memory s2)) t p))
  ∧ timeNotAbove q (ToNumber (stored (current (memory s2)) t p)).
Proof. apply stored_time_never_rises_over. Qed.

End Bot.








(** ** The claims on sample data *)

(** Queried with the empty token, which the identity map never holds, the
    validator rejects a match whose winner identity is that token: its
    guards test for an empty identity, not only for a missing one. *)
Lemma isValidWinForPlayer_rejects_empty_identity :
  ¬ (isValidWinForPlayer sampleStringToNumber sampleObjectToString
       sampleMatchEmptyWinner (VStr "") = true
     ↔ countableAsSpecified sampleStringToNumber sampleObjectToString
         sampleMatchEmptyWinner (VStr "")).
Proof.
  intros [_ Hclaim].
  assert (isValidWinForPlayer sampleStringToNumber sampleObjectToString
            sampleMatchEmptyWinner (VStr "") = true) as Hvalid.
  { apply Hclaim. repeat split.
    - by exists (Q2Qc (inject_Z 650000)).
    - discriminate. }
  vm_compute in Hvalid. discriminate.
Qed.

(** C3, as the specification states it, fails when the last match of a page
    has no identifier: the scan ends after that page, although the next page
    has matches and the ceiling is far. *)
Lemma fetchCasualPrivatePB_stops_without_identifier :
  ¬ scanAsSpecified sampleStringToNumber sampleObjectToString sampleUuids
      samplePagesNoId "JerryBox".
Proof. unfold scanAsSpecified. vm_compute. discriminate. Qed.

Example fetchCasualPrivatePB_without_identifier :
  fetchCasualPrivatePB_run sampleStringToNumber sampleObjectToString sampleUuids
    (λ i, Resolved (samplePagesNoId i)) "JerryBox"
  = Resolved (VNum (ms 500000), 1%nat).
Proof. reflexivity. Qed.

(** The Ranked page of the sample is fastest-first, its fastest match was
    won by the opponent, and the first validated time is the least one. *)
Lemma fetchRankedPB_first_is_fastest_witness :
  fastestFirst sampleStringToNumber sampleObjectToString (matchesOf sampleRankedPage)
  = true
  ∧ firstValidated sampleStringToNumber sampleObjectToString
      (uuid_of sampleUuids "JerryBox") (matchesOf sampleRankedPage)
    = timeResult
        (minimum
           (validatedTimes sampleStringToNumber sampleObjectToString
              (uuid_of sampleUuids "JerryBox") (matchesOf sampleRankedPage))).
Proof.
  split; [reflexivity|].
  apply (proj2 (fetchRankedPB_first_is_fastest sampleStringToNumber
                  sampleObjectToString sampleUuids sampleRankedPage "JerryBox")).
  reflexivity.
Defined.

Example fetchRankedPB_sample :
  fetchRankedPB sampleStringToNumber sampleObjectToString sampleUuids
    (Resolved sampleRankedPage) "JerryBox"
  = Resolved (VNum (ms 580000)).
Proof. reflexivity. Qed.

(** A stored entry of -5 is replaced by a resolved 700000 without a word. *)
Lemma pbStep_invalid_entry_replaced_witness :
  ¬ isTime (ToNumber sampleStringToNumber sampleObjectToString
              (stored sampleBrokenState 2 "JerryBox"))
  ∧ pbStep sampleStringToNumber sampleObjectToString 2 [] "JerryBox"
      (VNum (ms 700000)) sampleBrokenState
    = (set_pb sampleBrokenState 2 "JerryBox" (VNum (ms 700000)), [])
  ∧ stored (set_pb sampleBrokenState 2 "JerryBox" (VNum (ms 700000))) 2 "JerryBox"
    = VNum (ms 700000).
Proof.
  assert (¬ isTime (ToNumber sampleStringToNumber sampleObjectToString
                      (stored sampleBrokenState 2 "JerryBox"))) as Hbroken.
  { intros (q & Hq & Hpos). vm_compute in Hq. injection Hq as <-.
    vm_compute in Hpos. discriminate. }
  split; [exact Hbroken|].
  apply (proj1 (pbStep_invalid_entry_replaced sampleStringToNumber
                  sampleObjectToString 2 [] "JerryBox" (ms 700000) sampleBrokenState)
           Hbroken).
Defined.

(** JerryBox improves from 620000 to 580000 in the sample state. *)
Lemma pbStep_saves_before_announcing_witness :
  stored (set_pb sampleState 2 "JerryBox" (VNum (ms 580000))) 2 "JerryBox"
  = VNum (ms 580000)
  ∧ ∃ msgs,
      pbStep sampleStringToNumber sampleObjectToString 2
        [VStr "jeefq"; VStr "JerryBox"] "JerryBox" (VNum (ms 580000)) sampleState
      = (set_pb sampleState 2 "JerryBox" (VNum (ms 580000)),
         Saved (set_pb sampleState 2 "JerryBox" (VNum (ms 580000))) :: map Sent msgs)
      ∧ NewPB "Ranked" "JerryBox" (ms 580000) (ms 620000) ∈ msgs.
Proof.
  apply (pbStep_saves_before_announcing sampleStringToNumber sampleObjectToString
           2 [VStr "jeefq"; VStr "JerryBox"] "JerryBox" (ms 580000) sampleState).
  - by exists (Q2Qc (inject_Z 620000)).
  - reflexivity.
Defined.

Lemma pbStep_announcements_witness :
  ∃ change,
    announcements
      (pbStep sampleStringToNumber sampleObjectToString 2
         [VStr "jeefq"; VStr "JerryBox"] "JerryBox" (VNum (ms 580000)) sampleState).2
    = change ++ [NewPB "Ranked" "JerryBox" (ms 580000) (ms 620000)]
    ∧ ((change = []
        ∧ ¬ ((1 ≤ 1 ≤ 3) ∧ slotHeldByOther [VStr "jeefq"; VStr "JerryBox"] 1 "JerryBox"))
       ∨ ((1 ≤ 1 ≤ 3) ∧ slotHeldByOther [VStr "jeefq"; VStr "JerryBox"] 1 "JerryBox"
          ∧ ∃ msg, getPlacementMessage 1 "JerryBox" "Ranked" = Some msg
                   ∧ change = [msg])).
Proof.
  apply (pbStep_announcements sampleStringToNumber sampleObjectToString
           2 [VStr "jeefq"; VStr "JerryBox"] "JerryBox" (ms 580000) sampleState).
  - by exists (Q2Qc (inject_Z 620000)).
  - reflexivity.
Defined.

Example pbStep_takes_first :
  announcements
    (pbStep sampleStringToNumber sampleObjectToString 2
       [VStr "jeefq"; VStr "JerryBox"] "JerryBox" (VNum (ms 580000)) sampleState).2
  = [TakesFirst "JerryBox" "Ranked";
     NewPB "Ranked" "JerryBox" (ms 580000) (ms 620000)].
Proof. reflexivity. Qed.

(** An improvement that keeps second place is announced as a PB only. *)
Example pbStep_keeps_second :
  announcements
    (pbStep sampleStringToNumber sampleObjectToString 2
       [VStr "jeefq"; VStr "JerryBox"] "JerryBox" (VNum (ms 610000)) sampleState).2
  = [NewPB "Ranked" "JerryBox" (ms 610000) (ms 620000)].
Proof. reflexivity. Qed.

(** The request for the Ranked page of jeefq is rejected on the sample
    network. *)
Lemma pbTick_resolver_failure_witness :
  pbStep sampleStringToNumber sampleObjectToString 2 [] "jeefq"
    (catch_null
       (fetchPBTime sampleStringToNumber sampleObjectToString sampleUuids
          (sampleNet "jeefq" 2) "jeefq" 2))
    sampleState
  = (sampleState, [])
  ∧ ∀ loaded,
      stored
        (pbTick sampleStringToNumber sampleObjectToString sampleUuids sampleNet
           true loaded).1 2 "jeefq"
      = stored loaded 2 "jeefq".
Proof.
  apply (pbTick_resolver_failure sampleStringToNumber sampleObjectToString
           sampleUuids sampleNet true 2 [] "jeefq" sampleState).
  reflexivity.
Defined.

(** A tick on the sample network lowers the Ranked entry of JerryBox. *)
Lemma pbTick_best_time_never_increases_witness :
  ∃ q' : Qc,
    ToNumber sampleStringToNumber sampleObjectToString
      (stored
         (pbTick sampleStringToNumber sampleObjectToString sampleUuids sampleNet
            true sampleState).1 2 "JerryBox")
    = Fin q'
    ∧ (0 < q')%Qc ∧ (q' <= Q2Qc (inject_Z 620000))%Qc.
Proof.
  apply (pbTick_best_time_never_increases sampleStringToNumber sampleObjectToString
           sampleUuids sampleNet true 2 "JerryBox" (Q2Qc (inject_Z 620000))
           sampleState).
  - reflexivity.
  - reflexivity.
Defined.

Example pbTick_sample_entry :
  stored
    (pbTick sampleStringToNumber sampleObjectToString sampleUuids sampleNet true
       sampleState).1 2 "JerryBox"
  = VNum (ms 580000).
Proof. vm_compute. reflexivity. Qed.

Example pbTick_sample_announcements :
  announcements
    (pbTick sampleStringToNumber sampleObjectToString sampleUuids sampleNet true
       sampleState).2
  = [TakesFirst "JerryBox" "Ranked";
     NewPB "Ranked" "JerryBox" (ms 580000) (ms 620000)].
Proof. vm_compute. reflexivity. Qed.

(** The watermark of JerryBox is "101" and the newest match is 102. *)
Lemma watchStep_replay_announces_once_witness :
  let res := Resolved (samplePage [sampleMatch 102 2 650000 "uuid-jerry"]) in
  let first :=
    watchStep sampleStringToNumber sampleNumberToString sampleObjectToString
      sampleUuids res "JerryBox" sampleState in
  let second :=
    watchStep sampleStringToNumber sampleNumberToString sampleObjectToString
      sampleUuids res "JerryBox" first.1 in
  lastMatchId first.1 !! "JerryBox" = Some (VStr "102")
  ∧ (∃ msg, announcements (first.2 ++ second.2) = [msg])
  ∧ second = (first.1, []).
Proof.
  apply (watchStep_replay_announces_once sampleStringToNumber sampleNumberToString
           sampleObjectToString sampleUuids
           (Resolved (samplePage [sampleMatch 102 2 650000 "uuid-jerry"]))
           "JerryBox" "102" "101" sampleState).
  - reflexivity.
  - reflexivity.
  - discriminate.
Defined.

Example watchStep_sample_announcement :
  announcements
    (watchStep sampleStringToNumber sampleNumberToString sampleObjectToString
       sampleUuids (Resolved (samplePage [sampleMatch 102 2 650000 "uuid-jerry"]))
       "JerryBox" sampleState).2
  = [RankedResult "JerryBox" (VStr "uuid-jerry")
       (sampleMatch 102 2 650000 "uuid-jerry")].
Proof. reflexivity. Qed.

(** Nothing is recorded yet: a first best time and a first newest match. *)
Lemma cold_start_is_silent_witness :
  let res := Resolved (samplePage [sampleMatch 102 2 650000 "uuid-jerry"]) in
  (pbStep sampleStringToNumber sampleObjectToString 2 [] "JerryBox"
     (VNum (ms 620000)) sampleEmptyState
   = (set_pb sampleEmptyState 2 "JerryBox" (VNum (ms 620000)), [])
   ∧ stored (set_pb sampleEmptyState 2 "JerryBox" (VNum (ms 620000))) 2 "JerryBox"
     = VNum (ms 620000))
  ∧ (watchStep sampleStringToNumber sampleNumberToString sampleObjectToString
       sampleUuids res "JerryBox" sampleEmptyState
     = (set_lastMatchId sampleEmptyState "JerryBox" "102", [])
     ∧ lastMatchId (set_lastMatchId sampleEmptyState "JerryBox" "102") !! "JerryBox"
       = Some (VStr "102")).
Proof.
  intros res.
  destruct (cold_start_is_silent sampleStringToNumber sampleNumberToString
              sampleObjectToString sampleUuids 2 [] "JerryBox" (ms 620000) res
              "102" sampleEmptyState) as [Hpb Hwatch].
  split.
  - apply Hpb. reflexivity.
  - apply Hwatch; reflexivity.
Defined.

(** In the tied sample LegitNG is fastest; tumblintim and JerryBox have the
    same time and tumblintim was entered first; the entry of jeefq is no time. *)
Example placementOf_tie :
  placementOf sampleStringToNumber sampleObjectToString sampleTiedState 1 "JerryBox" = 3
  ∧ placementOf sampleStringToNumber sampleObjectToString sampleTiedState 1 "tumblintim" = 2
  ∧ computeTop3 sampleStringToNumber sampleObjectToString sampleTiedState 1
    = VArr [VStr "LegitNG"; VStr "tumblintim"; VStr "JerryBox"].
Proof. repeat split. Qed.

Example rowsAhead_tie :
  rowsAhead "JerryBox"
    (timedRows sampleStringToNumber sampleObjectToString (pb_of sampleTiedState 1))
  = 2%nat.
Proof. reflexivity. Qed.

(** Two ticks of the notifier on the same responses. *)
Example watchTick_sample :
  let net := λ p : string,
    if bool_decide (p = "JerryBox")
    then Resolved (samplePage [sampleMatch 102 2 650000 "uuid-jerry"])
    else Rejected in
  let first :=
    watchTick sampleStringToNumber sampleNumberToString sampleObjectToString
      sampleUuids net sampleState in
  announcements first.2
  = [RankedResult "JerryBox" (VStr "uuid-jerry") (sampleMatch 102 2 650000 "uuid-jerry")]
  ∧ announcements
      (watchTick sampleStringToNumber sampleNumberToString sampleObjectToString
         sampleUuids net first.1).2
    = [].
Proof. vm_compute. split; reflexivity. Qed.

(** ** Further properties on sample data *)

(** X18.  For every identity the bot holds after startup, and for a player whose
    identity it could not resolve, the validator accepts a match exactly
    when the match carries a finite, strictly-positive completion time, is
    not marked forfeited, and carries a non-null winner identity equal to
    that identity. *)
Theorem isValidWinForPlayer_startup_identity (StringToNumber : string → number)
    (ObjectToString : value → string) (net : string → outcome value)
    (m : value) (p : string) :
  isValidWinForPlayer StringToNumber ObjectToString m (uuid_of (buildUuidMap net) p)
  = true
  ↔ countableAsSpecified StringToNumber ObjectToString m
      (uuid_of (buildUuidMap net) p).
Proof.
  apply isValidWinForPlayer_as_specified. unfold uuid_of, buildUuidMap.
  rewrite buildUuidMapOver_lookup.
  destruct (decide _) as [[_ Hu]|_]; [by left|]. rewrite lookup_empty. by right.
Qed.

Example buildUuidMap_sample :
  buildUuidMap sampleIdentityNet !! "JerryBox" = Some (VStr "uuid-jerry")
  ∧ buildUuidMap sampleIdentityNet !! "jeefq" = None
  ∧ buildUuidMap sampleIdentityNet !! "LegitNG" = None.
Proof. vm_compute. repeat split. Qed.

Lemma pbTick_top3_cache_coherent_witness :
  top3ByType
    (pbTick sampleStringToNumber sampleObjectToString sampleUuids sampleNet true
       sampleState).1 !! 2
  = Some
      (computeTop3 sampleStringToNumber sampleObjectToString
         (pbTick sampleStringToNumber sampleObjectToString sampleUuids sampleNet true
            sampleState).1 2).
Proof.
  apply (pbTick_top3_cache_coherent sampleStringToNumber sampleObjectToString
           sampleUuids sampleNet true sampleState 2).
  unfold TRACK_TYPES. set_solver.
Defined.

Lemma pbTick_announces_only_improvements_witness :
  "JerryBox" ∈ players
  ∧ (∃ t, t ∈ TRACK_TYPES ∧ "Ranked" = typeLabel (VNum (ms t)))
  ∧ isTime (ms 580000) ∧ isTime (ms 620000)
  ∧ num_ltb (ms 580000) (ms 620000) = true.
Proof.
  apply (pbTick_announces_only_improvements sampleStringToNumber sampleObjectToString
           sampleUuids sampleNet true sampleState "Ranked" "JerryBox"
           (ms 580000) (ms 620000)).
  apply list_elem_of_In. vm_compute. tauto.
Defined.

Lemma placementOf_rank_witness :
  placementOf sampleStringToNumber sampleObjectToString sampleTiedState 1 "JerryBox"
  = Z.of_nat
      (rowsAhead "JerryBox"
         (timedRows sampleStringToNumber sampleObjectToString
            (pb_of sampleTiedState 1))) + 1.
Proof.
  apply (placementOf_rank sampleStringToNumber sampleObjectToString
           sampleTiedState 1 "JerryBox").
  - apply (bool_decide_unpack _). reflexivity.
  - by exists (Q2Qc (inject_Z 500000)).
Defined.

Lemma fetchCasualPrivatePB_ceiling_witness :
  fetchCasualPrivatePB sampleStringToNumber sampleObjectToString sampleUuids
    samplePagesEndless "JerryBox"
  = fetchCasualPrivatePB sampleStringToNumber sampleObjectToString sampleUuids
      samplePagesCut "JerryBox".
Proof.
  apply (proj2 (fetchCasualPrivatePB_ceiling sampleStringToNumber sampleObjectToString
                  sampleUuids samplePagesEndless samplePagesCut "JerryBox")).
  intros i Hi. unfold samplePagesCut. by rewrite (proj2 (Nat.ltb_lt i 20) Hi).
Defined.

Example fetchCasualPrivatePB_endless :
  fetchCasualPrivatePB_run sampleStringToNumber sampleObjectToString sampleUuids
    samplePagesEndless "JerryBox"
  = Resolved (VNum (ms 699981), 20%nat).
Proof. vm_compute. reflexivity. Qed.

Lemma fetchCasualPrivatePB_rejected_witness :
  fetchCasualPrivatePB sampleStringToNumber sampleObjectToString sampleUuids
    samplePagesBroken "JerryBox"
  = Rejected.
Proof.
  apply (fetchCasualPrivatePB_rejected sampleStringToNumber sampleObjectToString
           sampleUuids samplePagesBroken
           (λ i, samplePage [sampleMatch (Z.of_nat i) 1 (700000 - Z.of_nat i) "uuid-jerry"])
           "JerryBox" 1).
  - reflexivity.
  - lia.
  - intros i Hi. assert (i = O) as -> by lia. split; reflexivity.
  - reflexivity.
Defined.

Lemma fetchPBTime_null_or_time_witness :
  VNum (ms 580000) = VNull ∨ ∃ n, VNum (ms 580000) = VNum n ∧ isTime n.
Proof.
  apply (fetchPBTime_null_or_time sampleStringToNumber sampleObjectToString
           sampleUuids (sampleNet "JerryBox" 2) "JerryBox" 2).
  reflexivity.
Defined.

Lemma fetchPBTime_source_error_witness :
  resolverFailed
    (fetchPBTime sampleStringToNumber sampleObjectToString sampleUuids
       (sampleNet "jeefq" 1) "jeefq" 1).
Proof.
  apply (fetchPBTime_source_error sampleStringToNumber sampleObjectToString
           sampleUuids (sampleNet "jeefq" 1) "jeefq" 1).
  reflexivity.
Defined.

Lemma fetchPBTime_malformed_payload_witness :
  resolverFailed
    (fetchPBTime sampleStringToNumber sampleObjectToString sampleUuids
       (λ _, Resolved sampleBodyNoData) "JerryBox" 3).
Proof.
  apply (fetchPBTime_malformed_payload sampleStringToNumber sampleObjectToString
           sampleUuids (λ _, Resolved sampleBodyNoData) sampleBodyNoData "JerryBox" 3).
  - reflexivity.
  - reflexivity.
Defined.

Lemma formatTime_whole_ms_witness :
  ∃ minutes seconds millis,
    formatTime sampleNumberToString (ms 620000)
    = sampleNumberToString (ms minutes) +:+ ":"
      +:+ padStart 2 "0"%char (sampleNumberToString (ms seconds)) +:+ "."
      +:+ padStart 3 "0"%char (sampleNumberToString (ms millis))
    ∧ 0 ≤ minutes ∧ 0 ≤ seconds < 60 ∧ 0 ≤ millis < 1000
    ∧ 620000 = 60000 * minutes + 1000 * seconds + millis.
Proof.
  apply (formatTime_whole_ms sampleNumberToString 620000). split; [lia|reflexivity].
Defined.

Example formatTime_sample :
  formatTime sampleNumberToString (ms 620000) = "10:20.000"
  ∧ formatTime sampleNumberToString (ms 59999) = "0:59.999"
  ∧ formatTime sampleNumberToString (ms 3605007) = "60:05.007".
Proof. vm_compute. repeat split. Qed.

Lemma getEloForPlayerFromMatch_number_or_null_witness :
  (getEloForPlayerFromMatch sampleDuel (VStr "uuid-jerry") = VNull
   ∨ is_number (getEloForPlayerFromMatch sampleDuel (VStr "uuid-jerry")) = true)
  ∧ getEloForPlayerFromMatch sampleDuel (VStr "uuid-jerry") = VNum (ms 1500).
Proof.
  destruct (getEloForPlayerFromMatch_number_or_null sampleDuel (VStr "uuid-jerry"))
    as [Htype Hchanges].
  split; [exact Htype|]. by apply (Hchanges _ _ eq_refl eq_refl).
Defined.

Lemma buildRankedResultMessage_countable_win_witness :
  buildRankedResultMessage sampleStringToNumber sampleNumberToString
    sampleObjectToString "JerryBox" (VStr "uuid-jerry") sampleDuel
  = BeatIn "JerryBox" "B" "10:50.000" "Ranked" (Some (ms 1500)).
Proof.
  apply (buildRankedResultMessage_countable_win sampleStringToNumber
           sampleNumberToString sampleObjectToString "JerryBox" (VStr "uuid-jerry")
           sampleDuel).
  reflexivity.
Defined.

(** The initial build replaces a stored 500000 by the 580000 it resolves. *)
Example initialBuild_can_raise :
  stored sampleFastState 2 "JerryBox" = VNum (ms 500000)
  ∧ stored
      (initialBuild sampleStringToNumber sampleObjectToString sampleUuids sampleNet
         sampleFastState).1 2 "JerryBox"
    = VNum (ms 580000)
  ∧ stored
      (pbTick sampleStringToNumber sampleObjectToString sampleUuids sampleNet true
         sampleFastState).1 2 "JerryBox"
    = VNum (ms 500000).
Proof. vm_compute. repeat split. Qed.

Example boardLines_sample :
  boardLines sampleStringToNumber sampleNumberToString sampleObjectToString
    (ms 1700000000123) sampleState
  = [BoardTitle; BoardLastUpdate "1700000000"; BoardBlank;
     BoardHeader "Casual"; BoardNoCompletions; BoardBlank;
     BoardHeader "Ranked"; BoardRow Gold "jeefq" "10:00.000";
     BoardRow Silver "JerryBox" "10:20.000"; BoardBlank;
     BoardHeader "Private"; BoardNoCompletions; BoardBlank].
Proof. vm_compute. reflexivity. Qed.

(** ** The revised claims on sample data *)

(** The validator on the identity the sample identity map holds for JerryBox. *)
Lemma isValidWinForPlayer_countable_win_witness :
  (isValidWinForPlayer sampleStringToNumber sampleObjectToString
     (sampleMatch 9 2 580000 "uuid-jerry") (VStr "uuid-jerry") = true
   ↔ countableAsSpecified sampleStringToNumber sampleObjectToString
       (sampleMatch 9 2 580000 "uuid-jerry") (VStr "uuid-jerry"))
  ∧ (isValidWinForPlayer sampleStringToNumber sampleObjectToString
       (sampleMatch 9 2 580000 "uuid-jerry") (VStr "uuid-jerry") = false
     ↔ ¬ countableAsSpecified sampleStringToNumber sampleObjectToString
           (sampleMatch 9 2 580000 "uuid-jerry") (VStr "uuid-jerry")).
Proof.
  apply (isValidWinForPlayer_countable_win sampleStringToNumber sampleObjectToString
           (sampleMatch 9 2 580000 "uuid-jerry") (VStr "uuid-jerry")).
  left. reflexivity.
Defined.

Example isValidWinForPlayer_sample :
  isValidWinForPlayer sampleStringToNumber sampleObjectToString
    (sampleMatch 9 2 580000 "uuid-jerry") (VStr "uuid-jerry") = true
  ∧ isValidWinForPlayer sampleStringToNumber sampleObjectToString
      (sampleMatch 9 2 580000 "uuid-jerry") VUndefined = false
  ∧ isValidWinForPlayer sampleStringToNumber sampleObjectToString
      (sampleMatch 7 2 560000 "uuid-jeefq") (VStr "uuid-jerry") = false.
Proof. vm_compute. repeat split. Qed.

(** C10, as the specification states it, fails for a stored entry that is
    no number but that [Number] turns into one: a stored [true] is not a
    finite, strictly positive number, yet the updater reads it as 1 and
    keeps it when 700000 is resolved. *)
Lemma pbStep_keeps_coerced_entry :
  ¬ (¬ holdsTime (stored sampleCoercedState 2 "JerryBox") →
     pbStep sampleStringToNumber sampleObjectToString 2 [] "JerryBox"
       (VNum (ms 700000)) sampleCoercedState
     = (set_pb sampleCoercedState 2 "JerryBox" (VNum (ms 700000)), [])).
Proof.
  intros Hclaim.
  assert (¬ holdsTime (stored sampleCoercedState 2 "JerryBox")) as Hno.
  { intros (n & Hn & _). vm_compute in Hn. discriminate. }
  specialize (Hclaim Hno).
  apply (f_equal (λ r, stored r.1 2 "JerryBox")) in Hclaim.
  vm_compute in Hclaim. discriminate.
Qed.

Example pbStep_coerced_entry :
  pbStep sampleStringToNumber sampleObjectToString 2 [] "JerryBox"
    (VNum (ms 700000)) sampleCoercedState
  = (sampleCoercedState, []).
Proof. reflexivity. Qed.

(** JerryBox has the watermark 101; a notifier callback is handed the match
    102, and after the run [sampleReplay] another one is handed it again. *)
Lemma watermark_advance_announces_once_witness :
  let run := run sampleStringToNumber sampleNumberToString sampleObjectToString
               sampleUuids in
  let react := react sampleStringToNumber sampleNumberToString sampleObjectToString
                 sampleUuids in
  let s1 := run (boot sampleState) [WatchTimer] in
  let s2 := react s1 (Response 0 (Newest sampleNewest)) in
  let s3 := run s2 sampleReplay in
  let s4 := react s3 (Response 2 (Newest sampleNewest)) in
  (∃ a, log s2 = log s1 ++ [(0%nat, Saved (current (memory s2))); (0%nat, Sent a)]
        ∧ isResult a = true ∧ announcedPlayer a = "JerryBox"
        ∧ resultsAbout "JerryBox" (loggedSince s1 s4) = [a])
  ∧ lastMatchId (current (memory s2)) !! "JerryBox" = Some (VStr "102")
  ∧ lastMatchId (stateFile (memory s2)) !! "JerryBox" = Some (VStr "102")
  ∧ announcements (loggedSince s3 s4) = []
  ∧ current (memory s4) = current (memory s3)
  ∧ lastMatchId (current (memory s4)) !! "JerryBox" = Some (VStr "102")
  ∧ lastMatchId (stateFile (memory s4)) !! "JerryBox" = Some (VStr "102").
Proof.
  apply (watermark_advance_announces_once sampleStringToNumber sampleNumberToString
           sampleObjectToString sampleUuids sampleState [WatchTimer] sampleReplay
           0 2 "JerryBox" (tail players) (tail players) sampleNewest sampleNewest
           "101" "102").
  - reflexivity.
  - reflexivity.
  - reflexivity.
  - discriminate.
  - vm_compute. reflexivity.
  - vm_compute. reflexivity.
  - reflexivity.
Defined.

Example watermark_advance_sample :
  let run := run sampleStringToNumber sampleNumberToString sampleObjectToString
               sampleUuids in
  map snd
    (log (run (boot sampleState)
            ([WatchTimer; Response 0 (Newest sampleNewest)] ++ sampleReplay
             ++ [Response 2 (Newest sampleNewest)])))
  = [Saved (set_lastMatchId sampleState "JerryBox" "102");
     Sent (RankedResult "JerryBox" (VStr "uuid-jerry") sampleDuel)].
Proof. vm_compute. reflexivity. Qed.


Example improvement_announcements_sample :
  let turn :=
    resume sampleStringToNumber sampleNumberToString sampleObjectToString sampleUuids
      (AwaitPBTime 1 [VStr "LegitNG"; VStr "tumblintim"; VStr "JerryBox"] "JerryBox"
         (tail players) [2; 3])
      (Pages sampleCasualPages)
      {| current := sampleCasualState; stateFile := sampleCasualState |} in
  announcements (emitted turn) = [MovesIntoSecond "JerryBox" "Casual"]
  ∧ pendingSends (next turn) = [NewPB "Casual" "JerryBox" (ms 480000) (ms 520000)].
Proof. vm_compute. split; reflexivity. Qed.

(** The Ranked time of JerryBox in the file, 620000, after a run in which a
    PB callback resolves 580000. *)
Lemma stored_time_never_rises_witness :
  let run := run sampleStringToNumber sampleNumberToString sampleObjectToString
               sampleUuids in
  let s2 := run (run (boot sampleState) []) sampleImprovementRun in
  timeNotAbove (Q2Qc (inject_Z 620000))
    (ToNumber sampleStringToNumber sampleObjectToString
       (stored (stateFile (memory s2)) 2 "JerryBox"))
  ∧ timeNotAbove (Q2Qc (inject_Z 620000))
      (ToNumber sampleStringToNumber sampleObjectToString
         (stored (current (memory s2)) 2 "JerryBox")).
Proof.
  apply (stored_time_never_rises sampleStringToNumber sampleNumberToString
           sampleObjectToString sampleUuids sampleState [] sampleImprovementRun
           2 "JerryBox" (Q2Qc (inject_Z 620000))).
  - reflexivity.
  - reflexivity.
Defined.

Example stored_time_sample :
  stored
    (stateFile
       (memory
          (run sampleStringToNumber sampleNumberToString sampleObjectToString
             sampleUuids (boot sampleState) sampleImprovementRun)))
    2 "JerryBox"
  = VNum (ms 580000).
Proof. vm_compute. reflexivity. Qed.

(** ** Callbacks that interleave *)

(** A first watermark is set without a save; a PB callback that starts
    before the notifier callback saves reloads the file, and the watermark
    is gone from the object [state] refers to. *)
Example first_watermark_lost_on_reload :
  let run := run sampleStringToNumber sampleNumberToString sampleObjectToString
               sampleUuids in
  lastMatchId (current (memory (run (boot sampleFastState) (take 2 sampleLostRun))))
    !! "JerryBox" = Some (VStr "102")
  ∧ lastMatchId (current (memory (run (boot sampleFastState) sampleLostRun)))
      !! "JerryBox" = None.
Proof. vm_compute. split; reflexivity. Qed.

(** The cached ranking of a category is assigned without a save; a notifier
    callback that starts while the PB callback is in a later category
    reloads the file, and the state the PB callback saves in the end holds
    the improved time with the ranking cached before it. *)
Example cached_ranking_stale_after_reload :
  let final :=
    stateFile
      (memory
         (run sampleStringToNumber sampleNumberToString sampleObjectToString
            sampleUuids (boot sampleState) sampleStaleRun)) in
  stored final 2 "JerryBox" = VNum (ms 580000)
  ∧ top3ByType final !! 2 = Some (VArr [VStr "jeefq"; VStr "JerryBox"])
  ∧ computeTop3 sampleStringToNumber sampleObjectToString final 2
    = VArr [VStr "JerryBox"; VStr "jeefq"].
Proof. vm_compute. repeat split. Qed.

(** Run with nothing in between, the same callback leaves the ranking it
    computed. *)
Example pbCallback_alone_sample :
  let turn :=
    runAlone sampleStringToNumber sampleNumberToString sampleObjectToString
      sampleUuids players (answerPB sampleNet false) 40
      (pbCallback sampleStringToNumber sampleObjectToString
         {| current := sampleState; stateFile := sampleState |}) in
  next turn = Finished
  ∧ stored (stateFile (after turn)) 2 "JerryBox" = VNum (ms 580000)
  ∧ top3ByType (stateFile (after turn)) !! 2
    = Some (VArr [VStr "JerryBox"; VStr "jeefq"]).
Proof. vm_compute. repeat split. Qed.
